(** * Lit-Review-Dashboard: the data transformation pipeline

    A shallow embedding of the record parser ([src/data/csvParser.ts] and the
    revised copy of that file found in [unnamed/part_004]), the validator
    ([src/utils/dataValidation.ts]), the text classifier
    ([src/utils/textAnalysis.ts]), the author network builder
    ([src/utils/authorAnalysis.ts]) and the gap analyzer
    ([src/utils/researchGapAnalysis.ts]).

    Conventions of the model.
    - A JavaScript string is a list of characters; a character is one code
      unit below 256 (ASCII plus Latin-1).  Code units above 255 are outside
      the model.
    - A JavaScript [number] that only ever holds an integer is a [Z] or a
      [nat]; one that is the result of a division is a rational [Q] (the
      rounding of IEEE doubles is not modelled), or a [jsnum] where the
      source can divide by zero.  The topical gap analysis compares such
      numbers with thresholds that the rounding can cross, so its numbers
      are IEEE doubles ([Double.double]), operation by operation.
    - A [Map] or [Set] is a list in insertion order, which is the order in
      which JavaScript iterates them.  An object used as a table from names
      to values is such a list as well; the names looked up in it are taken
      not to be properties of [Object.prototype].
    - [new Date().getFullYear()] is a parameter [currentYear]. *)

From Stdlib Require Import String Ascii List Bool Arith ZArith QArith Qround Lia
  Permutation Sorted.
From Stdlib Require SpecFloat.
Import ListNotations.

Set Implicit Arguments.
Close Scope Q_scope.
Close Scope Z_scope.
Open Scope string_scope.
Open Scope nat_scope.
Open Scope list_scope.

(* ================================================================== *)
(** ** JavaScript strings *)
(* ================================================================== *)

Module JS.

Definition str : Type := list ascii.

(** A string literal of the source. *)
Definition L (s : string) : str := list_ascii_of_string s.

Arguments L : simpl never.

Definition code (c : ascii) : nat := nat_of_ascii c.

Definition chr (n : nat) : ascii := ascii_of_nat n.

(** The characters the sources name. *)
Definition dquote : ascii := chr 34.
Definition comma : ascii := chr 44.
Definition newline : ascii := chr 10.
Definition space : ascii := chr 32.

Definition ch_eqb (a b : ascii) : bool := Ascii.eqb a b.

Arguments ch_eqb : simpl never.

Definition str_eqb (a b : str) : bool :=
  if list_eq_dec ascii_dec a b then true else false.

Definition between (lo hi n : nat) : bool := (lo <=? n) && (n <=? hi).

(** [\s] of a regular expression and the white space of [trim]: TAB, LF, VT,
    FF, CR, SPACE and NBSP. *)
Definition is_space (c : ascii) : bool :=
  let n := code c in between 9 13 n || (n =? 32) || (n =? 160).

(** [\d]. *)
Definition is_digit (c : ascii) : bool := between 48 57 (code c).

(** [[a-zA-Z]]. *)
Definition is_alpha (c : ascii) : bool :=
  let n := code c in between 65 90 n || between 97 122 n.

(** [\w], that is [[A-Za-z0-9_]]. *)
Definition is_word (c : ascii) : bool :=
  is_alpha c || is_digit c || (code c =? 95).

(** [String.prototype.toLowerCase] on one code unit below 256. *)
Definition lower_char (c : ascii) : ascii :=
  let n := code c in
  if between 65 90 n then chr (n + 32)
  else if between 192 222 n && negb (n =? 215) then chr (n + 32)
  else c.

Definition toLowerCase (s : str) : str := map lower_char s.

(** Equality of two characters under the [i] flag. *)
Definition ch_eqb_ci (a b : ascii) : bool :=
  let fold c := if is_alpha c then lower_char c else c in
  ch_eqb (fold a) (fold b).

Fixpoint dropWhile (f : ascii -> bool) (s : str) : str :=
  match s with
  | [] => []
  | c :: r => if f c then dropWhile f r else s
  end.

Definition trimStart (s : str) : str := dropWhile is_space s.
Definition trimEnd (s : str) : str := rev (dropWhile is_space (rev s)).
Definition trim (s : str) : str := trimEnd (trimStart s).

(** [s.split(c)] for a separator of one character. *)
Fixpoint split_on (c : ascii) (s : str) : list str :=
  match s with
  | [] => [[]]
  | x :: r =>
      if ch_eqb x c then [] :: split_on c r
      else match split_on c r with
           | h :: t => (x :: h) :: t
           | [] => [[x]]
           end
  end.

(** [l.join(sep)]. *)
Fixpoint join (sep : str) (l : list str) : str :=
  match l with
  | [] => []
  | [x] => x
  | x :: r => x ++ sep ++ join sep r
  end.

(** [s.startsWith(p)]. *)
Fixpoint startsWith (s p : str) : bool :=
  match p, s with
  | [], _ => true
  | _ :: _, [] => false
  | a :: p', b :: s' => ch_eqb a b && startsWith s' p'
  end.

(** [startsWith] under the [i] flag, for anchored alternatives. *)
Fixpoint startsWith_ci (s p : str) : bool :=
  match p, s with
  | [], _ => true
  | _ :: _, [] => false
  | a :: p', b :: s' => ch_eqb_ci a b && startsWith_ci s' p'
  end.

(** [s.includes(sub)]. *)
Fixpoint includes (s sub : str) : bool :=
  match s with
  | [] => startsWith [] sub
  | _ :: r => startsWith s sub || includes r sub
  end.

(** [s.replace(/c/g, '')] for a class of characters [f]. *)
Definition remove_all (f : ascii -> bool) (s : str) : str :=
  filter (fun c => negb (f c)) s.

(** [s.replace(/\s+/g, r)]: every maximal run of white space becomes [r]. *)
Fixpoint replace_ws_runs (r : str) (in_run : bool) (s : str) : str :=
  match s with
  | [] => []
  | c :: t =>
      if is_space c
      then (if in_run then [] else r) ++ replace_ws_runs r true t
      else c :: replace_ws_runs r false t
  end.

(** [s.split(re)] for a regular expression without captures or
    look-behind: [match_len t] is the length of the match of [re] at the
    front of [t], when there is one and it is not empty. *)
Fixpoint regex_split_go (match_len : str -> option nat) (s : str)
    (skip : nat) (cur : str) : list str :=
  match s with
  | [] => [cur]
  | c :: r =>
      match skip with
      | S k => regex_split_go match_len r k cur
      | O =>
          match match_len s with
          | Some (S k) => cur :: regex_split_go match_len r k []
          | _ => regex_split_go match_len r 0 (cur ++ [c])
          end
      end
  end.

Definition regex_split (match_len : str -> option nat) (s : str) : list str :=
  regex_split_go match_len s 0 [].

Definition ws_run_len (s : str) : nat :=
  length s - length (dropWhile is_space s).

(** [/\s+/] *)
Definition re_ws (s : str) : option nat :=
  match ws_run_len s with O => None | n => Some n end.

(** [parseInt] on a string of decimal digits. *)
Definition digit_val (c : ascii) : Z := Z.of_nat (code c - 48).

Definition parseInt_digits (s : str) : Z :=
  fold_left (fun acc c => (10 * acc + digit_val c)%Z) s 0%Z.

(** Decimal text of a natural number, as a template literal prints it. *)
Fixpoint nat_digits (fuel n : nat) (acc : str) : str :=
  match fuel with
  | O => acc
  | S f =>
      let acc' := chr (48 + n mod 10) :: acc in
      if n <? 10 then acc' else nat_digits f (n / 10) acc'
  end.

Definition nat_to_str (n : nat) : str := nat_digits (S n) n [].

Definition Z_to_str (z : Z) : str :=
  match z with
  | Zneg p => L "-" ++ nat_to_str (Pos.to_nat p)
  | _ => nat_to_str (Z.to_nat z)
  end.

(** The default order of [Array.prototype.sort] on strings: by code unit. *)
Fixpoint str_ltb (a b : str) : bool :=
  match a, b with
  | [], [] => false
  | [], _ :: _ => true
  | _ :: _, [] => false
  | x :: a', y :: b' =>
      if code x <? code y then true
      else if code y <? code x then false
      else str_ltb a' b'
  end.

(** [Array.prototype.sort(cmp)] is stable; [gt a b] holds when the comparator
    orders [b] strictly before [a]. *)
Section Sort.
Variable A : Type.
Variable gt : A -> A -> bool.

Fixpoint insert_sorted (x : A) (l : list A) : list A :=
  match l with
  | [] => [x]
  | y :: r => if gt x y then y :: insert_sorted x r else x :: l
  end.

Definition stable_sort (l : list A) : list A :=
  fold_right insert_sorted [] l.
End Sort.

End JS.

Import JS.

(* ================================================================== *)
(** ** [src/types/index.ts] *)
(* ================================================================== *)

Record PaperRecord : Type := {
  key : str;
  itemType : str;
  publicationYear : option Z;
  authors : list str;
  title : str;
  publicationTitle : str;
  doi : option str;
  url : option str;
  abstract : str;
  tags : list str;
  venue : str
}.

Record CollaborationEdge : Type := {
  source : str;
  target : str;
  weight : nat
}.

Module TopicCluster.
Record t : Type := {
  id : str;
  label : str;
  size : nat;
  papers : list PaperRecord;
  connections : list str;
  coverage : Q
}.
End TopicCluster.

(** A JavaScript number that may come out of a division by zero. *)
Inductive jsnum : Type :=
| Fin (q : Q)
| Infinite (negative : bool)
| NaN.

Definition js_div (a b : jsnum) : jsnum :=
  match a, b with
  | Fin x, Fin y =>
      if Qeq_bool y 0%Q then
        (if Qeq_bool x 0%Q then NaN else Infinite (negb (Qle_bool 0%Q x)))
      else Fin (x / y)%Q
  | Fin _, Infinite _ => Fin 0%Q
  | Infinite n, Fin y => Infinite (xorb n (negb (Qle_bool 0%Q y)))
  | _, _ => NaN
  end.

Definition js_mul (a b : jsnum) : jsnum :=
  match a, b with
  | Fin x, Fin y => Fin (x * y)%Q
  | Infinite n, Fin y | Fin y, Infinite n =>
      if Qeq_bool y 0%Q then NaN else Infinite (xorb n (negb (Qle_bool 0%Q y)))
  | Infinite n, Infinite m => Infinite (xorb n m)
  | _, _ => NaN
  end.

Definition js_of_nat (n : nat) : jsnum := Fin (inject_Z (Z.of_nat n)).

Record QualityIndicators : Type := {
  totalPapers : nat;
  doiCoverage : jsnum;
  urlCoverage : jsnum;
  abstractCoverage : jsnum;
  recentPapers : jsnum
}.

(** Truthiness of a string and of an optional string. *)
Definition truthy (s : str) : bool := negb (str_eqb s []).

Definition truthy_opt (s : option str) : bool :=
  match s with Some x => truthy x | None => false end.

(** [a || b] on strings. *)
Definition or_else (a b : str) : str := if truthy a then a else b.

(* ================================================================== *)
(** ** The parts of the record parser that both copies share *)
(* ================================================================== *)

Module CsvCommon.

(** [field.replace(/^"|"$/g, '').trim()] *)
Definition strip_leading_quote (s : str) : str :=
  match s with
  | c :: r => if ch_eqb c dquote then r else s
  | [] => []
  end.

Definition strip_trailing_quote (s : str) : str :=
  rev (strip_leading_quote (rev s)).

Definition cleanField (field : str) : str :=
  trim (strip_trailing_quote (strip_leading_quote field)).

(** The match of [/\b(19|20)\d{2}\b/] at the front of [s], when the
    character before [s] is a word character or not. *)
Definition year_at (prev_is_word : bool) (s : str) : option str :=
  match s with
  | a :: b :: c :: d :: rest =>
      if negb prev_is_word
         && ((ch_eqb a (chr 49) && ch_eqb b (chr 57))
             || (ch_eqb a (chr 50) && ch_eqb b (chr 48)))
         && is_digit c && is_digit d
         && match rest with [] => true | e :: _ => negb (is_word e) end
      then Some [a; b; c; d] else None
  | _ => None
  end.

(** [yearStr.match(/\b(19|20)\d{2}\b/)]: the leftmost match. *)
Fixpoint year_match (prev_is_word : bool) (s : str) : option str :=
  match year_at prev_is_word s with
  | Some m => Some m
  | None =>
      match s with
      | [] => None
      | c :: r => year_match (is_word c) r
      end
  end.

Definition parseYear (yearStr : str) : option Z :=
  if negb (truthy yearStr) then None
  else match year_match false yearStr with
       | Some m =>
           let year := parseInt_digits m in
           if ((1990 <=? year) && (year <=? 2025))%Z then Some year else None
       | None => None
       end.

(** [name.replace(/^(Dr\.|Prof\.|Mr\.|Ms\.|Mrs\.)\s*/i, '')] *)
Definition honorifics : list str :=
  [L "Dr."; L "Prof."; L "Mr."; L "Ms."; L "Mrs."].

Fixpoint strip_first_prefix (ps : list str) (s : str) : option str :=
  match ps with
  | [] => None
  | p :: r =>
      if startsWith_ci s p then Some (skipn (length p) s)
      else strip_first_prefix r s
  end.

Definition strip_honorific (s : str) : str :=
  match strip_first_prefix honorifics s with
  | Some r => dropWhile is_space r
  | None => s
  end.

(** [/\s*(Jr\.|Sr\.|III|IV)\.?$/i] matches at the front of [t] when [t] is
    white space, one of the four suffixes, an optional dot and nothing
    else. *)
Definition generational : list str :=
  [L "jr."; L "jr.."; L "sr."; L "sr.."; L "iii"; L "iii."; L "iv"; L "iv."].

Definition str_eqb_ci (a b : str) : bool :=
  (length a =? length b) && startsWith_ci a b.

Definition suffix_match (t : str) : bool :=
  existsb (str_eqb_ci (dropWhile is_space t)) generational.

(** [name.replace(/\s*(Jr\.|Sr\.|III|IV)\.?$/i, '')]: the leftmost position
    from which the pattern matches up to the end is cut off. *)
Fixpoint strip_generational (s : str) : str :=
  if suffix_match s then []
  else match s with
       | [] => []
       | c :: r => c :: strip_generational r
       end.

Definition cleanAuthorName (name : str) : str :=
  trim (strip_generational (strip_honorific name)).

(** [/[;,&]|and\s+/] *)
Definition re_author_sep (s : str) : option nat :=
  match s with
  | c :: _ =>
      if ch_eqb c (chr 59) || ch_eqb c comma || ch_eqb c (chr 38) then Some 1
      else if startsWith s (L "and") then
        match ws_run_len (skipn 3 s) with
        | O => None
        | n => Some (3 + n)
        end
      else None
  | [] => None
  end.

Definition parseAuthors (authorsStr : str) : list str :=
  if negb (truthy authorsStr) then []
  else map cleanAuthorName
         (filter (fun a => 0 <? length a)
            (map trim (regex_split re_author_sep authorsStr))).

(** [/[;,]/] *)
Definition re_tag_sep (s : str) : option nat :=
  match s with
  | c :: _ => if ch_eqb c (chr 59) || ch_eqb c comma then Some 1 else None
  | [] => None
  end.

Definition parseTags (tagsStr : str) : list str :=
  if negb (truthy tagsStr) then []
  else filter (fun t => 0 <? length t)
         (map trim (regex_split re_tag_sep tagsStr)).

(** [generateKey(title, firstAuthor)]; [firstAuthor] is [undefined] when the
    record has no author. *)
Definition generateKey (title : str) (firstAuthor : option str) : str :=
  let titleWords := firstn 3 (regex_split re_ws (toLowerCase title)) in
  let authorLastName :=
    match firstAuthor with
    | Some a => if truthy a then last (split_on space a) [] else []
    | None => []
    end in
  toLowerCase authorLastName ++ L "_" ++ join (L "_") titleWords.

(** The table [fieldMappings] of [getField]. *)
Definition fieldMappings : list (str * list str) :=
  [ (L "title", [L "Title"]);
    (L "author", [L "Author"]);
    (L "year", [L "Publication Year"]);
    (L "abstract", [L "Abstract Note"]);
    (L "doi", [L "DOI"]);
    (L "url", [L "Url"]);
    (L "type", [L "Item Type"]);
    (L "venue", [L "Publication Title"]);
    (L "key", [L "Key"]);
    (L "tags", [L "Manual Tags"; L "Automatic Tags"]) ].

Fixpoint assoc (A : Type) (k : str) (m : list (str * A)) : option A :=
  match m with
  | [] => None
  | (k', v) :: r => if str_eqb k k' then Some v else assoc k r
  end.

Definition possibleFields (fieldName : str) : list str :=
  match assoc (toLowerCase fieldName) fieldMappings with
  | Some l => l
  | None => [fieldName]
  end.

(** [headers.findIndex(pred)]; [None] stands for [-1]. *)
Fixpoint findIndex (A : Type) (pred : A -> bool) (l : list A) : option nat :=
  match l with
  | [] => None
  | x :: r =>
      if pred x then Some 0
      else match findIndex pred r with Some i => Some (S i) | None => None end
  end.

Definition calculateQualityMetrics (currentYear : Z) (papers : list PaperRecord)
  : QualityIndicators :=
  let totalPapers := length papers in
  let nonblank (s : option str) :=
    match s with
    | Some x => truthy x && (0 <? length (trim x))
    | None => false
    end in
  let doiCount := length (filter (fun p => nonblank (doi p)) papers) in
  let urlCount := length (filter (fun p => nonblank (url p)) papers) in
  let abstractCount :=
    length (filter (fun p => nonblank (Some (abstract p))) papers) in
  let recentCount :=
    length (filter (fun p =>
      match publicationYear p with
      | Some y => negb (y =? 0)%Z && (currentYear - 5 <=? y)%Z
      | None => false
      end) papers) in
  let pct (n : nat) :=
    js_mul (js_div (js_of_nat n) (js_of_nat totalPapers)) (js_of_nat 100) in
  {| totalPapers := totalPapers;
     doiCoverage := pct doiCount;
     urlCoverage := pct urlCount;
     abstractCoverage := pct abstractCount;
     recentPapers := pct recentCount |}.

End CsvCommon.

(* ================================================================== *)
(** ** [src/data/csvParser.ts] *)
(* ================================================================== *)

Module CsvParser.
Import CsvCommon.

(** The loop of [parseCSVLine]: one character at a time. *)
Fixpoint parseCSVLine_loop (line : str) (fields : list str) (current : str)
    (inQuotes : bool) : list str :=
  match line with
  | [] => fields ++ [trim current]
  | char :: rest =>
      if ch_eqb char dquote then
        parseCSVLine_loop rest fields current (negb inQuotes)
      else if ch_eqb char comma && negb inQuotes then
        parseCSVLine_loop rest (fields ++ [trim current]) [] inQuotes
      else
        parseCSVLine_loop rest fields (current ++ [char]) inQuotes
  end.

Definition parseCSVLine (line : str) : list str :=
  parseCSVLine_loop line [] [] false.

(** [getField] of [createPaperRecord]. *)
Definition header_matches (possibleField h : str) : bool :=
  str_eqb (toLowerCase h) (toLowerCase possibleField)
  || includes (toLowerCase h) (toLowerCase possibleField).

Fixpoint getField_loop (headers fields : list str) (possible : list str) : str :=
  match possible with
  | [] => []
  | possibleField :: rest =>
      match findIndex (header_matches possibleField) headers with
      | Some index =>
          match nth_error fields index with
          | Some f =>
              if truthy f && truthy (trim f) then cleanField f
              else getField_loop headers fields rest
          | None => getField_loop headers fields rest
          end
      | None => getField_loop headers fields rest
      end
  end.

Definition getField (headers fields : list str) (fieldName : string) : str :=
  getField_loop headers fields (possibleFields (L fieldName)).

(** [createPaperRecord]; [None] is [null].  Nothing in the body can throw,
    so the [catch] branch is never taken. *)
Definition createPaperRecord (headers fields : list str) : option PaperRecord :=
  let get := getField headers fields in
  let title := get "title" in
  if negb (truthy title) then None
  else
    let yearStr := or_else (get "year") (get "date") in
    let publicationYear := parseYear yearStr in
    let authorsStr := or_else (get "author") (get "authors") in
    let authors := parseAuthors authorsStr in
    let manualTags := get "Manual Tags" in
    let autoTags := get "Automatic Tags" in
    let combinedTagsStr :=
      join (L "; ") (filter truthy [manualTags; autoTags]) in
    let tags := parseTags combinedTagsStr in
    Some {|
      key := or_else (get "key") (generateKey title (nth_error authors 0));
      itemType := or_else (get "type") (or_else (get "itemtype") (L "article"));
      publicationYear := publicationYear;
      authors := authors;
      title := title;
      publicationTitle :=
        or_else (get "publication")
          (or_else (get "journal") (or_else (get "booktitle") []));
      doi := Some (get "doi");
      url := Some (get "url");
      abstract := or_else (get "abstract") [];
      tags := tags;
      venue :=
        or_else (get "venue")
          (or_else (get "publication") (or_else (get "journal") []))
    |}.

Definition parseHeaders (line0 : str) : list str :=
  map (fun h => remove_all (ch_eqb dquote) (trim h)) (split_on comma line0).

(** The body of the [for] loop of [parseCSV] on one line: the record it
    pushes, when it pushes one. *)
Definition parseRow (headers : list str) (raw : str) : option PaperRecord :=
  let line := trim raw in
  if negb (truthy line) then None
  else
    let fields := parseCSVLine line in
    if length fields <? length headers then None
    else createPaperRecord headers fields.

Fixpoint parseRows (headers : list str) (rows : list str) (papers : list PaperRecord)
  : list PaperRecord :=
  match rows with
  | [] => papers
  | raw :: rest =>
      match parseRow headers raw with
      | Some paper => parseRows headers rest (papers ++ [paper])
      | None => parseRows headers rest papers
      end
  end.

Definition parseCSV (csvContent : str) : list PaperRecord :=
  let lines := split_on newline csvContent in
  let headers := parseHeaders (hd [] lines) in
  parseRows headers (tl lines) [].

End CsvParser.

(* ================================================================== *)
(** ** The copy of [csvParser.ts] in [unnamed/part_004] *)
(* ================================================================== *)

Module CsvParser004.
Import CsvCommon.

(** The [while] loop of [parseCSVLine], with its look-ahead for a doubled
    quote. *)
Fixpoint parseCSVLine_loop (line : str) (fields : list str) (current : str)
    (inQuotes : bool) : list str :=
  match line with
  | [] => fields ++ [trim current]
  | char :: rest =>
      if ch_eqb char dquote then
        match rest with
        | next :: rest' =>
            if ch_eqb next dquote then
              parseCSVLine_loop rest' fields (current ++ [dquote]) inQuotes
            else parseCSVLine_loop rest fields current (negb inQuotes)
        | [] => parseCSVLine_loop rest fields current (negb inQuotes)
        end
      else if ch_eqb char comma && negb inQuotes then
        parseCSVLine_loop rest (fields ++ [trim current]) [] inQuotes
      else
        parseCSVLine_loop rest fields (current ++ [char]) inQuotes
  end.

Definition parseCSVLine (line : str) : list str :=
  parseCSVLine_loop line [] [] false.

Definition header_matches (possibleField h : str) : bool :=
  truthy h
  && (str_eqb (toLowerCase h) (toLowerCase possibleField)
      || includes (toLowerCase h) (toLowerCase possibleField)).

Fixpoint getField_loop (headers fields : list str) (possible : list str) : str :=
  match possible with
  | [] => []
  | possibleField :: rest =>
      match findIndex (header_matches possibleField) headers with
      | Some index =>
          match nth_error fields index with
          | Some f =>
              if (index <? length fields) && truthy f && truthy (trim f)
              then cleanField f
              else getField_loop headers fields rest
          | None => getField_loop headers fields rest
          end
      | None => getField_loop headers fields rest
      end
  end.

Definition getField (headers fields : list str) (fieldName : string) : str :=
  getField_loop headers fields (possibleFields (L fieldName)).

(** [createPaperRecord]; the [catch] branch is never taken here either. *)
Definition createPaperRecord (headers fields : list str) : option PaperRecord :=
  let get := getField headers fields in
  let title := get "title" in
  if negb (truthy title) || (length title <? 5) then None
  else
    let yearStr := or_else (get "year") (get "date") in
    let publicationYear := parseYear yearStr in
    let authorsStr := or_else (get "author") (get "authors") in
    let authors := parseAuthors authorsStr in
    let manualTags := get "Manual Tags" in
    let autoTags := get "Automatic Tags" in
    let combinedTagsStr :=
      join (L "; ") (filter truthy [manualTags; autoTags]) in
    let tags := parseTags combinedTagsStr in
    let firstAuthor :=
      match nth_error authors 0 with
      | Some a => or_else a (L "unknown")
      | None => L "unknown"
      end in
    Some {|
      key := or_else (get "key") (generateKey title (Some firstAuthor));
      itemType := or_else (get "type") (or_else (get "itemtype") (L "article"));
      publicationYear := publicationYear;
      authors := if 0 <? length authors then authors else [L "Unknown Author"];
      title := title;
      publicationTitle :=
        or_else (get "venue") (or_else (get "Publication Title") []);
      doi := Some (get "doi");
      url := Some (get "url");
      abstract := get "abstract";
      tags := tags;
      venue := or_else (get "venue") (or_else (get "Publication Title") [])
    |}.

Definition parseHeaders (line0 : str) : list str :=
  map (fun h => remove_all (ch_eqb dquote) (trim h)) (parseCSVLine line0).

(** One iteration of the [for] loop; [fields.length < headers.length * 0.5]
    is [2 * fields.length < headers.length]. *)
Definition parseRow (headers : list str) (raw : str) : option PaperRecord :=
  let line := trim raw in
  if negb (truthy line) then None
  else
    let fields := parseCSVLine line in
    if 2 * length fields <? length headers then None
    else createPaperRecord headers fields.

Fixpoint parseRows (headers : list str) (rows : list str) (papers : list PaperRecord)
  : list PaperRecord :=
  match rows with
  | [] => papers
  | raw :: rest =>
      match parseRow headers raw with
      | Some paper => parseRows headers rest (papers ++ [paper])
      | None => parseRows headers rest papers
      end
  end.

Definition parseCSV (csvContent : str) : list PaperRecord :=
  let lines := split_on newline csvContent in
  if length lines <? 2 then []
  else
    let headers := parseHeaders (hd [] lines) in
    parseRows headers (tl lines) [].

End CsvParser004.

(** The fixture [sampleCSVData] of [src/tests/dataProcessing.test.ts]; an
    apostrophe stands for the double quote of the source text. *)
Definition unq (s : string) : str :=
  map (fun c => if ch_eqb c (chr 39) then dquote else c) (L s).

Definition sampleCSVData : str :=
  L "Title,Author,Publication Year,Abstract,DOI,URL,Item Type,Venue"
  ++ [newline]
  ++ unq "'Test Paper 1','John Doe; Jane Smith',2023,'This is a test abstract about security and economics','10.1000/test1','http://example.com','article','Test Journal'"
  ++ [newline]
  ++ unq "'Test Paper 2','Alice Johnson',2022,'Another abstract discussing game theory','10.1000/test2','http://example.com','inproceedings','Test Conference'".

(** A data row as the claim describes it: at least as many fields as the
    header has, and a resolved title that is not empty. *)
Definition row_ok (headers : list str) (raw : str) : bool :=
  let fields := CsvParser.parseCSVLine (trim raw) in
  (length headers <=? length fields)
  && truthy (CsvParser.getField headers fields "title").

(** The same for the copy in part_004, where the resolved title needs five
    characters. *)
Definition row_ok004 (headers : list str) (raw : str) : bool :=
  let fields := CsvParser004.parseCSVLine (trim raw) in
  (length headers <=? length fields)
  && (5 <=? length (CsvParser004.getField headers fields "title")).

(** The CSV encoding of one field value: wrapped in double quotes, every
    double quote inside it doubled. *)
Fixpoint csv_escape (f : str) : str :=
  match f with
  | [] => []
  | c :: r => if ch_eqb c dquote then dquote :: dquote :: csv_escape r
              else c :: csv_escape r
  end.

Definition csv_quote (f : str) : str := dquote :: csv_escape f ++ [dquote].

(** A field value with a character other than the double quote. *)
Definition has_plain_char (f : str) : bool :=
  existsb (fun c => negb (ch_eqb c dquote)) f.

(** Word boundaries: after a match, and before one that starts [pre]
    characters into a text whose preceding character is a word character
    or not. *)
Definition boundary_after (post : str) : bool :=
  match post with [] => true | e :: _ => negb (is_word e) end.

Definition boundary_before (pw : bool) (pre : str) : bool :=
  match rev pre with [] => negb pw | e :: _ => negb (is_word e) end.


(* ================================================================== *)
(** ** [src/utils/dataValidation.ts] *)
(* ================================================================== *)

Module DataValidation.

Record ValidationResult : Type := {
  isValid : bool;
  errors : list str;
  warnings : list str
}.

(** [Set.prototype.has] and [Set.prototype.add] on a set of strings kept in
    insertion order. *)
Definition set_has (s : list str) (x : str) : bool := existsb (str_eqb x) s.

Definition set_add (s : list str) (x : str) : list str :=
  if set_has s x then s else s ++ [x].

(** [/^10\.\d{4,}\/\S+$/.test(doi.trim())] *)
Fixpoint takeWhile (f : ascii -> bool) (s : str) : str :=
  match s with
  | [] => []
  | c :: r => if f c then c :: takeWhile f r else []
  end.

Definition isValidDOI (doi : str) : bool :=
  let t := trim doi in
  startsWith t (L "10.")
  && (let r := skipn 3 t in
      let digits := takeWhile is_digit r in
      (4 <=? length digits)
      && match dropWhile is_digit r with
         | c :: rest =>
             ch_eqb c (chr 47) && (0 <? length rest)
             && forallb (fun x => negb (is_space x)) rest
         | [] => false
         end).

(** [/[^a-zA-Z0-9\s\-\.]/] *)
Definition is_special (c : ascii) : bool :=
  negb (is_alpha c || is_digit c || is_space c
        || ch_eqb c (chr 45) || ch_eqb c (chr 46)).

(** [specialCharCount > trimmed.length * 0.3] is read over the rationals. *)
Definition isValidAuthorName (name : str) : bool :=
  let trimmed := trim name in
  if length trimmed <? 2 then false
  else if negb (existsb is_alpha trimmed) then false
  else if (0 <? length trimmed) && forallb is_digit trimmed then false
  else if 3 * length trimmed <? 10 * length (filter is_special trimmed)
       then false
  else true.

Section Validate.
(** [new URL(url)] succeeds: the URL parser of the platform. *)
Variable isValidURL : str -> bool.

(** The warnings of [paper.authors.forEach((author, index) => ...)]. *)
Fixpoint authorWarnings (index : nat) (l : list str) : list str :=
  match l with
  | [] => []
  | author :: r =>
      (if isValidAuthorName author then []
       else [L "Author name at index " ++ nat_to_str index
             ++ L " may be malformed: " ++ [dquote] ++ author ++ [dquote]])
      ++ authorWarnings (S index) r
  end.

Definition validatePaperRecord (paper : PaperRecord) : ValidationResult :=
  let errors :=
    if negb (truthy (title paper)) || (length (trim (title paper)) =? 0)
    then [L "Title is required"] else [] in
  let warnings :=
    (if length (authors paper) =? 0 then [L "No authors specified"] else [])
    ++ match publicationYear paper with
       | Some y =>
           if ((y <? 1990) || (2025 <? y))%Z
           then [L "Publication year " ++ Z_to_str y
                 ++ L " is outside expected range (1990-2025)"]
           else []
       | None => [L "Publication year is missing"]
       end
    ++ (match doi paper with
        | Some d => if truthy d && negb (isValidDOI d)
                    then [L "DOI format appears invalid"] else []
        | None => []
        end)
    ++ (match url paper with
        | Some u => if truthy u && negb (isValidURL u)
                    then [L "URL format appears invalid"] else []
        | None => []
        end)
    ++ authorWarnings 0 (authors paper) in
  {| isValid := length errors =? 0; errors := errors; warnings := warnings |}.

Arguments validatePaperRecord : simpl never.

Record OverallStats : Type := {
  stats_totalPapers : nat;
  stats_validPapers : nat;
  papersWithWarnings : nat;
  duplicateKeys : list str
}.

Record DatasetValidation : Type := {
  validPapers : list PaperRecord;
  invalidPapers : list (PaperRecord * ValidationResult);
  overallStats : OverallStats
}.

(** The variables that the [forEach] of [validatePaperDataset] updates. *)
Record DatasetState : Type := {
  st_validPapers : list PaperRecord;
  st_invalidPapers : list (PaperRecord * ValidationResult);
  st_keysSeen : list str;
  st_duplicateKeys : list str;
  st_papersWithWarnings : nat
}.

Definition dataset_step (st : DatasetState) (paper : PaperRecord) : DatasetState :=
  let duplicateKeys' :=
    if set_has (st_keysSeen st) (key paper)
    then st_duplicateKeys st ++ [key paper] else st_duplicateKeys st in
  let keysSeen' := set_add (st_keysSeen st) (key paper) in
  let validation := validatePaperRecord paper in
  if isValid validation then
    {| st_validPapers := st_validPapers st ++ [paper];
       st_invalidPapers := st_invalidPapers st;
       st_keysSeen := keysSeen';
       st_duplicateKeys := duplicateKeys';
       st_papersWithWarnings :=
         if 0 <? length (warnings validation)
         then S (st_papersWithWarnings st) else st_papersWithWarnings st |}
  else
    {| st_validPapers := st_validPapers st;
       st_invalidPapers := st_invalidPapers st ++ [(paper, validation)];
       st_keysSeen := keysSeen';
       st_duplicateKeys := duplicateKeys';
       st_papersWithWarnings := st_papersWithWarnings st |}.

Definition dataset_init : DatasetState :=
  {| st_validPapers := []; st_invalidPapers := []; st_keysSeen := [];
     st_duplicateKeys := []; st_papersWithWarnings := 0 |}.

Definition validatePaperDataset (papers : list PaperRecord) : DatasetValidation :=
  let st := fold_left dataset_step papers dataset_init in
  {| validPapers := st_validPapers st;
     invalidPapers := st_invalidPapers st;
     overallStats :=
       {| stats_totalPapers := length papers;
          stats_validPapers := length (st_validPapers st);
          papersWithWarnings := st_papersWithWarnings st;
          duplicateKeys := st_duplicateKeys st |} |}.

End Validate.

(** [normalizeTitleForComparison] *)
Definition normalizeTitleForComparison (title : str) : str :=
  trim
    (replace_ws_runs (L " ") false
       (remove_all (fun c => negb (is_word c || is_space c))
          (toLowerCase title))).

(** The two variables that the [forEach] of [removeDuplicatePapers] updates:
    [uniquePapers] and [seenTitles]. *)
Definition dedup_step (st : list PaperRecord * list str) (paper : PaperRecord)
  : list PaperRecord * list str :=
  let normalizedTitle := normalizeTitleForComparison (title paper) in
  if negb (set_has (snd st) normalizedTitle)
  then (fst st ++ [paper], set_add (snd st) normalizedTitle)
  else st.

Definition removeDuplicatePapers (papers : list PaperRecord) : list PaperRecord :=
  fst (fold_left dedup_step papers ([], [])).

(** The normalized title of a paper. *)
Definition norm (p : PaperRecord) : str := normalizeTitleForComparison (title p).

(** The verdict of [validatePaperRecord] on a paper. *)
Definition valid (isValidURL : str -> bool) (p : PaperRecord) : bool :=
  isValid (validatePaperRecord isValidURL p).

End DataValidation.

(** [l1] is a subsequence of [l2]: some elements dropped, order kept. *)
Inductive Subseq (A : Type) : list A -> list A -> Prop :=
| Subseq_nil : Subseq [] []
| Subseq_skip x l1 l2 : Subseq l1 l2 -> Subseq l1 (x :: l2)
| Subseq_keep x l1 l2 : Subseq l1 l2 -> Subseq (x :: l1) (x :: l2).

(* ================================================================== *)
(** ** [src/utils/textAnalysis.ts] *)
(* ================================================================== *)

Module TextAnalysis.

(** The table [TOPIC_KEYWORDS], in the order [Object.entries] lists it. *)
Definition TOPIC_KEYWORDS : list (str * list str) :=
  [ (L "security",
     map L ["security"; "cybersecurity"; "cyber"; "attack"; "defense";
            "threat"; "vulnerability"; "malware"; "intrusion"; "breach";
            "protection"; "secure"; "encryption"; "authentication";
            "authorization"; "firewall"; "ids"; "ips"; "forensics";
            "incident"]);
    (L "economics",
     map L ["economic"; "economics"; "cost"; "benefit"; "investment"; "roi";
            "market"; "price"; "pricing"; "incentive"; "utility"; "profit";
            "loss"; "budget"; "financial"; "monetary"; "value"; "worth";
            "expense"; "revenue"; "insurance"]);
    (L "risk",
     map L ["risk"; "risks"; "risky"; "uncertainty"; "probability";
            "likelihood"; "assessment"; "management"; "mitigation";
            "analysis"; "evaluation"; "measurement"; "quantification";
            "modeling"; "prediction"; "forecast"; "scenario"; "impact";
            "consequence"]);
    (L "aiml",
     map L ["artificial"; "intelligence"; "machine"; "learning"; "neural";
            "network"; "deep"; "algorithm"; "model"; "training";
            "classification"; "prediction"; "ai"; "ml"; "data"; "mining";
            "pattern"; "recognition"; "automation"; "cognitive"]);
    (L "gameTheory",
     map L ["game"; "theory"; "strategic"; "player"; "strategy";
            "equilibrium"; "nash"; "payoff"; "cooperation"; "competition";
            "coalition"; "bargaining"; "auction"; "mechanism"; "design";
            "optimal"; "decision"; "rational"; "behavior"]);
    (L "network",
     map L ["network"; "networks"; "networking"; "topology"; "node"; "edge";
            "graph"; "connectivity"; "routing"; "protocol"; "communication";
            "distributed"; "peer"; "client"; "server"; "infrastructure";
            "internet"; "web"]);
    (L "privacy",
     map L ["privacy"; "private"; "confidential"; "anonymous"; "anonymity";
            "personal"; "data"; "information"; "disclosure"; "sharing";
            "protection"; "gdpr"; "compliance"; "consent"; "tracking";
            "surveillance"; "identity"]) ].

Definition head_is_word (s : str) : bool :=
  match s with [] => false | c :: _ => is_word c end.

(** [/\bkeyword\b/i] matches at the front of [s]; [prev_w] tells whether the
    character before [s] is a word character.  The keywords of the table
    are plain letters, so the pattern is the keyword itself. *)
Definition word_match_at (keyword : str) (prev_w : bool) (s : str) : bool :=
  xorb prev_w (head_is_word s)
  && startsWith_ci s keyword
  && xorb (head_is_word (rev (firstn (length keyword) s)))
          (head_is_word (skipn (length keyword) s)).

(** [(fullText.match(new RegExp(`\\b${keyword}\\b`, 'gi')) || []).length]:
    the matches are searched left to right, each search starting where the
    last match ended. *)
Fixpoint count_matches (keyword : str) (s : str) (prev_w : bool) (skip : nat)
  : nat :=
  match s with
  | [] => 0
  | c :: r =>
      match skip with
      | S k => count_matches keyword r (is_word c) k
      | O =>
          if word_match_at keyword prev_w s
          then S (count_matches keyword r (is_word c) (length keyword - 1))
          else count_matches keyword r (is_word c) 0
      end
  end.

Definition fullTextOf (paper : PaperRecord) : str :=
  toLowerCase
    (title paper ++ L " " ++ abstract paper ++ L " " ++ join (L " ") (tags paper)).

(** The raw score of a topic: the matches of all its keywords. *)
Definition rawScore (keywords : list str) (fullText : str) : nat :=
  fold_left (fun score keyword => score + count_matches keyword fullText false 0)
    keywords 0.

Definition Qof_nat (n : nat) : Q := inject_Z (Z.of_nat n).

(** [Math.max] on two rationals. *)
Definition Qmax2 (a b : Q) : Q := if Qle_bool a b then b else a.

(** [classifyPaperTopics]: the object it returns, as the list of its
    entries. *)
Definition classifyPaperTopics (paper : PaperRecord) : list (str * Q) :=
  let fullText := fullTextOf paper in
  map (fun entry : str * list str =>
         let (topic, keywords) := entry in
         (topic,
          (Qof_nat (rawScore keywords fullText)
           / Qmax2 (Qof_nat (length fullText) / 100) 1)%Q))
      TOPIC_KEYWORDS.

End TextAnalysis.

(** A paper whose text has 10 characters. *)
Definition shortPaper : PaperRecord :=
  {| key := L "k"; itemType := L "article"; publicationYear := None;
     authors := []; title := L "security"; publicationTitle := [];
     doi := None; url := None; abstract := []; tags := []; venue := [] |}.


(* ================================================================== *)
(** ** IEEE 754 binary64, the [number] of JavaScript *)
(* ================================================================== *)

Module Double.
Import SpecFloat.

Definition prec : Z := 53%Z.
Definition emax : Z := 1024%Z.

Definition double : Type := spec_float.

(** An integer as a number (exact up to 2^53). *)
Definition ofZ (z : Z) : double := binary_normalize prec emax z 0 false.

Definition ofNat (n : nat) : double := ofZ (Z.of_nat n).

(** [a + b], [a - b], [a * b] and [a / b]: the exact results rounded to
    the nearest double, ties to even. *)
Definition add (a b : double) : double := SFadd prec emax a b.
Definition sub (a b : double) : double := SFsub prec emax a b.
Definition mul (a b : double) : double := SFmul prec emax a b.
Definition div (a b : double) : double := SFdiv prec emax a b.

(** The double nearest to a rational whose numerator and denominator are
    below 2^53: a decimal literal of the source such as [0.3], or a number
    that a record of the model keeps as its value. *)
Definition ofQ (q : Q) : double := div (ofZ (Qnum q)) (ofZ (Zpos (Qden q))).

(** [a > b]: false when either side is [NaN]. *)
Definition gt (a b : double) : bool := SFltb b a.

(** [Math.max(a, b)] and [Math.min(a, b)]: [NaN] if either is, and [-0]
    below [+0]. *)
Definition max (a b : double) : double :=
  match SFcompare a b with
  | None => S754_nan
  | Some Lt => b
  | Some Gt => a
  | Some Eq => match a with S754_zero true => b | _ => a end
  end.

Definition min (a b : double) : double :=
  match SFcompare a b with
  | None => S754_nan
  | Some Lt => a
  | Some Gt => b
  | Some Eq => match a with S754_zero false => b | _ => a end
  end.

(** [Math.round(x)]: the integer nearest to [x], halves upwards; [x]
    itself when it is an integer, a zero, an infinity or [NaN]; a zero of
    the sign of [x] when the result is zero. *)
Definition round (x : double) : double :=
  match x with
  | S754_finite s m e =>
      if (0 <=? e)%Z then x
      else
        let n := ((cond_Zopp s (2 * Zpos m) + 2 ^ (- e)) / 2 ^ (1 - e))%Z in
        if (n =? 0)%Z then S754_zero s else ofZ n
  | _ => x
  end.

End Double.


(* ================================================================== *)
(** ** [src/utils/researchGapAnalysis.ts]: topical gaps *)
(* ================================================================== *)

Module ResearchGapAnalysis.
Import TextAnalysis.
Import Double(double).

Inductive GapType : Type := topical | temporal | methodological | geographic.

Inductive Severity : Type := high | medium | low.

Record YearRange : Type := {
  startYear : Z;
  endYear : Z;
  yr_expectedPapers : Z;
  yr_actualPapers : Z;
  yr_gapSize : Z
}.

Record TopicIntersection : Type := {
  topics : list str;
  combinedLabel : str;
  expectedPapers : double;
  actualPapers : nat;
  gapSize : double;
  potentialImpact : double
}.

(** The two shapes of [supportingData] that [analyzeTopicalGaps] builds. *)
Inductive SupportingData : Type :=
| IntersectionData (expectedPapers : double) (actualPapers : nat)
    (gapSize : double)
| StagnantData (stagnantTopics emergingTopics : list str).

Record Evidence : Type := {
  underRepresentedTopics : list str;
  citationGaps : list PaperRecord;
  temporalGaps : list YearRange;
  ev_potentialImpact : double;
  supportingData : SupportingData
}.

Record ResearchGap : Type := {
  id : str;
  type : GapType;
  gap_title : str;
  description : str;
  severity : Severity;
  evidence : Evidence;
  recommendations : list str;
  opportunityScore : double
}.

(** [Math.round] on a rational: to the nearest integer, halves upwards. *)
Definition Math_round (x : Q) : Z := Qfloor (x + (1 # 2)).

(** [a > b] and [a < b] on rationals. *)
Definition Qgtb (a b : Q) : bool := negb (Qle_bool a b).
Definition Qltb (a b : Q) : bool := negb (Qle_bool b a).

(** [assessDomainDifference] *)
Definition domains : list (str * list str) :=
  [ (L "technical", map L ["AI/ML"; "Network"; "Privacy"]);
    (L "economic", map L ["Economics"; "Risk Management"]);
    (L "theoretical", map L ["Game Theory"; "Security"]) ].

Definition domainOf (topic : str) : str :=
  fold_left (fun domain entry =>
               if existsb (str_eqb topic) (snd entry) then fst entry else domain)
    domains (L "other").

Definition assessDomainDifference (topic1 topic2 : str) : double :=
  if negb (str_eqb (domainOf topic1) (domainOf topic2))
  then Double.ofQ (3 # 2) else Double.ofZ 1.

(** [topic.coverage].  The cluster keeps the number as its value, a
    rational; this is the double of that value, or the nearest one when
    the rational is not a double. *)
Definition coverageOf (topic : TopicCluster.t) : double :=
  Double.ofQ (TopicCluster.coverage topic).

Definition calculateTopicComplementarity (topic1 topic2 : TopicCluster.t)
  : double :=
  let importanceScore :=
    Double.div (Double.add (coverageOf topic1) (coverageOf topic2))
      (Double.ofZ 200) in
  let domainDifference :=
    assessDomainDifference (TopicCluster.label topic1) (TopicCluster.label topic2) in
  Double.min (Double.ofZ 1) (Double.mul importanceScore domainDifference).

Section Analyzer.
(** The fields of the analyzer that the topical analysis reads, and the
    year of the clock. *)
Variable papers : list PaperRecord.
Variable topicClusters : list TopicCluster.t.
Variable currentYear : Z.

(** The papers of [topic1] that are also in [topic2], by key. *)
Definition sharedPapers (topic1 topic2 : TopicCluster.t) : list PaperRecord :=
  filter (fun p1 =>
            existsb (fun p2 => str_eqb (key p2) (key p1))
              (TopicCluster.papers topic2))
    (TopicCluster.papers topic1).

(** The record that the body of the double loop of [findTopicIntersections]
    builds for the pair [topic1], [topic2]. *)
Definition intersectionOf (topic1 topic2 : TopicCluster.t) : TopicIntersection :=
  let expectedRatio :=
    Double.mul (Double.div (coverageOf topic1) (Double.ofZ 100))
      (Double.div (coverageOf topic2) (Double.ofZ 100)) in
  let expectedPapers :=
    Double.round
      (Double.mul (Double.mul (Double.ofNat (length papers)) expectedRatio)
         (Double.ofQ (3 # 10))) in
  let actualPapers := length (sharedPapers topic1 topic2) in
  let gapSize :=
    Double.max (Double.ofZ 0)
      (Double.sub expectedPapers (Double.ofNat actualPapers)) in
  {| topics := [TopicCluster.label topic1; TopicCluster.label topic2];
     combinedLabel :=
       TopicCluster.label topic1 ++ L " + " ++ TopicCluster.label topic2;
     expectedPapers := expectedPapers;
     actualPapers := actualPapers;
     gapSize := gapSize;
     potentialImpact := calculateTopicComplementarity topic1 topic2 |}.

(** The inner loop, [j] from [i + 1]: the records pushed for [topic1],
    those with [gapSize > 0]. *)
Definition pushIntersections (topic1 : TopicCluster.t)
    (later : list TopicCluster.t) : list TopicIntersection :=
  filter (fun x => Double.gt (gapSize x) (Double.ofZ 0))
    (map (intersectionOf topic1) later).

(** The outer loop, [i] from 0. *)
Fixpoint intersectionsFrom (clusters : list TopicCluster.t)
  : list TopicIntersection :=
  match clusters with
  | [] => []
  | topic1 :: later =>
      pushIntersections topic1 later ++ intersectionsFrom later
  end.

(** [sort((a, b) => b.gapSize - a.gapSize)]: [b] goes before [a] when the
    difference is above zero. *)
Definition findTopicIntersections : list TopicIntersection :=
  stable_sort (fun a b =>
                 Double.gt (Double.sub (gapSize b) (gapSize a)) (Double.ofZ 0))
    (intersectionsFrom topicClusters).

(** [p.publicationYear && p.publicationYear >= currentYear - n] *)
Definition isRecent (n : Z) (p : PaperRecord) : bool :=
  match publicationYear p with
  | Some y => negb (y =? 0)%Z && (currentYear - n <=? y)%Z
  | None => false
  end.

(** [recentPapers.length / topic.papers.length]; [None] is the [NaN] of a
    topic without papers, which fails every comparison. *)
Definition recentRatio (n : Z) (topic : TopicCluster.t) : option Q :=
  match length (TopicCluster.papers topic) with
  | O => None
  | total =>
      Some (Qof_nat (length (filter (isRecent n) (TopicCluster.papers topic)))
            / Qof_nat total)%Q
  end.

Definition identifyEmergingTopics : list str :=
  map TopicCluster.label
    (filter (fun topic =>
               match recentRatio 3 topic with
               | Some r => Qgtb r (4 # 10)
               | None => false
               end) topicClusters).

Definition identifyStagnantTopics : list str :=
  map TopicCluster.label
    (filter (fun topic =>
               match recentRatio 5 topic with
               | Some r =>
                   Qltb r (2 # 10)
                   && (10 <? length (TopicCluster.papers topic))
               | None => false
               end) topicClusters).

(** The gap pushed for the intersection at position [index] of
    [underResearchedIntersections]. *)
Definition topicalGap (index : nat) (intersection : TopicIntersection)
  : ResearchGap :=
  {| id := L "topical_" ++ nat_to_str index;
     type := topical;
     gap_title := L "Under-researched: " ++ combinedLabel intersection;
     description :=
       L "The intersection of " ++ join (L " and ") (topics intersection)
       ++ L " shows significant research potential but limited current coverage.";
     severity :=
       if Double.gt (gapSize intersection) (Double.ofZ 15) then high
       else if Double.gt (gapSize intersection) (Double.ofZ 10) then medium
       else low;
     evidence :=
       {| underRepresentedTopics := topics intersection;
          citationGaps := [];
          temporalGaps := [];
          ev_potentialImpact := potentialImpact intersection;
          supportingData :=
            IntersectionData (expectedPapers intersection)
              (actualPapers intersection) (gapSize intersection) |};
     recommendations :=
       [ L "Investigate " ++ combinedLabel intersection
         ++ L " applications in real-world scenarios";
         L "Develop theoretical frameworks combining "
         ++ join (L " and ") (topics intersection);
         L "Conduct empirical studies bridging these research areas";
         L "Explore policy implications of " ++ combinedLabel intersection ];
     opportunityScore :=
       Double.mul
         (Double.mul (potentialImpact intersection)
            (Double.div (gapSize intersection) (Double.ofZ 20)))
         (Double.ofZ 100) |}.

Definition stagnantGap (stagnantTopics emergingTopics : list str) : ResearchGap :=
  {| id := L "topical_stagnant";
     type := topical;
     gap_title := L "Stagnant Research Areas";
     description :=
       L "Several research areas show declining activity and may need revitalization or new approaches.";
     severity := medium;
     evidence :=
       {| underRepresentedTopics := stagnantTopics;
          citationGaps := [];
          temporalGaps := [];
          ev_potentialImpact := Double.ofQ (6 # 10);
          supportingData := StagnantData stagnantTopics emergingTopics |};
     recommendations :=
       [ L "Re-examine fundamental assumptions in stagnant areas";
         L "Apply new methodologies to traditional problems";
         L "Explore connections with emerging technologies";
         L "Consider interdisciplinary approaches" ];
     opportunityScore := Double.ofZ 60 |}.

(** [array.forEach((x, index) => gaps.push(f(index, x)))] *)
Fixpoint mapi_from (A B : Type) (f : nat -> A -> B) (index : nat) (l : list A)
  : list B :=
  match l with
  | [] => []
  | x :: r => f index x :: mapi_from f (S index) r
  end.

Definition underResearched (x : TopicIntersection) : bool :=
  Double.gt (gapSize x) (Double.ofZ 5)
  && Double.gt (potentialImpact x) (Double.ofQ (7 # 10)).

Definition analyzeTopicalGaps : list ResearchGap :=
  let underResearchedIntersections :=
    filter underResearched findTopicIntersections in
  let gaps := mapi_from topicalGap 0 underResearchedIntersections in
  let emergingTopics := identifyEmergingTopics in
  let stagnantTopics := identifyStagnantTopics in
  if 0 <? length stagnantTopics
  then gaps ++ [stagnantGap stagnantTopics emergingTopics]
  else gaps.

End Analyzer.

End ResearchGapAnalysis.

(** A corpus of 200 papers of 2024, numbered from 0, and two clusters: the
    72 papers from 0 with coverage 36, and the 125 papers from [start] with
    coverage 62.5. *)
Definition numbered (n : nat) : PaperRecord :=
  {| key := L "p" ++ nat_to_str n; itemType := L "article";
     publicationYear := Some 2024%Z; authors := []; title := L "security";
     publicationTitle := []; doi := None; url := None; abstract := [];
     tags := []; venue := [] |}.

Definition gapCorpus : list PaperRecord := map numbered (seq 0 200).

Definition gapClusters (start : nat) : list TopicCluster.t :=
  [ {| TopicCluster.id := L "security"; TopicCluster.label := L "Security";
       TopicCluster.size := 72; TopicCluster.papers := map numbered (seq 0 72);
       TopicCluster.connections := []; TopicCluster.coverage := 36%Q |};
    {| TopicCluster.id := L "economics"; TopicCluster.label := L "Economics";
       TopicCluster.size := 125;
       TopicCluster.papers := map numbered (seq start 125);
       TopicCluster.connections := []; TopicCluster.coverage := (125 # 2)%Q |} ].

(** The gap size of a pair read over the rationals:
    [max(0, round(corpusSize x coverageA/100 x coverageB/100 x 0.3) - shared)]. *)
Definition gapSizeOverRationals (corpusSize : nat) (coverageA coverageB : Q)
    (shared : nat) : Z :=
  Z.max 0
    (ResearchGapAnalysis.Math_round
       (TextAnalysis.Qof_nat corpusSize * (coverageA / 100) * (coverageB / 100)
        * (3 # 10))%Q
     - Z.of_nat shared).


(* ================================================================== *)
(** ** [src/utils/authorAnalysis.ts] *)
(* ================================================================== *)

Module AuthorAnalysis.
Import DataValidation.

(** [Map.prototype.get] and [Map.prototype.set] on a map with string keys,
    kept as the list of its entries in insertion order; [set] on a key that
    is present replaces the value where the entry stands. *)
Fixpoint map_get (V : Type) (m : list (str * V)) (k : str) : option V :=
  match m with
  | [] => None
  | (k', v) :: r => if str_eqb k k' then Some v else map_get r k
  end.

Fixpoint map_set (V : Type) (m : list (str * V)) (k : str) (v : V)
  : list (str * V) :=
  match m with
  | [] => [(k, v)]
  | (k', v') :: r =>
      if str_eqb k k' then (k', v) :: r else (k', v') :: map_set r k v
  end.

(** The keys of a map, in insertion order. *)
Definition keys (V : Type) (m : list (str * V)) : list str := map fst m.

Definition map_has (V : Type) (m : list (str * V)) (k : str) : bool :=
  match map_get m k with Some _ => true | None => false end.

(** [m.set(k, (m.get(k) || 0) + n)] *)
Definition map_add (m : list (str * nat)) (k : str) (n : nat) : list (str * nat) :=
  map_set m k (match map_get m k with Some c => c | None => 0 end + n).

Record AuthorProfile : Type := {
  id : str;
  name : str;
  cleanName : str;
  paperCount : nat;
  papers : list PaperRecord;
  collaborators : list str;
  primaryTopics : list str;
  firstPublication : option Z;
  lastPublication : option Z;
  yearSpan : Z;
  averagePapersPerYear : Q
}.

Record AuthorCommunity : Type := {
  c_id : str;
  c_name : str;
  members : list str;
  centralAuthors : list str;
  c_primaryTopics : list str;
  c_paperCount : nat;
  collaborationStrength : Q
}.

(** [cleanAuthorName] of this file: trimmed first, white space collapsed and
    lower-cased last. *)
Definition cleanAuthorName (name : str) : str :=
  toLowerCase
    (replace_ws_runs (L " ") false
       (CsvCommon.strip_generational (CsvCommon.strip_honorific (trim name)))).

(** The body of the [for] loop of [areAuthorNamesSimilar] on one pair of
    name parts. *)
Definition partsMatch (part1 part2 : str) : bool :=
  if str_eqb part1 part2 then true
  else if (length part1 =? 1) && startsWith part2 part1 then true
  else if (length part2 =? 1) && startsWith part1 part2 then true
  else false.

Fixpoint countMatches (parts1 parts2 : list str) : nat :=
  match parts1, parts2 with
  | part1 :: r1, part2 :: r2 =>
      (if partsMatch part1 part2 then 1 else 0) + countMatches r1 r2
  | _, _ => 0
  end.

Definition areAuthorNamesSimilar (name1 name2 : str) : bool :=
  if str_eqb name1 name2 then true
  else
    let parts1 := split_on space name1 in
    let parts2 := split_on space name2 in
    if length parts1 =? length parts2 then
      countMatches parts1 parts2 =? length parts1
    else if (length parts1 =? 2) && (length parts2 =? 2) then
      str_eqb (nth 0 parts1 []) (nth 1 parts2 [])
      && str_eqb (nth 1 parts1 []) (nth 0 parts2 [])
    else false.

(** The variables that the outer [forEach] of [detectDuplicateAuthors]
    updates: [duplicates] and [processed]. *)
Definition duplicates_inner (author cleanName : str)
    (st : list str * list str) (otherAuthor : str) : list str * list str :=
  let (similar, processed) := st in
  if str_eqb author otherAuthor || set_has processed otherAuthor then st
  else if areAuthorNamesSimilar cleanName (cleanAuthorName otherAuthor)
       then (similar ++ [otherAuthor], set_add processed otherAuthor)
       else st.

Definition duplicates_outer (authors : list str)
    (st : list (str * list str) * list str) (author : str)
  : list (str * list str) * list str :=
  let (duplicates, processed) := st in
  if set_has processed author then st
  else
    let cleanName := cleanAuthorName author in
    let (similar, processed') :=
      fold_left (duplicates_inner author cleanName) authors ([author], processed) in
    let duplicates' :=
      if 1 <? length similar then map_set duplicates cleanName similar
      else duplicates in
    (duplicates', set_add processed' author).

Definition detectDuplicateAuthors (authors : list str) : list (str * list str) :=
  fst (fold_left (duplicates_outer authors) authors ([], [])).

(** [variants.reduce((longest, current) => ...)]; [variants] is never
    empty. *)
Definition longestVariant (variants : list str) : str :=
  match variants with
  | [] => []
  | v :: r =>
      fold_left (fun longest current =>
                   if length longest <? length current then current else longest)
        r v
  end.

Definition authorTopicTable : list (str * list str) :=
  [ (L "Security", map L ["security"; "cyber"; "attack"; "defense"]);
    (L "Economics", map L ["economic"; "cost"; "market"; "incentive"]);
    (L "Game Theory", map L ["game"; "strategy"; "equilibrium"; "player"]);
    (L "Risk", map L ["risk"; "uncertainty"; "probability"]);
    (L "AI/ML", map L ["ai"; "machine"; "learning"; "neural"]);
    (L "Network", map L ["network"; "distributed"; "protocol"]);
    (L "Privacy", map L ["privacy"; "anonymous"; "confidential"]) ].

(** The three most frequent keys of a map of counts. *)
Definition top3 (counts : list (str * nat)) : list str :=
  map fst (firstn 3 (stable_sort (fun a b => snd a <? snd b) counts)).

Definition extractAuthorTopics (papers : list PaperRecord) : list str :=
  let topicCounts :=
    fold_left (fun counts paper =>
      let text := TextAnalysis.fullTextOf paper in
      fold_left (fun counts' topic =>
        let matches := length (filter (includes text) (snd topic)) in
        if 0 <? matches then map_add counts' (fst topic) matches else counts')
        authorTopicTable counts)
      papers [] in
  top3 topicCounts.

(** [years.sort()]: the default order compares the decimal texts. *)
Definition sortYears (years : list Z) : list Z :=
  stable_sort (fun a b => str_ltb (Z_to_str b) (Z_to_str a)) years.

(** The profile that the last [forEach] of [buildAuthorProfiles] leaves;
    the field [influence] needs a logarithm and is not modelled. *)
Definition finishProfile (profile : AuthorProfile) : AuthorProfile :=
  let years :=
    sortYears
      (flat_map (fun p => match publicationYear p with
                          | Some y => [y] | None => [] end)
         (papers profile)) in
  let first := hd_error years in
  let last := hd_error (rev years) in
  let span :=
    match first, last with
    | Some f, Some l => (l - f + 1)%Z
    | _, _ => yearSpan profile
    end in
  {| id := id profile;
     name := name profile;
     cleanName := cleanName profile;
     paperCount := paperCount profile;
     papers := papers profile;
     collaborators := collaborators profile;
     primaryTopics := extractAuthorTopics (papers profile);
     firstPublication := first;
     lastPublication := last;
     yearSpan := span;
     averagePapersPerYear :=
       match first with
       | Some _ =>
           (TextAnalysis.Qof_nat (paperCount profile)
            / inject_Z (Z.max span 1))%Q
       | None => averagePapersPerYear profile
       end |}.

Definition newProfile (canonicalName cleanName : str) : AuthorProfile :=
  {| id := replace_ws_runs (L "_") false cleanName;
     name := canonicalName;
     cleanName := cleanName;
     paperCount := 0;
     papers := [];
     collaborators := [];
     primaryTopics := [];
     firstPublication := None;
     lastPublication := None;
     yearSpan := 0%Z;
     averagePapersPerYear := 0%Q |}.

Definition addPaper (paper : PaperRecord) (profile : AuthorProfile) : AuthorProfile :=
  {| id := id profile;
     name := name profile;
     cleanName := cleanName profile;
     paperCount := S (paperCount profile);
     papers := papers profile ++ [paper];
     collaborators := collaborators profile;
     primaryTopics := primaryTopics profile;
     firstPublication := firstPublication profile;
     lastPublication := lastPublication profile;
     yearSpan := yearSpan profile;
     averagePapersPerYear := averagePapersPerYear profile |}.

(** [authorMapping.get(authorName) || authorName] *)
Definition canonicalNameOf (authorMapping : list (str * str)) (authorName : str)
  : str :=
  match map_get authorMapping authorName with
  | Some c => or_else c authorName
  | None => authorName
  end.

Definition profile_step (authorMapping : list (str * str)) (paper : PaperRecord)
    (authorMap : list (str * AuthorProfile)) (authorName : str)
  : list (str * AuthorProfile) :=
  let canonicalName := canonicalNameOf authorMapping authorName in
  let cleanName := cleanAuthorName canonicalName in
  let authorMap' :=
    if map_has authorMap cleanName then authorMap
    else map_set authorMap cleanName (newProfile canonicalName cleanName) in
  match map_get authorMap' cleanName with
  | Some profile => map_set authorMap' cleanName (addPaper paper profile)
  | None => authorMap'
  end.

Definition buildAuthorMapping (duplicates : list (str * list str))
  : list (str * str) :=
  fold_left (fun mapping entry =>
               let primaryName := longestVariant (snd entry) in
               fold_left (fun m variant => map_set m variant primaryName)
                 (snd entry) mapping)
    duplicates [].

Definition allAuthorsOf (papers : list PaperRecord) : list str :=
  fold_left (fun all paper => fold_left set_add (authors paper) all) papers [].

Definition buildAuthorProfiles (papers : list PaperRecord) : list AuthorProfile :=
  let duplicates := detectDuplicateAuthors (allAuthorsOf papers) in
  let authorMapping := buildAuthorMapping duplicates in
  let authorMap :=
    fold_left (fun m paper =>
                 fold_left (profile_step authorMapping paper) (authors paper) m)
      papers [] in
  stable_sort (fun a b => paperCount a <? paperCount b)
    (map (fun entry => finishProfile (snd entry)) authorMap).

(** [[author1, author2].sort().join('|')] *)
Definition pipe : ascii := chr 124.

Definition edgeKey (author1 author2 : str) : str :=
  if str_ltb author2 author1 then author2 ++ [pipe] ++ author1
  else author1 ++ [pipe] ++ author2.

(** The smaller and the larger of two names: the two halves of the key. *)
Definition lo (a b : str) : str := if str_ltb b a then b else a.
Definition hi (a b : str) : str := if str_ltb b a then a else b.

(** The inner two loops of [buildCollaborationNetwork] on the cleaned
    authors of one paper. *)
Fixpoint pairKeys (authors : list str) : list str :=
  match authors with
  | [] => []
  | author1 :: later => map (edgeKey author1) later ++ pairKeys later
  end.

(** [const [source, target] = edgeKey.split('|')] *)
Definition edgeOfEntry (entry : str * nat) : CollaborationEdge :=
  let parts := split_on pipe (fst entry) in
  {| source := nth 0 parts []; target := nth 1 parts []; weight := snd entry |}.

Definition collaborationCounts (papers : list PaperRecord) : list (str * nat) :=
  fold_left (fun collaborations paper =>
               fold_left (fun m k => map_add m k 1)
                 (pairKeys (map cleanAuthorName (authors paper))) collaborations)
    papers [].

Definition buildCollaborationNetwork (papers : list PaperRecord)
  : list CollaborationEdge :=
  stable_sort (fun a b => weight a <? weight b)
    (filter (fun edge => 0 <? weight edge)
       (map edgeOfEntry (collaborationCounts papers))).

(** [adjacencyList]: a map from names to sets of names. *)
Definition adj_ensure (adj : list (str * list str)) (k : str)
  : list (str * list str) :=
  if map_has adj k then adj else map_set adj k [].

Definition adj_add (adj : list (str * list str)) (k v : str)
  : list (str * list str) :=
  match map_get adj k with
  | Some s => map_set adj k (set_add s v)
  | None => adj
  end.

Definition adjacency_step (adj : list (str * list str)) (edge : CollaborationEdge)
  : list (str * list str) :=
  let adj1 := adj_ensure adj (source edge) in
  let adj2 := adj_ensure adj1 (target edge) in
  let adj3 := adj_add adj2 (source edge) (target edge) in
  adj_add adj3 (target edge) (source edge).

Definition buildAdjacency (collaborations : list CollaborationEdge)
  : list (str * list str) :=
  fold_left adjacency_step collaborations [].

Definition neighborsOf (adj : list (str * list str)) (k : str) : list str :=
  match map_get adj k with Some s => s | None => [] end.

(** The [while] loop of [findConnectedComponent].  Each turn takes one name
    off the queue; [fuel] bounds the number of turns and [None] means that
    the bound was too small. *)
Fixpoint componentLoop (fuel : nat) (adj : list (str * list str))
    (queue processed component : list str) : option (list str * list str) :=
  match queue with
  | [] => Some (component, processed)
  | current :: rest =>
      match fuel with
      | O => None
      | S fuel' =>
          if set_has processed current
          then componentLoop fuel' adj rest processed component
          else
            let processed' := set_add processed current in
            let component' := set_add component current in
            let pushed :=
              filter (fun neighbor => negb (set_has processed' neighbor))
                (neighborsOf adj current) in
            componentLoop fuel' adj (rest ++ pushed) processed' component'
      end
  end.

(** A bound on the turns of the loop: the start name and every entry of
    every neighbour set. *)
Definition componentFuel (adj : list (str * list str)) : nat :=
  S (list_sum (map (fun entry => length (snd entry)) adj)).

(** What is left to visit: the neighbour sets of the names not yet
    processed. *)
Definition remaining (adj : list (str * list str)) (processed : list str) : nat :=
  list_sum (map (fun entry => if set_has processed (fst entry) then 0
                              else length (snd entry)) adj).

(** [findConnectedComponent]: the component, and [processed] as the call
    leaves it. *)
Definition findConnectedComponent (startAuthor : str)
    (adj : list (str * list str)) (processed : list str)
  : option (list str * list str) :=
  componentLoop (componentFuel adj) adj [startAuthor] processed [].

Definition calculateCommunityCollaborationStrength (members : list str)
    (collaborations : list CollaborationEdge) : Q :=
  let internalCollaborations :=
    filter (fun edge => set_has members (source edge) && set_has members (target edge))
      collaborations in
  let totalPossibleEdges := length members * (length members - 1) / 2 in
  let actualEdges := length internalCollaborations in
  if 0 <? totalPossibleEdges
  then (TextAnalysis.Qof_nat actualEdges / TextAnalysis.Qof_nat totalPossibleEdges)%Q
  else 0%Q.

(** The community pushed for one component; [count] is
    [communities.length] at that moment. *)
Definition makeCommunity (authors : list AuthorProfile)
    (collaborations : list CollaborationEdge) (adj : list (str * list str))
    (count : nat) (communityAuthors : list str) : AuthorCommunity :=
  let communityProfiles :=
    flat_map (fun name =>
                match find (fun a => str_eqb (cleanName a) name) authors with
                | Some profile => [profile]
                | None => []
                end) communityAuthors in
  let totalPapers := list_sum (map paperCount communityProfiles) in
  let allTopics := flat_map primaryTopics communityProfiles in
  let topicCounts := fold_left (fun m topic => map_add m topic 1) allTopics [] in
  let central :=
    map fst
      (firstn (Nat.max 1 (3 * length communityAuthors / 10))
         (stable_sort (fun a b => snd a <? snd b)
            (map (fun author => (author, length (neighborsOf adj author)))
               communityAuthors))) in
  {| c_id := L "community_" ++ nat_to_str (count + 1);
     c_name := L "Research Group " ++ nat_to_str (count + 1);
     members := communityAuthors;
     centralAuthors := central;
     c_primaryTopics := top3 topicCounts;
     c_paperCount := totalPapers;
     collaborationStrength :=
       calculateCommunityCollaborationStrength communityAuthors collaborations |}.

(** One turn of [authors.forEach] in [detectAuthorCommunities]; the state
    is [communities] and [processed]. *)
Definition community_step (authors : list AuthorProfile)
    (collaborations : list CollaborationEdge) (adj : list (str * list str))
    (st : option (list AuthorCommunity * list str)) (author : AuthorProfile)
  : option (list AuthorCommunity * list str) :=
  match st with
  | None => None
  | Some (communities, processed) =>
      if set_has processed (cleanName author) then st
      else
        match findConnectedComponent (cleanName author) adj processed with
        | None => None
        | Some (community, processed') =>
            if 3 <=? length community
            then Some (communities
                       ++ [makeCommunity authors collaborations adj
                             (length communities) community],
                       processed')
            else Some (communities, processed')
        end
  end.

Definition detectAuthorCommunities (authors : list AuthorProfile)
    (collaborations : list CollaborationEdge) : option (list AuthorCommunity) :=
  let adj := buildAdjacency collaborations in
  match fold_left (community_step authors collaborations adj) authors
          (Some ([], [])) with
  | Some (communities, _) =>
      Some (stable_sort (fun a b => c_paperCount a <? c_paperCount b) communities)
  | None => None
  end.

(** Every profile of the map is named by a clean name that is [good]. *)
Definition goodMap (good : str -> Prop) (m : list (str * AuthorProfile)) : Prop :=
  Forall (fun e => good (cleanName (snd e))) m.

(** The clean name under which [profile_step] files an author is [good]. *)
Definition goodAuthor (good : str -> Prop) (mapping : list (str * str))
    (authorName : str) : Prop :=
  good (cleanAuthorName (canonicalNameOf mapping authorName)).

(** The field [communities] of [analyzeAuthorNetwork]. *)
Definition communitiesOf (papers : list PaperRecord) : option (list AuthorCommunity) :=
  detectAuthorCommunities (buildAuthorProfiles papers)
    (buildCollaborationNetwork papers).

End AuthorAnalysis.

(** The premises of the triangle property, as checks on a paper set. *)
Definition cleanedAuthors (p : PaperRecord) : list str :=
  map AuthorAnalysis.cleanAuthorName (authors p).

(** All edge keys that [buildCollaborationNetwork] counts. *)
Definition allKeys (papers : list PaperRecord) : list str :=
  flat_map (fun p => AuthorAnalysis.pairKeys (cleanedAuthors p)) papers.

(** Some paper lists both cleaned names. *)
Definition coauthors (papers : list PaperRecord) (x y : str) : bool :=
  existsb (fun p => DataValidation.set_has (cleanedAuthors p) x
                    && DataValidation.set_has (cleanedAuthors p) y) papers.

(** Every cleaned author name of every paper is one of [names]. *)
Definition onlyAuthors (names : list str) (papers : list PaperRecord) : bool :=
  forallb (fun p => forallb (DataValidation.set_has names) (cleanedAuthors p))
    papers.

Fixpoint nodupb (l : list str) : bool :=
  match l with
  | [] => true
  | x :: r => negb (DataValidation.set_has r x) && nodupb r
  end.

(** No paper lists the same cleaned name twice. *)
Definition noRepeatedAuthor (papers : list PaperRecord) : bool :=
  forallb (fun p => nodupb (cleanedAuthors p)) papers.

(** The name does not hold the separator of the edge keys. *)
Definition pipeFree (x : str) : bool :=
  negb (existsb (ch_eqb AuthorAnalysis.pipe) x).

(** The edge joins [x] and [y], in either direction. *)
Definition ends (e : CollaborationEdge) (x y : str) : Prop :=
  (source e = x /\ target e = y) \/ (source e = y /\ target e = x).

(** The edge joins [v] to [w]. *)
Definition joins (e : CollaborationEdge) (v w : str) : Prop :=
  (source e = v /\ target e = w) \/ (target e = v /\ source e = w).

(** The edges are those of the triangle [a], [b], [c], one per side. *)
Definition TriangleEdges (E : list CollaborationEdge) (a b c : str) : Prop :=
  exists e1 e2 e3,
    Permutation E [e1; e2; e3] /\ ends e1 a b /\ ends e2 a c /\ ends e3 b c.

(** A paper with the given authors and nothing else. *)
Definition paperBy (k : string) (names : list string) : PaperRecord :=
  {| key := L k; itemType := L "article"; publicationYear := Some 2020%Z;
     authors := map L names; title := L k; publicationTitle := [];
     doi := None; url := None; abstract := []; tags := []; venue := [] |}.


(** Three papers, one for each side of a triangle of authors. *)
Definition trianglePapers : list PaperRecord :=
  [ paperBy "p1" ["Ann Lee"; "Bob Ray"];
    paperBy "p2" ["Bob Ray"; "Cy Dow"];
    paperBy "p3" ["Dr. Ann Lee"; "Cy Dow"] ].

(** One paper that lists an author under two spellings. *)
Definition repeatedAuthorPapers : list PaperRecord :=
  [ paperBy "p1" ["Ann Lee"; "Dr. Ann Lee"; "Bob Ray"; "Cy Dow"] ].

(** One paper with an author name that holds the character [|]. *)
Definition pipeNamePapers : list PaperRecord :=
  [ paperBy "p1" ["a|b"; "cc"; "dd"] ].

(* ================================================================== *)
(** ** Checks used to state further properties *)
(* ================================================================== *)

(** A line that [parseCSV] does not skip as blank. *)
Definition nonblank (raw : str) : bool := truthy (trim raw).

(** The year is absent or within the bounds of [parseYear]. *)
Definition yearInBounds (p : PaperRecord) : bool :=
  match publicationYear p with
  | Some y => ((1990 <=? y) && (y <=? 2025))%Z
  | None => true
  end.


(** The fields that the character loop of [parseCSVLine] pushes from a
    position outside quotes, when the rest of the line has no double quote:
    what is in [current] joins the first part. *)
Definition pushed (current : str) (parts : list str) : list str :=
  match parts with
  | h :: t => trim (current ++ h) :: map trim t
  | [] => []
  end.

(** The records of the rows that a row parser accepts, in order. *)
Definition rowRecords (parseRow : str -> option PaperRecord) (rows : list str)
  : list PaperRecord :=
  flat_map (fun raw => match parseRow raw with Some p => [p] | None => [] end)
    rows.

(** A match of [(19|20)\d{2}]: four characters, [19] or [20] and two
    digits. *)
Definition is_year_text (m : str) : bool :=
  match m with
  | [a; b; c; d] =>
      ((ch_eqb a (chr 49) && ch_eqb b (chr 57))
       || (ch_eqb a (chr 50) && ch_eqb b (chr 48)))
      && is_digit c && is_digit d
  | _ => false
  end.

(** [cleanPaperRecord] of dataValidation.ts; [paper.doi?.trim()] leaves an
    absent field absent. *)
Definition cleanPaperRecord (paper : PaperRecord) : PaperRecord :=
  {| key := key paper;
     itemType := itemType paper;
     publicationYear := publicationYear paper;
     authors := filter (fun author => 0 <? length author)
                  (map trim (authors paper));
     title := trim (title paper);
     publicationTitle := trim (publicationTitle paper);
     doi := option_map trim (doi paper);
     url := option_map trim (url paper);
     abstract := trim (abstract paper);
     tags := filter (fun tag => 0 <? length tag) (map trim (tags paper));
     venue := trim (venue paper) |}.

(** A title without a character of [\w]. *)
Definition wordless (title : str) : bool :=
  forallb (fun c => negb (is_word c)) title.

(** The normalized title in the words of its description: the title in
    lower case, without the characters that are neither of [\w] nor white
    space, cut at every white-space character; the pieces that are not
    empty are its words, and the key is the words with one space between
    them. *)
Fixpoint pieces (s : str) : list str :=
  match s with
  | [] => [[]]
  | c :: t =>
      if is_space c then [] :: pieces t
      else match pieces t with
           | h :: r => (c :: h) :: r
           | [] => [[c]]
           end
  end.

Definition nonempty (w : str) : bool :=
  match w with [] => false | _ :: _ => true end.

Definition titleWords (title : str) : list str :=
  filter nonempty
    (pieces (filter (fun c => is_word c || is_space c) (toLowerCase title))).


(** A keyword of the table [TOPIC_KEYWORDS]: lower-case letters, at least
    one. *)
Definition is_lower_letter (c : ascii) : bool := between 97 122 (code c).

Definition plain_keyword (keyword : str) : bool :=
  nonempty keyword && forallb is_lower_letter keyword.

(** [keyword] stands in [text] at position [i] as a whole word: the text
    reads [keyword] from position [i] on, the character before position
    [i], if any, is not a word character, and neither is the character
    after the keyword, if any. *)
Definition wholeWordAt (keyword text : str) (i : nat) : bool :=
  startsWith (skipn i text) keyword
  && negb (match i with
           | O => false
           | S j => TextAnalysis.head_is_word (skipn j text)
           end)
  && negb (TextAnalysis.head_is_word (skipn (i + length keyword) text)).

(** The number of whole-word occurrences of [keyword] in [text]. *)
Definition wholeWordOccurrences (keyword text : str) : nat :=
  length (filter (wholeWordAt keyword text) (seq 0 (length text))).

(** The same count taken along the text: [prev_w] tells whether the
    character before [s] is a word character. *)
Definition wholeWordHere (keyword : str) (prev_w : bool) (s : str) : bool :=
  startsWith s keyword
  && negb prev_w
  && negb (TextAnalysis.head_is_word (skipn (length keyword) s)).

Fixpoint occurrencesFrom (keyword : str) (prev_w : bool) (s : str) : nat :=
  match s with
  | [] => 0
  | c :: r =>
      (if wholeWordHere keyword prev_w s then 1 else 0)
      + occurrencesFrom keyword (is_word c) r
  end.

(** A record with a title and nothing else. *)
Definition titled (t : str) : PaperRecord :=
  {| key := []; itemType := []; publicationYear := None;
     authors := []; title := t; publicationTitle := [];
     doi := None; url := None; abstract := []; tags := []; venue := [] |}.

(** [b] is reached from [a] along the adjacency list. *)
Inductive reachable (adj : list (str * list str)) (a : str) : str -> Prop :=
| reachable_refl : reachable adj a a
| reachable_step (b c : str) :
    reachable adj a b -> In c (AuthorAnalysis.neighborsOf adj b) ->
    reachable adj a c.

(** The members of the community are the names reached from [start]. *)
Definition componentOf (adj : list (str * list str)) (start : str)
    (community : AuthorAnalysis.AuthorCommunity) : Prop :=
  forall x, In x (AuthorAnalysis.members community) <-> reachable adj start x.

(** All that is reached from [x] fits in a list shorter than three. *)
Definition smallComponent (adj : list (str * list str)) (x : str) : Prop :=
  exists comp, length comp < 3 /\ forall y, reachable adj x y -> In y comp.

(** What the loop of [detectAuthorCommunities] maintains of [communities]
    and [processed]; [names] are the clean names of the profiles. *)
Definition communitiesInv (adj : list (str * list str)) (names : list str)
    (communities : list AuthorAnalysis.AuthorCommunity) (processed : list str)
  : Prop :=
  NoDup (flat_map AuthorAnalysis.members communities)
  /\ (forall x, In x (flat_map AuthorAnalysis.members communities)
                -> In x processed)
  /\ (forall x n, In x processed -> In n (AuthorAnalysis.neighborsOf adj x)
                  -> In n processed)
  /\ Forall (fun c => exists start, In start names /\ componentOf adj start c)
       communities
  /\ (forall x, In x processed ->
        In x (flat_map AuthorAnalysis.members communities)
        \/ smallComponent adj x).

(** A list in descending order of a count. *)
Definition descending (A : Type) (f : A -> nat) (l : list A) : Prop :=
  StronglySorted (fun a b => f b <= f a) l.

(** How often [k] occurs in [ks]. *)
Definition occurrences (k : str) (ks : list str) : nat :=
  length (filter (str_eqb k) ks).

(** The number of papers that list both cleaned names. *)
Definition jointPapers (papers : list PaperRecord) (a b : str) : nat :=
  length (filter (fun p => DataValidation.set_has (cleanedAuthors p) a
                           && DataValidation.set_has (cleanedAuthors p) b)
            papers).

(** No cleaned author name of any paper holds the separator of the keys. *)
Definition pipeFreeAuthors (papers : list PaperRecord) : bool :=
  forallb (fun p => forallb pipeFree (cleanedAuthors p)) papers.

(** What the loops of [buildAuthorProfiles] maintain of one entry of
    [authorMap]; [seen] holds of the papers taken so far. *)
Definition profileEntryOk (seen : PaperRecord -> Prop)
    (e : str * AuthorAnalysis.AuthorProfile) : Prop :=
  AuthorAnalysis.cleanName (snd e) = fst e
  /\ AuthorAnalysis.paperCount (snd e)
     = length (AuthorAnalysis.papers (snd e))
  /\ 1 <= AuthorAnalysis.paperCount (snd e)
  /\ Forall seen (AuthorAnalysis.papers (snd e)).

(** The sum of the paper counts of a map of profiles. *)
Definition totalCount (m : list (str * AuthorAnalysis.AuthorProfile)) : nat :=
  list_sum (map (fun e => AuthorAnalysis.paperCount (snd e)) m).

(** What the loops of [buildAuthorProfiles] maintain of [authorMap]. *)
Definition authorMapOk (seen : PaperRecord -> Prop)
    (m : list (str * AuthorAnalysis.AuthorProfile)) : Prop :=
  NoDup (AuthorAnalysis.keys m) /\ Forall (profileEntryOk seen) m.

(** No header holds the text [title], in any case. *)
Definition noTitleColumn (headers : list str) : bool :=
  forallb (fun h => negb (includes (toLowerCase h) (L "title"))) headers.

(* ================================================================== *)
(** ** [src/data/csvParser.ts]: venue statistics *)
(* ================================================================== *)

Module VenueStatistics.
Import AuthorAnalysis.

Inductive VenueType : Type := journal | conference | book | other.

Record t : Type := {
  name : str;
  paperCount : nat;
  type : VenueType
}.

(** [paper.venue || paper.publicationTitle || 'Unknown'] *)
Definition venueOf (paper : PaperRecord) : str :=
  or_else (venue paper) (or_else (publicationTitle paper) (L "Unknown")).

Definition venueType (venue : str) : VenueType :=
  let venueLower := toLowerCase venue in
  if includes venueLower (L "journal") || includes venueLower (L "transactions")
  then journal
  else if includes venueLower (L "conference")
          || includes venueLower (L "proceedings")
          || includes venueLower (L "workshop")
          || includes venueLower (L "symposium")
  then conference
  else if includes venueLower (L "book") || includes venueLower (L "chapter")
  then book
  else other.

(** One turn of [papers.forEach]; the state is [venueMap]. *)
Definition venue_step (venueMap : list (str * (nat * VenueType)))
    (paper : PaperRecord) : list (str * (nat * VenueType)) :=
  let venue := venueOf paper in
  let existing :=
    match map_get venueMap venue with
    | Some e => e
    | None => (0, other)
    end in
  map_set venueMap venue (fst existing + 1, venueType venue).

Definition venueMapOf (papers : list PaperRecord)
  : list (str * (nat * VenueType)) :=
  fold_left venue_step papers [].

Definition generateVenueStats (papers : list PaperRecord) : list t :=
  stable_sort (fun a b => paperCount a <? paperCount b)
    (map (fun entry =>
            {| name := fst entry;
               paperCount := fst (snd entry);
               type := snd (snd entry) |})
       (venueMapOf papers)).

End VenueStatistics.

(** The number of papers that are filed under the venue [v]. *)
Definition papersAt (papers : list PaperRecord) (v : str) : nat :=
  occurrences v (map VenueStatistics.venueOf papers).

(* ================================================================== *)
(** ** [src/utils/textAnalysis.ts]: keywords *)
(* ================================================================== *)

Module Keywords.
Import DataValidation AuthorAnalysis.

Definition STOP_WORDS : list str :=
  map L ["the"; "a"; "an"; "and"; "or"; "but"; "in"; "on"; "at"; "to"; "for";
         "of"; "with"; "by"; "from"; "up"; "about"; "into"; "through";
         "during"; "before"; "after"; "above"; "below"; "between"; "among";
         "is"; "are"; "was"; "were"; "be"; "been"; "being"; "have"; "has";
         "had"; "do"; "does"; "did"; "will"; "would"; "could"; "should";
         "may"; "might"; "must"; "can"; "this"; "that"; "these"; "those";
         "i"; "you"; "he"; "she"; "it"; "we"; "they"; "me"; "him"; "her";
         "us"; "them"; "my"; "your"; "his"; "her"; "its"; "our"; "their";
         "paper"; "study"; "research"; "analysis"; "approach"; "method";
         "using"; "based"; "propose"; "present"].

(** [text.replace(/[^\w\s]/g, ' ')] *)
Definition blank_punctuation (s : str) : str :=
  map (fun c => if is_word c || is_space c then c else space) s.

Definition preprocessText (text : str) : list str :=
  if negb (truthy text) then []
  else
    filter (fun word => negb ((0 <? length word) && forallb is_digit word))
      (filter (fun word => (2 <? length word) && negb (set_has STOP_WORDS word))
         (split_on space
            (trim (replace_ws_runs (L " ") false
                     (blank_punctuation (toLowerCase text)))))).

(** [wordFreq] after the [forEach]. *)
Definition wordFreq (words : list str) : list (str * nat) :=
  fold_left (fun m word => map_add m word 1) words [].

Definition extractKeywords (text : str) (maxKeywords : nat) : list str :=
  map fst
    (firstn maxKeywords
       (stable_sort (fun a b => snd a <? snd b)
          (wordFreq (preprocessText text)))).

End Keywords.

(** A lower-case letter, a digit or the underscore. *)
Definition is_keyword_char (c : ascii) : bool :=
  between 97 122 (code c) || is_digit c || (code c =? 95).

(* ================================================================== *)
(** ** [src/utils/textAnalysis.ts]: topic clusters *)
(* ================================================================== *)

Module TopicClusters.
Import DataValidation TextAnalysis AuthorAnalysis ResearchGapAnalysis.










End TopicClusters.


(** One cluster whose only paper is of the year 2024. *)
Definition recentCluster : list TopicCluster.t :=
  [ {| TopicCluster.id := L "security"; TopicCluster.label := L "Security";
       TopicCluster.size := 1; TopicCluster.papers :=
         [ {| key := L "p1"; itemType := L "article";
              publicationYear := Some 2024%Z; authors := [];
              title := L "p1"; publicationTitle := []; doi := None;
              url := None; abstract := []; tags := []; venue := [] |} ];
       TopicCluster.connections := []; TopicCluster.coverage := 100%Q |} ].

(* ================================================================== *)
(** ** [src/utils/researchGapAnalysis.ts]: temporal gaps *)
(* ================================================================== *)

Module TemporalGaps.
Import TextAnalysis ResearchGapAnalysis.

(** The object [yearlyPapers]: a record from years to counts, kept as the
    list of its entries. *)
Fixpoint year_get (m : list (Z * nat)) (y : Z) : option nat :=
  match m with
  | [] => None
  | (y', c) :: r => if (y =? y')%Z then Some c else year_get r y
  end.

Fixpoint year_set (m : list (Z * nat)) (y : Z) (c : nat) : list (Z * nat) :=
  match m with
  | [] => [(y, c)]
  | (y', c') :: r =>
      if (y =? y')%Z then (y', c) :: r else (y', c') :: year_set r y c
  end.

(** [yearlyPapers[year] || 0] *)
Definition countOf (m : list (Z * nat)) (y : Z) : nat :=
  match year_get m y with Some c => c | None => 0 end.

(** The [reduce] over the papers; a year that is [null] or 0 is skipped. *)
Definition yearlyPapers (papers : list PaperRecord) : list (Z * nat) :=
  fold_left (fun acc paper =>
               match publicationYear paper with
               | Some y =>
                   if (y =? 0)%Z then acc
                   else year_set acc y (countOf acc y + 1)
               | None => acc
               end) papers [].

(** [Object.keys(yearlyPapers).map(Number).sort()]: the default order of
    [sort] compares the decimal texts, and the years are pairwise
    distinct, so the order of the keys before the sort does not matter. *)
Definition yearsOf (m : list (Z * nat)) : list Z :=
  AuthorAnalysis.sortYears (map fst m).

(** The body of the [for] loop at index [i]: the range it pushes, if any. *)
Definition gapAt (m : list (Z * nat)) (years : list Z) (i : nat)
  : list YearRange :=
  match nth_error years i with
  | None => []
  | Some currentYear =>
      let currentPapers := countOf m currentYear in
      let surroundingYears :=
        firstn 3 (skipn (i - 3) years) ++ firstn 3 (skipn (i + 1) years) in
      let avgSurrounding :=
        (Qof_nat (list_sum (map (countOf m) surroundingYears))
         / Qof_nat (length surroundingYears))%Q in
      let expectedPapers := Math_round avgSurrounding in
      let gapSize := Z.max 0 (expectedPapers - Z.of_nat currentPapers) in
      if (5 <? gapSize)%Z
      then [ {| startYear := currentYear;
                endYear := currentYear;
                yr_expectedPapers := expectedPapers;
                yr_actualPapers := Z.of_nat currentPapers;
                yr_gapSize := gapSize |} ]
      else []
  end.

(** [for (let i = windowSize; i < years.length - windowSize; i++)] with
    [windowSize = 3]. *)
Definition findTemporalGaps (papers : list PaperRecord) : list YearRange :=
  let m := yearlyPapers papers in
  let years := yearsOf m in
  flat_map (gapAt m years) (seq 3 (length years - 6)).

(** [gap.gapSize > 10] and [(gap.gapSize / gap.expectedPapers) * 50]: the
    filter of [analyzeTemporalGaps] and the [opportunityScore] of the gap
    it pushes for a range. *)
Definition significantGaps (papers : list PaperRecord) : list YearRange :=
  filter (fun gap => (10 <? yr_gapSize gap)%Z) (findTemporalGaps papers).

Definition temporalOpportunityScore (gap : YearRange) : Q :=
  (inject_Z (yr_gapSize gap) / inject_Z (yr_expectedPapers gap) * 50)%Q.

End TemporalGaps.

(** The years of the papers, without [null] and 0. *)
Definition paperYears (papers : list PaperRecord) : list Z :=
  flat_map (fun p => match publicationYear p with
                     | Some y => if (y =? 0)%Z then [] else [y]
                     | None => []
                     end) papers.

(** A group of [detectDuplicateAuthors]: filed under the clean name of its
    first name, with one more name at least, each of the further names
    being another name that is similar to the first. *)
Definition duplicateGroup (e : str * list str) : Prop :=
  exists leader rest,
    snd e = leader :: rest /\ rest <> []
    /\ fst e = AuthorAnalysis.cleanAuthorName leader
    /\ forall v, In v rest ->
         v <> leader
         /\ AuthorAnalysis.areAuthorNamesSimilar
              (AuthorAnalysis.cleanAuthorName leader)
              (AuthorAnalysis.cleanAuthorName v) = true.
(* ================================================================== *)
(** * Properties *)
(* ================================================================== *)

(** ** Strings and sorting *)

Module JSFacts.

Lemma str_eqb_eq (a b : str) : str_eqb a b = true <-> a = b.
Proof.
  unfold str_eqb. destruct (list_eq_dec ascii_dec a b); split; congruence.
Qed.

Lemma str_eqb_refl (a : str) : str_eqb a a = true.
Proof. now apply str_eqb_eq. Qed.

Lemma str_eqb_neq (a b : str) : str_eqb a b = false <-> a <> b.
Proof.
  unfold str_eqb. destruct (list_eq_dec ascii_dec a b); split; congruence.
Qed.


Section SortFacts.
Variable A : Type.
Variable gt : A -> A -> bool.

Lemma insert_sorted_perm (x : A) (l : list A) :
  Permutation (x :: l) (insert_sorted gt x l).
Proof.
  induction l as [|y r IH]; simpl; [reflexivity|].
  destruct (gt x y); [|reflexivity].
  rewrite perm_swap. now constructor.
Qed.

Lemma stable_sort_perm (l : list A) : Permutation l (stable_sort gt l).
Proof.
  induction l as [|x r IH]; simpl; [constructor|].
  rewrite <- insert_sorted_perm. now constructor.
Qed.

Lemma stable_sort_length (l : list A) : length (stable_sort gt l) = length l.
Proof. symmetry. apply Permutation_length, stable_sort_perm. Qed.

Lemma stable_sort_In (l : list A) (x : A) : In x (stable_sort gt l) <-> In x l.
Proof.
  split; apply Permutation_in; [symmetry|]; apply stable_sort_perm.
Qed.
End SortFacts.

End JSFacts.
Import JSFacts.

(** ** The record parser: one record per well-formed row *)

Module CsvParserFacts.
Import CsvCommon.

Lemma truthy_nil : truthy [] = false.
Proof. reflexivity. Qed.

Lemma truthy_cons (c : ascii) (s : str) : truthy (c :: s) = true.
Proof.
  unfold truthy. apply negb_true_iff, str_eqb_neq. discriminate.
Qed.

Lemma truthy_length (s : str) : truthy s = (0 <? length s).
Proof. destruct s; [reflexivity | apply truthy_cons]. Qed.

(** A blank line has a single empty field, and no title resolves from it. *)
Lemma getField_loop_blank (headers possible : list str) :
  CsvParser.getField_loop headers [[]] possible = [].
Proof.
  induction possible as [|pf rest IH]; simpl; [reflexivity|].
  destruct (findIndex _ headers) as [[|i]|]; simpl; auto.
  destruct i; simpl; auto.
Qed.

Lemma getField_loop_blank004 (headers possible : list str) :
  CsvParser004.getField_loop headers [[]] possible = [].
Proof.
  induction possible as [|pf rest IH]; simpl; [reflexivity|].
  destruct (findIndex _ headers) as [[|i]|]; simpl; auto.
  destruct i; simpl; auto.
Qed.

Lemma row_ok_parses (headers : list str) (raw : str) :
  row_ok headers raw = true ->
  exists paper, CsvParser.parseRow headers raw = Some paper.
Proof.
  unfold row_ok, CsvParser.parseRow. intros H.
  apply andb_true_iff in H. destruct H as [Hlen Htitle].
  destruct (truthy (trim raw)) eqn:Hline; simpl.
  - apply Nat.leb_le in Hlen.
    destruct (Nat.ltb_spec (length (CsvParser.parseCSVLine (trim raw)))
                (length headers)) as [Hlt|_]; [lia|].
    unfold CsvParser.createPaperRecord. rewrite Htitle. simpl. eauto.
  - exfalso. unfold truthy in Hline. apply negb_false_iff, str_eqb_eq in Hline.
    rewrite Hline in Htitle. unfold CsvParser.parseCSVLine in Htitle.
    simpl in Htitle. unfold CsvParser.getField in Htitle.
    rewrite getField_loop_blank in Htitle. discriminate.
Qed.

Lemma row_ok004_parses (headers : list str) (raw : str) :
  row_ok004 headers raw = true ->
  exists paper, CsvParser004.parseRow headers raw = Some paper.
Proof.
  unfold row_ok004, CsvParser004.parseRow. intros H.
  apply andb_true_iff in H. destruct H as [Hlen Htitle].
  apply Nat.leb_le in Hlen, Htitle.
  destruct (truthy (trim raw)) eqn:Hline; cbn [negb].
  - assert (E1 : (2 * length (CsvParser004.parseCSVLine (trim raw))
                  <? length headers) = false) by (apply Nat.ltb_ge; lia).
    rewrite E1. unfold CsvParser004.createPaperRecord.
    rewrite truthy_length.
    assert (E2 : (0 <? length (CsvParser004.getField headers
                     (CsvParser004.parseCSVLine (trim raw)) "title")) = true)
      by (apply Nat.ltb_lt; lia).
    assert (E3 : (length (CsvParser004.getField headers
                     (CsvParser004.parseCSVLine (trim raw)) "title") <? 5)
                 = false) by (apply Nat.ltb_ge; lia).
    rewrite E2, E3. cbn [negb orb]. eauto.
  - exfalso. unfold truthy in Hline. apply negb_false_iff, str_eqb_eq in Hline.
    rewrite Hline in Htitle. unfold CsvParser004.parseCSVLine in Htitle.
    simpl in Htitle. unfold CsvParser004.getField in Htitle.
    rewrite getField_loop_blank004 in Htitle. simpl in Htitle. lia.
Qed.

(** The loop pushes one record per row that yields one, in row order. *)
Section Rows.
Variable parseRow : str -> option PaperRecord.
Variable parseRows : list str -> list PaperRecord -> list PaperRecord.
Hypothesis parseRows_nil : forall acc, parseRows [] acc = acc.
Hypothesis parseRows_cons : forall raw rest acc,
  parseRows (raw :: rest) acc =
  match parseRow raw with
  | Some paper => parseRows rest (acc ++ [paper])
  | None => parseRows rest acc
  end.

Lemma parseRows_all_pushed (rows : list str) :
  Forall (fun raw => exists paper, parseRow raw = Some paper) rows ->
  forall acc, exists ps,
    parseRows rows acc = acc ++ ps
    /\ Forall2 (fun raw paper => parseRow raw = Some paper) rows ps.
Proof.
  induction 1 as [|raw rest [paper Hp] _ IH]; intros acc.
  - exists []. rewrite parseRows_nil, app_nil_r. split; constructor.
  - destruct (IH (acc ++ [paper])) as [ps [Heq Hall]].
    exists (paper :: ps). rewrite parseRows_cons, Hp, Heq, <- app_assoc.
    split; [reflexivity|]. now constructor.
Qed.

(** Lines that make no record can be left out. *)
Lemma parseRows_nonblank (rows : list str) :
  (forall raw, nonblank raw = false -> parseRow raw = None) ->
  forall acc, parseRows rows acc = parseRows (filter nonblank rows) acc.
Proof.
  intros Hblank. induction rows as [|raw rest IH]; intros acc; [reflexivity|].
  cbn [filter]. destruct (nonblank raw) eqn:Hn.
  - rewrite !parseRows_cons. destruct (parseRow raw); apply IH.
  - rewrite parseRows_cons, (Hblank raw Hn). apply IH.
Qed.
End Rows.

Lemma parseRow_blank (headers : list str) (raw : str) :
  nonblank raw = false -> CsvParser.parseRow headers raw = None.
Proof.
  intros Hn. unfold CsvParser.parseRow. unfold nonblank in Hn. now rewrite Hn.
Qed.

Lemma parseRow004_blank (headers : list str) (raw : str) :
  nonblank raw = false -> CsvParser004.parseRow headers raw = None.
Proof.
  intros Hn. unfold CsvParser004.parseRow. unfold nonblank in Hn.
  now rewrite Hn.
Qed.


Lemma parseCSV_rows (content header : str) (rows : list str) :
  split_on newline content = header :: rows ->
  CsvParser.parseCSV content =
  CsvParser.parseRows (CsvParser.parseHeaders header) rows [].
Proof. unfold CsvParser.parseCSV. now intros ->. Qed.

Lemma parseCSV004_rows (content header : str) (rows : list str) :
  split_on newline content = header :: rows ->
  CsvParser004.parseCSV content =
  CsvParser004.parseRows (CsvParser004.parseHeaders header) rows [].
Proof.
  unfold CsvParser004.parseCSV. intros ->.
  destruct rows as [|r rows]; reflexivity.
Qed.

Lemma Forall2_length_eq (A B : Type) (R : A -> B -> Prop) l1 l2 :
  Forall2 R l1 l2 -> length l2 = length l1.
Proof. induction 1; simpl; congruence. Qed.

(** C1, as the claim states it, fails on the copy of the parser in
    part_004: the one data row below has one field for one header and the
    resolved title [Abc], and no record comes back. *)
Lemma parseCSV004_short_title_dropped :
  let content := L "Title" ++ [newline] ++ L "Abc" in
  let headers := CsvParser004.parseHeaders (L "Title") in
  let fields := CsvParser004.parseCSVLine (trim (L "Abc")) in
  split_on newline content = [L "Title"; L "Abc"]
  /\ trim (L "Abc") <> []
  /\ length headers <= length fields
  /\ CsvParser004.getField headers fields "title" = L "Abc"
  /\ ~ length (CsvParser004.parseCSV content) = 1.
Proof.
  cbv zeta. repeat split; try reflexivity; try discriminate.
Qed.

(** C1 (amended).  The lines of a CSV text after its header line are data
    rows and blank lines (such as the empty piece after a final line
    break); [parseCSV] skips the blank ones.  When each of the [N] rows
    that are not blank has at least as many fields as the header and a
    non-empty resolved title, [parseCSV] of [csvParser.ts] returns exactly
    [N] records, the i-th one made from the i-th such row; the copy in
    part_004 does so when every resolved title has at least five
    characters.  On the two-row fixture of the test file both return two
    records, the first with title [Test Paper 1] and two authors. *)
Theorem parseCSV_one_record_per_row (content header : str) (lines : list str) :
  split_on newline content = header :: lines ->
  let rows := filter nonblank lines in
  (forallb (row_ok (CsvParser.parseHeaders header)) rows = true ->
   length (CsvParser.parseCSV content) = length rows
   /\ Forall2 (fun raw paper =>
        CsvParser.parseRow (CsvParser.parseHeaders header) raw = Some paper)
        rows (CsvParser.parseCSV content))
  /\ (forallb (row_ok004 (CsvParser004.parseHeaders header)) rows = true ->
      length (CsvParser004.parseCSV content) = length rows
      /\ Forall2 (fun raw paper =>
           CsvParser004.parseRow (CsvParser004.parseHeaders header) raw
           = Some paper)
           rows (CsvParser004.parseCSV content))
  /\ (length (CsvParser.parseCSV sampleCSVData) = 2
      /\ option_map title (nth_error (CsvParser.parseCSV sampleCSVData) 0)
         = Some (L "Test Paper 1")
      /\ option_map (fun p => length (authors p))
           (nth_error (CsvParser.parseCSV sampleCSVData) 0) = Some 2)
  /\ (length (CsvParser004.parseCSV sampleCSVData) = 2
      /\ option_map title (nth_error (CsvParser004.parseCSV sampleCSVData) 0)
         = Some (L "Test Paper 1")
      /\ option_map (fun p => length (authors p))
           (nth_error (CsvParser004.parseCSV sampleCSVData) 0) = Some 2).
Proof.
  intros Hlines rows. split; [|split; [|split]].
  - intros Hok. rewrite (parseCSV_rows _ Hlines).
    rewrite (@parseRows_nonblank
               (CsvParser.parseRow (CsvParser.parseHeaders header))
               (CsvParser.parseRows (CsvParser.parseHeaders header))
               (fun _ _ _ => eq_refl) lines
               (parseRow_blank (CsvParser.parseHeaders header))).
    fold rows.
    destruct (@parseRows_all_pushed
                (CsvParser.parseRow (CsvParser.parseHeaders header))
                (CsvParser.parseRows (CsvParser.parseHeaders header))
                (fun _ => eq_refl) (fun _ _ _ => eq_refl) rows)
      with (acc := @nil PaperRecord) as [ps [Heq Hall]].
    + apply Forall_forall. intros raw Hin. apply row_ok_parses.
      rewrite forallb_forall in Hok. now apply Hok.
    + rewrite Heq. simpl. split; [|exact Hall].
      apply (Forall2_length_eq Hall).
  - intros Hok. rewrite (parseCSV004_rows _ Hlines).
    rewrite (@parseRows_nonblank
               (CsvParser004.parseRow (CsvParser004.parseHeaders header))
               (CsvParser004.parseRows (CsvParser004.parseHeaders header))
               (fun _ _ _ => eq_refl) lines
               (parseRow004_blank (CsvParser004.parseHeaders header))).
    fold rows.
    destruct (@parseRows_all_pushed
                (CsvParser004.parseRow (CsvParser004.parseHeaders header))
                (CsvParser004.parseRows (CsvParser004.parseHeaders header))
                (fun _ => eq_refl) (fun _ _ _ => eq_refl) rows)
      with (acc := @nil PaperRecord) as [ps [Heq Hall]].
    + apply Forall_forall. intros raw Hin. apply row_ok004_parses.
      rewrite forallb_forall in Hok. now apply Hok.
    + rewrite Heq. simpl. split; [|exact Hall].
      apply (Forall2_length_eq Hall).
  - vm_compute. repeat split.
  - vm_compute. repeat split.
Qed.

(** The theorem at the fixture followed by a line break and a blank line:
    of the four lines after the header, two are rows, they pass both
    checks, and two records come back. *)
Lemma parseCSV_one_record_per_row_fixture :
  let content := sampleCSVData ++ [newline] ++ L "  " ++ [newline] in
  let header :=
    L "Title,Author,Publication Year,Abstract,DOI,URL,Item Type,Venue" in
  let lines := tl (split_on newline content) in
  split_on newline content = header :: lines
  /\ length lines = 4
  /\ length (filter nonblank lines) = 2
  /\ forallb (row_ok (CsvParser.parseHeaders header)) (filter nonblank lines)
     = true
  /\ forallb (row_ok004 (CsvParser004.parseHeaders header))
       (filter nonblank lines) = true
  /\ length (CsvParser.parseCSV content) = 2
  /\ length (CsvParser004.parseCSV content) = 2.
Proof.
  intros content header lines.
  assert (Hlines : split_on newline content = header :: lines)
    by (vm_compute; reflexivity).
  assert (Hok : forallb (row_ok (CsvParser.parseHeaders header))
                  (filter nonblank lines) = true)
    by (vm_compute; reflexivity).
  assert (Hok4 : forallb (row_ok004 (CsvParser004.parseHeaders header))
                   (filter nonblank lines) = true)
    by (vm_compute; reflexivity).
  assert (Hn : length (filter nonblank lines) = 2) by (vm_compute; reflexivity).
  destruct (parseCSV_one_record_per_row content Hlines)
    as [H1 [H2 _]].
  split; [exact Hlines|]. split; [vm_compute; reflexivity|].
  split; [exact Hn|]. split; [exact Hok|]. split; [exact Hok4|].
  split.
  - rewrite <- Hn. exact (proj1 (H1 Hok)).
  - rewrite <- Hn. exact (proj1 (H2 Hok4)).
Defined.

End CsvParserFacts.

(** ** The line parser: quoted fields *)

Module CsvLineFacts.

Lemma ch_eqb_true (a b : ascii) : ch_eqb a b = true <-> a = b.
Proof. apply Ascii.eqb_eq. Qed.

Lemma ch_eqb_false (a b : ascii) : ch_eqb a b = false <-> a <> b.
Proof. apply Ascii.eqb_neq. Qed.

(** Inside a quoted field the parser of part_004 appends the field value
    unchanged, commas included, and leaves the quoted state at the closing
    quote. *)
Lemma quoted_body004 (f tail : str) (fields : list str) (current : str) :
  match tail with [] => True | c :: _ => c <> dquote end ->
  CsvParser004.parseCSVLine_loop (csv_escape f ++ dquote :: tail)
    fields current true
  = CsvParser004.parseCSVLine_loop tail fields (current ++ f) false.
Proof.
  intros Htail. revert current.
  induction f as [|c r IH]; intros current.
  - rewrite app_nil_r. simpl.
    destruct tail as [|t tail']; [reflexivity|].
    apply ch_eqb_false in Htail. now rewrite Htail.
  - simpl. destruct (ch_eqb c dquote) eqn:Hc.
    + apply ch_eqb_true in Hc. subst c. simpl.
      rewrite IH, <- app_assoc. reflexivity.
    + simpl. rewrite Hc, andb_false_r, IH, <- app_assoc. reflexivity.
Qed.

Lemma quoted_field004 (f tail : str) (fields : list str) (current : str) :
  has_plain_char f = true ->
  match tail with [] => True | c :: _ => c <> dquote end ->
  CsvParser004.parseCSVLine_loop (csv_quote f ++ tail) fields current false
  = CsvParser004.parseCSVLine_loop tail fields (current ++ f) false.
Proof.
  intros Hf Htail. revert current.
  induction f as [|c r IH]; intros current; [discriminate|].
  unfold csv_quote in *. simpl in Hf |- *.
  destruct (ch_eqb c dquote) eqn:Hc.
  - apply ch_eqb_true in Hc. subst c. simpl in Hf. simpl.
    specialize (IH Hf (current ++ [dquote])). simpl in IH.
    rewrite IH, <- app_assoc. reflexivity.
  - simpl. rewrite Hc. rewrite <- app_assoc. simpl.
    rewrite andb_false_r, quoted_body004 by assumption.
    rewrite <- app_assoc. reflexivity.
Qed.

(** A field value made of double quotes only, the empty value included,
    comes back from part_004 with one double quote too many. *)
Lemma quoted_field004_degenerate (f tail : str) (fields : list str)
    (current : str) :
  has_plain_char f = false ->
  match tail with [] => True | c :: _ => c <> dquote end ->
  CsvParser004.parseCSVLine_loop (csv_quote f ++ tail) fields current false
  = CsvParser004.parseCSVLine_loop tail fields (current ++ f ++ [dquote]) false.
Proof.
  intros Hf Htail. revert current.
  induction f as [|c r IH]; intros current.
  - reflexivity.
  - unfold csv_quote in *. simpl in Hf. apply orb_false_iff in Hf.
    destruct Hf as [Hc Hr]. apply negb_false_iff, ch_eqb_true in Hc. subst c.
    specialize (IH Hr (current ++ [dquote])). simpl in IH |- *.
    rewrite IH, <- app_assoc. reflexivity.
Qed.

Lemma join_cons2 (sep x y : str) (l : list str) :
  join sep (x :: y :: l) = x ++ sep ++ join sep (y :: l).
Proof. reflexivity. Qed.

Lemma quoted_line004_loop (fs : list str) (f : str) (fields : list str) :
  forallb has_plain_char (f :: fs) = true ->
  CsvParser004.parseCSVLine_loop (join [comma] (map csv_quote (f :: fs)))
    fields [] false
  = fields ++ map trim (f :: fs).
Proof.
  revert f fields. induction fs as [|g fs IH]; intros f fields Hall;
    simpl in Hall; apply andb_true_iff in Hall; destruct Hall as [Hf Hrest].
  - simpl map. cbn [join].
    rewrite <- (app_nil_r (csv_quote f)), quoted_field004 by (auto; exact I).
    reflexivity.
  - cbn [map]. rewrite join_cons2.
    rewrite quoted_field004; [|assumption|discriminate].
    cbn [app]. cbn [CsvParser004.parseCSVLine_loop].
    change (ch_eqb comma dquote) with false.
    change (ch_eqb comma comma && negb false) with true. cbv iota.
    change (csv_quote g :: map csv_quote fs) with (map csv_quote (g :: fs)).
    rewrite (IH g (fields ++ [trim f])) by exact Hrest.
    rewrite <- app_assoc. reflexivity.
Qed.

(** The line parser of part_004 undoes the CSV encoding: the commas of a
    quoted field stay in the field and each doubled quote is one quote. *)
Lemma parseCSVLine004_decodes (fs : list str) :
  fs <> [] ->
  forallb has_plain_char fs = true ->
  CsvParser004.parseCSVLine (join [comma] (map csv_quote fs)) = map trim fs.
Proof.
  destruct fs as [|f fs]; [congruence|]. intros _ Hall.
  unfold CsvParser004.parseCSVLine. now rewrite quoted_line004_loop.
Qed.

(** The line parser of csvParser.ts toggles its state at every double
    quote, so a quoted field keeps its commas and loses all its quotes. *)
Lemma quoted_body (f rest : str) (fields : list str) (current : str) :
  CsvParser.parseCSVLine_loop (csv_escape f ++ rest) fields current true
  = CsvParser.parseCSVLine_loop rest fields
      (current ++ remove_all (ch_eqb dquote) f) true.
Proof.
  revert current. induction f as [|c r IH]; intros current.
  - simpl. now rewrite app_nil_r.
  - simpl. destruct (ch_eqb c dquote) eqn:Hc.
    + apply ch_eqb_true in Hc. subst c. simpl. apply IH.
    + simpl. rewrite Hc, andb_false_r, IH.
      assert (Hd : ch_eqb dquote c = false)
        by (apply ch_eqb_false; apply ch_eqb_false in Hc; congruence).
      unfold remove_all at 2. simpl. rewrite Hd, <- app_assoc. reflexivity.
Qed.

Lemma quoted_line_loop (fs : list str) (f : str) (fields : list str) :
  CsvParser.parseCSVLine_loop (join [comma] (map csv_quote (f :: fs)))
    fields [] false
  = fields ++ map (fun f => trim (remove_all (ch_eqb dquote) f)) (f :: fs).
Proof.
  revert f fields. induction fs as [|g fs IH]; intros f fields.
  - simpl map. cbn [join]. unfold csv_quote.
    cbn [CsvParser.parseCSVLine_loop]. change (ch_eqb dquote dquote) with true.
    cbv iota. cbn [negb]. rewrite quoted_body. reflexivity.
  - cbn [map]. rewrite join_cons2. unfold csv_quote at 1.
    cbn [app CsvParser.parseCSVLine_loop].
    change (ch_eqb dquote dquote) with true. cbv iota. cbn [negb].
    rewrite <- app_assoc, quoted_body. cbn [app CsvParser.parseCSVLine_loop].
    change (ch_eqb dquote dquote) with true. cbv iota. cbn [negb].
    change (ch_eqb comma dquote) with false.
    change (ch_eqb comma comma && true) with true. cbv iota.
    change (csv_quote g :: map csv_quote fs) with (map csv_quote (g :: fs)).
    rewrite (IH g (fields ++ [_])), <- app_assoc. reflexivity.
Qed.

Lemma parseCSVLine_drops_quotes (fs : list str) :
  fs <> [] ->
  CsvParser.parseCSVLine (join [comma] (map csv_quote fs))
  = map (fun f => trim (remove_all (ch_eqb dquote) f)) fs.
Proof.
  destruct fs as [|f fs]; [congruence|]. intros _.
  unfold CsvParser.parseCSVLine. now rewrite quoted_line_loop.
Qed.

(** C3.  On the line made of the one quoted field [a""b] (written here with
    apostrophes for double quotes) the line parser of csvParser.ts returns
    [ab]: both quotes of the doubled quote are lost.  The parser of part_004
    returns the field with one literal quote.  Both keep the comma of the
    quoted field [x,y]. *)
Theorem parseCSVLine_doubled_quote :
  CsvParser.parseCSVLine (unq "'a''b'") = [L "ab"]
  /\ CsvParser004.parseCSVLine (unq "'a''b'") = [unq "a'b"]
  /\ CsvParser.parseCSVLine (unq "'x,y',z") = [L "x,y"; L "z"]
  /\ CsvParser004.parseCSVLine (unq "'x,y',z") = [L "x,y"; L "z"].
Proof. repeat split. Qed.

End CsvLineFacts.

(** ** Years and quality metrics *)

Module YearFacts.
Import CsvCommon.

Lemma year_match_eq (pw : bool) (s : str) :
  year_match pw s =
  match year_at pw s with
  | Some m => Some m
  | None => match s with [] => None | c :: r => year_match (is_word c) r end
  end.
Proof. destruct s; reflexivity. Qed.






(** C9.  On the empty list [calculateQualityMetrics] returns normally:
    [totalPapers] is 0 and each of the four coverage fields is the result
    of [0 / 0 * 100], which is [NaN]; nothing guards the division. *)
Theorem calculateQualityMetrics_empty (currentYear : Z) :
  calculateQualityMetrics currentYear [] =
  {| totalPapers := 0;
     doiCoverage := NaN;
     urlCoverage := NaN;
     abstractCoverage := NaN;
     recentPapers := NaN |}
  /\ js_div (js_of_nat 0) (js_of_nat 0) = NaN
  /\ js_mul NaN (js_of_nat 100) = NaN.
Proof. repeat split. Qed.

End YearFacts.

(** ** White space *)

Module TrimFacts.

Lemma dropWhile_snoc (f : ascii -> bool) (l : str) (c : ascii) :
  dropWhile f (l ++ [c]) =
  match dropWhile f l with
  | [] => if f c then [] else [c]
  | d => d ++ [c]
  end.
Proof.
  induction l as [|x l IH]; simpl; [reflexivity|].
  destruct (f x); [exact IH | reflexivity].
Qed.

Lemma trimEnd_cons (c : ascii) (r : str) :
  trimEnd (c :: r) =
  match trimEnd r with
  | [] => if is_space c then [] else [c]
  | t => c :: t
  end.
Proof.
  unfold trimEnd. simpl rev. rewrite dropWhile_snoc.
  destruct (dropWhile is_space (rev r)) as [|d ds] eqn:E; simpl.
  - now destruct (is_space c).
  - rewrite rev_app_distr. simpl.
    destruct (rev ds ++ [d]) eqn:E'; [|reflexivity].
    now destruct (rev ds).
Qed.

Lemma trimEnd_head (c : ascii) (r : str) :
  is_space c = false -> exists t, trimEnd (c :: r) = c :: t.
Proof.
  intros Hc. rewrite trimEnd_cons, Hc. destruct (trimEnd r); eauto.
Qed.

Lemma trimStart_head (s : str) :
  match trimStart s with [] => True | c :: _ => is_space c = false end.
Proof.
  unfold trimStart. induction s as [|c r IH]; simpl; [exact I|].
  destruct (is_space c) eqn:E; [exact IH | exact E].
Qed.

Lemma trimEnd_idem (s : str) : trimEnd (trimEnd s) = trimEnd s.
Proof.
  induction s as [|c r IH]; [reflexivity|].
  rewrite trimEnd_cons. destruct (trimEnd r) as [|d t] eqn:E.
  - destruct (is_space c) eqn:Ec; [reflexivity|].
    rewrite trimEnd_cons. change (trimEnd []) with (@nil ascii).
    now rewrite Ec.
  - rewrite trimEnd_cons, IH. reflexivity.
Qed.

(** The result of [trim] neither starts nor ends with white space, and
    trimming it again changes nothing. *)
Lemma trim_head (s : str) :
  match trim s with [] => True | c :: _ => is_space c = false end.
Proof.
  unfold trim. pose proof (trimStart_head s) as H.
  destruct (trimStart s) as [|c r]; [exact I|].
  destruct (@trimEnd_head c r H) as [t ->]. exact H.
Qed.

Lemma trimStart_fixed (s : str) :
  match s with [] => True | c :: _ => is_space c = false end ->
  trimStart s = s.
Proof. destruct s as [|c r]; [reflexivity|]. unfold trimStart. simpl. now intros ->. Qed.

Lemma trim_idem (s : str) : trim (trim s) = trim s.
Proof.
  unfold trim at 1. rewrite (trimStart_fixed _ (trim_head s)).
  unfold trim. apply trimEnd_idem.
Qed.

End TrimFacts.

(** ** The validator *)

Module DataValidationFacts.
Import DataValidation TrimFacts CsvLineFacts.

Lemma set_has_In (s : list str) (x : str) : set_has s x = true <-> In x s.
Proof.
  unfold set_has. rewrite existsb_exists. split.
  - intros [y [Hin Heq]]. apply str_eqb_eq in Heq. now subst.
  - intros Hin. exists x. split; [assumption | apply str_eqb_refl].
Qed.

Lemma set_has_app (s : list str) (x y : str) :
  set_has (s ++ [y]) x = set_has s x || str_eqb x y.
Proof. unfold set_has. rewrite existsb_app. simpl. now rewrite orb_false_r. Qed.

Lemma Subseq_refl (A : Type) (l : list A) : Subseq l l.
Proof. induction l; constructor; assumption. Qed.

Lemma Subseq_snoc_skip (A : Type) (l1 l2 : list A) (x : A) :
  Subseq l1 l2 -> Subseq l1 (l2 ++ [x]).
Proof.
  induction 1; simpl.
  - apply Subseq_skip, Subseq_nil.
  - now apply Subseq_skip.
  - now apply Subseq_keep.
Qed.

Lemma Subseq_snoc_keep (A : Type) (l1 l2 : list A) (x : A) :
  Subseq l1 l2 -> Subseq (l1 ++ [x]) (l2 ++ [x]).
Proof.
  induction 1; simpl.
  - apply Subseq_keep, Subseq_nil.
  - now apply Subseq_skip.
  - now apply Subseq_keep.
Qed.






(** What the loop of [removeDuplicatePapers] maintains. *)
Lemma dedup_invariant (papers : list PaperRecord) :
  let st := fold_left dedup_step papers ([], []) in
  snd st = map norm (fst st)
  /\ (forall t, In t (snd st) <-> In t (map norm papers))
  /\ NoDup (snd st)
  /\ Subseq (fst st) papers.
Proof.
  induction papers as [|p ps IH] using rev_ind; cbv zeta.
  - simpl. repeat split; try tauto; constructor.
  - rewrite fold_left_app. simpl.
    destruct (fold_left dedup_step ps ([], [])) as [unique seen].
    cbv zeta in IH. simpl in IH. destruct IH as (Hseen & Hmem & Hnd & Hsub).
    unfold dedup_step. simpl. fold (norm p).
    destruct (set_has seen (norm p)) eqn:Hhas; simpl.
    + apply set_has_In in Hhas. repeat split; try assumption.
      * intros Hin. rewrite map_app, in_app_iff. left. now apply Hmem.
      * rewrite map_app, in_app_iff. simpl. intros [Hin|[<-|[]]];
          [now apply Hmem | assumption].
      * now apply Subseq_snoc_skip.
    + assert (Hnot : ~ In (norm p) seen).
      { intros Hin. apply set_has_In in Hin. congruence. }
      unfold set_add. rewrite Hhas. repeat split.
      * rewrite map_app, Hseen. reflexivity.
      * rewrite map_app, !in_app_iff, Hmem. tauto.
      * rewrite map_app, !in_app_iff, Hmem. tauto.
      * apply NoDup_app; [assumption | repeat constructor; simpl; tauto |].
        intros x Hx [<-|[]]. contradiction.
      * now apply Subseq_snoc_keep.
Qed.


Section ValidateFacts.
Variable isValidURL : str -> bool.

Local Abbreviation valid := (DataValidation.valid isValidURL).

Lemma valid_iff_title (p : PaperRecord) :
  valid p = true <-> trim (title p) <> [].
Proof.
  unfold valid, validatePaperRecord. cbn [isValid].
  destruct (title p) as [|c r] eqn:Ht.
  - simpl. split; [discriminate | intros H; now destruct H].
  - rewrite CsvParserFacts.truthy_cons. simpl.
    destruct (trim (c :: r)) as [|c' r']; simpl; split;
      try discriminate; try reflexivity; intros H; now destruct H.
Qed.

(** What the loop of [validatePaperDataset] maintains. *)
Lemma dataset_invariant (papers : list PaperRecord) :
  let st := fold_left (dataset_step isValidURL) papers dataset_init in
  st_validPapers st = filter valid papers
  /\ st_invalidPapers st =
     map (fun p => (p, validatePaperRecord isValidURL p))
       (filter (fun p => negb (valid p)) papers)
  /\ (forall k, In k (st_keysSeen st) <-> In k (map key papers)).
Proof.
  induction papers as [|p ps IH] using rev_ind; cbv zeta.
  - simpl. repeat split; tauto.
  - rewrite fold_left_app. simpl.
    destruct (fold_left (dataset_step isValidURL) ps dataset_init)
      as [vp ip ks dk pw].
    cbv zeta in IH. simpl in IH. destruct IH as (Hv & Hi & Hk).
    assert (Hks : forall k, In k (set_add ks (key p))
                            <-> In k (map key (ps ++ [p]))).
    { intros k. rewrite map_app, in_app_iff. simpl. unfold set_add.
      destruct (set_has ks (key p)) eqn:Hhas.
      - apply set_has_In in Hhas. rewrite Hk. split; [tauto|].
        intros [H|[<-|[]]]; [assumption | now apply Hk].
      - rewrite in_app_iff, Hk. simpl. tauto. }
    unfold dataset_step. rewrite !filter_app.
    change (isValid (validatePaperRecord isValidURL p)) with (valid p).
    cbn [filter]. destruct (valid p); cbn [negb st_validPapers
      st_invalidPapers st_keysSeen].
    + rewrite app_nil_r, Hv, Hi. repeat split; apply Hks.
    + rewrite app_nil_r, map_app, Hv, Hi. repeat split; apply Hks.
Qed.

Lemma filter_partition_length (A : Type) (f : A -> bool) (l : list A) :
  length (filter f l) + length (filter (fun x => negb (f x)) l) = length l.
Proof.
  induction l as [|x r IH]; simpl; [reflexivity|].
  destruct (f x); simpl; lia.
Qed.

(** C10.  [validatePaperDataset] splits its input in two: [validPapers] is
    the list of the input papers whose trimmed title is not empty and
    [invalidPapers] holds all the others, each with its validation result,
    both in input order and with the records as they came in.  The two
    lengths add up to [totalPapers], the length of the input.  A paper
    whose key occurred before only adds that key to [duplicateKeys]; it
    stays in the list its title puts it in. *)
Theorem validatePaperDataset_partitions (papers : list PaperRecord) :
  let r := validatePaperDataset isValidURL papers in
  validPapers r = filter valid papers
  /\ invalidPapers r =
     map (fun p => (p, validatePaperRecord isValidURL p))
       (filter (fun p => negb (valid p)) papers)
  /\ length (validPapers r) + length (invalidPapers r) = length papers
  /\ stats_totalPapers (overallStats r) = length papers
  /\ stats_validPapers (overallStats r) = length (validPapers r)
  /\ (forall p, valid p = true <-> trim (title p) <> [])
  /\ (forall p,
        duplicateKeys (overallStats (validatePaperDataset isValidURL (papers ++ [p])))
        = duplicateKeys (overallStats r)
          ++ (if existsb (str_eqb (key p)) (map key papers)
              then [key p] else [])).
Proof.
  pose proof (dataset_invariant papers) as H. cbv zeta in *.
  destruct H as (Hv & Hi & Hk).
  unfold validatePaperDataset. simpl.
  split; [exact Hv|]. split; [exact Hi|]. split.
  { rewrite Hv, Hi, length_map. apply filter_partition_length. }
  split; [reflexivity|]. split; [reflexivity|].
  split; [exact valid_iff_title|].
  intros p. rewrite fold_left_app. simpl.
  destruct (fold_left (dataset_step isValidURL) papers dataset_init)
    as [vp ip ks dk pw].
  cbn [st_validPapers st_invalidPapers st_keysSeen st_duplicateKeys] in *.
  unfold dataset_step. cbn [st_keysSeen st_duplicateKeys].
  assert (Heq : set_has ks (key p)
                = existsb (str_eqb (key p)) (map key papers)).
  { apply eq_true_iff_eq. rewrite set_has_In, Hk, existsb_exists. split.
    - intros Hin. exists (key p). split; [assumption | apply str_eqb_refl].
    - intros [y [Hin Hy]]. apply str_eqb_eq in Hy. now subst. }
  rewrite <- Heq.
  destruct (isValid (validatePaperRecord isValidURL p));
    destruct (set_has ks (key p)); cbn [st_duplicateKeys];
    now rewrite ?app_nil_r.
Qed.

End ValidateFacts.

(** C10, a title of spaces.  The title of the paper is not empty, it has
    three characters, and [validatePaperDataset] places the paper in
    [invalidPapers]: the check is on the trimmed title. *)
Lemma validatePaperDataset_blank_title :
  title (titled (L "   ")) <> []
  /\ length (title (titled (L "   "))) = 3
  /\ validPapers (validatePaperDataset (fun _ => true) [titled (L "   ")]) = []
  /\ map fst
       (invalidPapers (validatePaperDataset (fun _ => true) [titled (L "   ")]))
     = [titled (L "   ")]
  /\ stats_validPapers
       (overallStats (validatePaperDataset (fun _ => true) [titled (L "   ")]))
     = 0.
Proof.
  split; [intros H; apply (f_equal (@length ascii)) in H; revert H;
          vm_compute; congruence|].
  split; [reflexivity|]. split; [reflexivity|]. split; reflexivity.
Qed.

End DataValidationFacts.

(** ** The text classifier *)

Module TextAnalysisFacts.
Import TextAnalysis.

Lemma Qmax2_short (n : nat) :
  n <= 100 -> Qmax2 (Qof_nat n / 100) 1 = 1%Q.
Proof.
  intros Hn. unfold Qmax2.
  assert (H : Qle_bool (Qof_nat n / 100) 1 = true).
  { apply Qle_bool_iff. unfold Qle, Qof_nat. simpl. lia. }
  now rewrite H.
Qed.

Lemma Qmax2_long (n : nat) :
  100 <= n -> (Qmax2 (Qof_nat n / 100) 1 == Qof_nat n / 100)%Q.
Proof.
  intros Hn. unfold Qmax2.
  destruct (Qle_bool (Qof_nat n / 100) 1) eqn:H; [|reflexivity].
  apply Qle_bool_iff in H. unfold Qle, Qof_nat in H. simpl in H.
  assert (n = 100) by lia. subst n. reflexivity.
Qed.

(** C4, as the claim states it, fails on a text shorter than 100
    characters: the paper below has the text [security] followed by two
    spaces, 10 characters with one match of a security keyword; the score is
    1 and not 1 / (10 / 100) = 10. *)
Lemma classifyPaperTopics_short_text :
  length (fullTextOf shortPaper) = 10
  /\ exists keywords score,
       nth_error TOPIC_KEYWORDS 0 = Some (L "security", keywords)
       /\ rawScore keywords (fullTextOf shortPaper) = 1
       /\ nth_error (classifyPaperTopics shortPaper) 0
          = Some (L "security", score)
       /\ (score == 1)%Q
       /\ ~ (score ==
             Qof_nat (rawScore keywords (fullTextOf shortPaper))
             / (Qof_nat (length (fullTextOf shortPaper)) / 100))%Q.
Proof.
  split; [reflexivity|].
  eexists. eexists. split; [reflexivity|]. split; [vm_compute; reflexivity|].
  split; [vm_compute; reflexivity|]. split; [reflexivity|].
  vm_compute. discriminate.
Qed.

(** *** Whole-word occurrences *)

Lemma lower_letter_word (a : ascii) :
  is_lower_letter a = true ->
  is_word a = true /\ (if is_alpha a then lower_char a else a) = a.
Proof.
  destruct a as [[] [] [] [] [] [] [] []]; vm_compute; intros H;
    try discriminate H; split; reflexivity.
Qed.

Lemma lower_char_idem (c : ascii) : lower_char (lower_char c) = lower_char c.
Proof. destruct c as [[] [] [] [] [] [] [] []]; reflexivity. Qed.

Lemma ch_eqb_ci_lower (a b : ascii) :
  is_lower_letter a = true -> lower_char b = b ->
  ch_eqb_ci a b = ch_eqb a b.
Proof.
  intros Ha Hb. unfold ch_eqb_ci.
  rewrite (proj2 (@lower_letter_word a Ha)).
  destruct (is_alpha b); [rewrite Hb|]; reflexivity.
Qed.

Lemma startsWith_ci_lower (keyword : str) :
  forallb is_lower_letter keyword = true ->
  forall s, Forall (fun c => lower_char c = c) s ->
            startsWith_ci s keyword = startsWith s keyword.
Proof.
  induction keyword as [|a p IH]; intros Hk s Hs; [now destruct s|].
  cbn [forallb] in Hk. apply andb_true_iff in Hk. destruct Hk as [Ha Hp].
  destruct s as [|b s']; [reflexivity|]. inversion Hs as [|? ? Hb Hs']; subst.
  cbn [startsWith_ci startsWith].
  rewrite (@ch_eqb_ci_lower a b Ha Hb), (IH Hp s' Hs'). reflexivity.
Qed.

(** Where the text reads a keyword, it starts with word characters as far
    as the keyword goes. *)
Lemma startsWith_word_chars (keyword : str) :
  forallb is_lower_letter keyword = true ->
  forall s, startsWith s keyword = true ->
            forallb is_word (firstn (length keyword) s) = true
            /\ firstn (length keyword) s = keyword.
Proof.
  induction keyword as [|a p IH]; intros Hk s Hs; [split; reflexivity|].
  cbn [forallb] in Hk. apply andb_true_iff in Hk. destruct Hk as [Ha Hp].
  destruct s as [|b s']; [discriminate Hs|].
  cbn [startsWith] in Hs. apply andb_true_iff in Hs. destruct Hs as [Hab Hs].
  apply Ascii.eqb_eq in Hab. subst b.
  destruct (IH Hp s' Hs) as [Hw Hf].
  cbn [length firstn forallb]. rewrite Hw, Hf.
  rewrite (proj1 (@lower_letter_word a Ha)). split; reflexivity.
Qed.

Lemma lower_letters_rev_head (keyword : str) :
  plain_keyword keyword = true ->
  head_is_word keyword = true /\ head_is_word (rev keyword) = true.
Proof.
  unfold plain_keyword. intros H. apply andb_true_iff in H.
  destruct H as [Hne Hall].
  assert (Hin : forall l : str,
            (forall c, In c l -> In c keyword) -> l <> [] ->
            head_is_word l = true).
  { intros [|c l] Hl Hn; [now destruct Hn|]. cbn [head_is_word].
    rewrite forallb_forall in Hall.
    apply (@lower_letter_word c). apply Hall, Hl. now left. }
  split.
  - apply Hin; [auto|]. now destruct keyword.
  - apply Hin; [intros c Hc; now apply in_rev|].
    destruct keyword as [|a p]; [discriminate Hne|]. cbn [rev].
    now destruct (rev p).
Qed.

(** For a keyword of the table and a lower-cased text, the pattern
    matches at the front of [s] exactly when the keyword stands there as a
    whole word. *)
Lemma word_match_at_whole (keyword : str) (prev_w : bool) (s : str) :
  plain_keyword keyword = true ->
  Forall (fun c => lower_char c = c) s ->
  word_match_at keyword prev_w s = wholeWordHere keyword prev_w s.
Proof.
  intros Hk Hs. unfold word_match_at, wholeWordHere.
  pose proof Hk as Hk'. unfold plain_keyword in Hk'.
  apply andb_true_iff in Hk'. destruct Hk' as [_ Hall].
  rewrite (@startsWith_ci_lower keyword Hall s Hs).
  destruct (startsWith s keyword) eqn:E.
  - destruct (@startsWith_word_chars keyword Hall s E) as [_ Hf]. rewrite Hf.
    destruct (@lower_letters_rev_head keyword Hk) as [Hh Hr]. rewrite Hr.
    assert (Hs0 : head_is_word s = true).
    { destruct keyword as [|a p]; [discriminate Hh|].
      destruct s as [|b s']; [discriminate E|].
      cbn [startsWith] in E. apply andb_true_iff in E.
      destruct E as [Hab _]. apply Ascii.eqb_eq in Hab. subst b. exact Hh. }
    rewrite Hs0.
    destruct prev_w, (head_is_word (skipn (length keyword) s)); reflexivity.
  - rewrite andb_false_r. reflexivity.
Qed.

(** The matches that the search finds one after the other are all the
    whole-word occurrences: no occurrence starts inside another. *)
Lemma count_matches_occurrences (keyword : str) :
  plain_keyword keyword = true ->
  forall s prev_w skip,
    Forall (fun c => lower_char c = c) s ->
    skip = 0 \/ (prev_w = true /\ forallb is_word (firstn skip s) = true) ->
    count_matches keyword s prev_w skip = occurrencesFrom keyword prev_w s.
Proof.
  intros Hk. pose proof Hk as Hk'. unfold plain_keyword in Hk'.
  apply andb_true_iff in Hk'. destruct Hk' as [Hne Hall].
  induction s as [|c r IH]; intros prev_w skip Hs Hskip; [reflexivity|].
  inversion Hs as [|? ? Hc Hr]; subst.
  cbn [count_matches occurrencesFrom]. destruct skip as [|k].
  - rewrite (@word_match_at_whole keyword prev_w (c :: r) Hk Hs).
    destruct (wholeWordHere keyword prev_w (c :: r)) eqn:E.
    + cbn [Nat.add]. f_equal. apply IH; [exact Hr|]. right.
      unfold wholeWordHere in E. apply andb_true_iff in E.
      destruct E as [E _]. apply andb_true_iff in E. destruct E as [E _].
      destruct (@startsWith_word_chars keyword Hall (c :: r) E) as [Hw _].
      destruct keyword as [|a p]; [discriminate Hne|].
      cbn [length firstn forallb] in Hw. apply andb_true_iff in Hw.
      cbn [length]. rewrite Nat.sub_1_r. cbn [Nat.pred]. exact Hw.
    + apply IH; [exact Hr | now left].
  - destruct Hskip as [Hskip | [Hp Hw]]; [discriminate Hskip|]. subst prev_w.
    cbn [firstn forallb] in Hw. apply andb_true_iff in Hw.
    destruct Hw as [Hwc Hwr].
    assert (E : wholeWordHere keyword true (c :: r) = false).
    { unfold wholeWordHere. cbn [negb]. now rewrite andb_false_r. }
    rewrite E. cbn [Nat.add]. apply IH; [exact Hr|].
    destruct k; [now left | right; split; assumption].
Qed.

Lemma skipn_app_length (A : Type) (pre s : list A) (n : nat) :
  skipn (length pre + n) (pre ++ s) = skipn n s.
Proof. induction pre as [|x pre IH]; [reflexivity | exact IH]. Qed.

(** Counting along the text counts the positions. *)
Lemma occurrences_positions (keyword : str) (s : str) :
  forall pre,
    length (filter (wholeWordAt keyword (pre ++ s))
              (seq (length pre) (length s)))
    = occurrencesFrom keyword (head_is_word (rev pre)) s.
Proof.
  induction s as [|c r IH]; intros pre; [reflexivity|].
  cbn [length seq filter occurrencesFrom].
  assert (Hat : wholeWordAt keyword (pre ++ c :: r) (length pre)
                = wholeWordHere keyword (head_is_word (rev pre)) (c :: r)).
  { unfold wholeWordAt, wholeWordHere.
    rewrite (@skipn_app_length ascii pre (c :: r) (length keyword)).
    replace (skipn (length pre) (pre ++ c :: r)) with (c :: r)
      by (rewrite <- (Nat.add_0_r (length pre)); symmetry;
          apply (@skipn_app_length ascii pre (c :: r) 0)).
    f_equal. f_equal. f_equal.
    destruct pre as [|x p] using rev_ind; [reflexivity|].
    rewrite length_app, Nat.add_1_r, <- app_assoc, rev_unit.
    rewrite <- (Nat.add_0_r (length p)).
    rewrite (@skipn_app_length ascii p ([x] ++ c :: r) 0). reflexivity. }
  rewrite Hat.
  specialize (IH (pre ++ [c])).
  rewrite <- app_assoc, length_app, Nat.add_1_r, rev_unit in IH.
  cbn [app head_is_word] in IH.
  destruct (wholeWordHere keyword (head_is_word (rev pre)) (c :: r));
    cbn [length Nat.add]; now rewrite IH.
Qed.

Lemma count_matches_whole_words (keyword text : str) :
  plain_keyword keyword = true ->
  count_matches keyword (toLowerCase text) false 0
  = wholeWordOccurrences keyword (toLowerCase text).
Proof.
  intros Hk. unfold wholeWordOccurrences.
  pose proof (@occurrences_positions keyword (toLowerCase text) []) as Hp.
  cbn [app length rev head_is_word] in Hp. rewrite Hp.
  apply (@count_matches_occurrences keyword Hk); [|now left].
  unfold toLowerCase. apply Forall_forall. intros c Hc.
  apply in_map_iff in Hc. destruct Hc as [b [<- _]]. apply lower_char_idem.
Qed.

Lemma rawScore_sum (keywords : list str) (fullText : str) :
  rawScore keywords fullText
  = list_sum (map (fun keyword => count_matches keyword fullText false 0)
                keywords).
Proof.
  unfold rawScore.
  assert (H : forall l a,
            fold_left (fun score keyword =>
                         score + count_matches keyword fullText false 0) l a
            = a + list_sum (map (fun keyword =>
                                   count_matches keyword fullText false 0) l)).
  { induction l as [|k l IH]; intros a; simpl; [lia | rewrite IH; lia]. }
  apply (H keywords 0).
Qed.

Lemma table_keywords_plain (i : nat) (topic : str) (keywords : list str) :
  nth_error TOPIC_KEYWORDS i = Some (topic, keywords) ->
  forallb plain_keyword keywords = true.
Proof.
  intros Hi. apply nth_error_In in Hi.
  assert (H : forallb (fun e => forallb plain_keyword (snd e)) TOPIC_KEYWORDS
              = true) by (vm_compute; reflexivity).
  rewrite forallb_forall in H. exact (H _ Hi).
Qed.

(** The raw score of a topic of the table is the number of whole-word
    occurrences of its keywords in the lower-cased text. *)
Lemma rawScore_whole_words (i : nat) (topic : str) (keywords : list str)
    (text : str) :
  nth_error TOPIC_KEYWORDS i = Some (topic, keywords) ->
  rawScore keywords (toLowerCase text)
  = list_sum (map (fun keyword =>
                     wholeWordOccurrences keyword (toLowerCase text))
                keywords).
Proof.
  intros Hi. rewrite rawScore_sum. f_equal. apply map_ext_in.
  intros k Hk. apply count_matches_whole_words.
  pose proof (@table_keywords_plain i topic keywords Hi) as H.
  rewrite forallb_forall in H. exact (H k Hk).
Qed.

(** C4 (amended).  The text of a paper is its title, its abstract and its
    tags joined by spaces, each part separated by a space, in lower case.
    [classifyPaperTopics] gives every topic of the table, in table order,
    the number of whole-word occurrences of its keywords in that text (the
    positions where a keyword stands with no word character before or
    after it, summed over the keywords), divided by [max (length / 100) 1]:
    by [length / 100] when the text has at least 100 characters, and by 1,
    that is not at all, when it is shorter. *)
Theorem classifyPaperTopics_score (paper : PaperRecord) (i : nat)
    (topic : str) (keywords : list str) :
  nth_error TOPIC_KEYWORDS i = Some (topic, keywords) ->
  let text :=
    toLowerCase
      (title paper ++ L " " ++ abstract paper ++ L " "
       ++ join (L " ") (tags paper)) in
  let count :=
    list_sum (map (fun keyword => wholeWordOccurrences keyword text) keywords) in
  exists score,
    nth_error (classifyPaperTopics paper) i = Some (topic, score)
    /\ (100 <= length text ->
        (score == Qof_nat count / (Qof_nat (length text) / 100))%Q)
    /\ (length text < 100 -> (score == Qof_nat count)%Q)
    /\ length (classifyPaperTopics paper) = length TOPIC_KEYWORDS.
Proof.
  intros Hi text count. unfold classifyPaperTopics.
  change (fullTextOf paper) with text.
  rewrite nth_error_map, Hi. cbn [option_map].
  unfold text at 1. rewrite (@rawScore_whole_words i topic keywords _ Hi).
  fold text. fold count.
  eexists. split; [reflexivity|]. split; [|split].
  - intros Hlen. now rewrite (Qmax2_long Hlen).
  - intros Hlen. rewrite Qmax2_short by lia. unfold Qdiv.
    change (/ 1)%Q with 1%Q. apply Qmult_1_r.
  - apply length_map.
Qed.

(** The theorem at the short paper and the first topic of the table: the
    text is [security] and two spaces, the keyword [security] stands in it
    once, at position 0, no other keyword of the topic occurs, and the
    score is 1. *)
Lemma classifyPaperTopics_score_short :
  exists keywords score,
    nth_error TOPIC_KEYWORDS 0 = Some (L "security", keywords)
    /\ length (fullTextOf shortPaper) < 100
    /\ filter (wholeWordAt (L "security") (fullTextOf shortPaper))
         (seq 0 (length (fullTextOf shortPaper))) = [0]
    /\ list_sum (map (fun keyword =>
                        wholeWordOccurrences keyword (fullTextOf shortPaper))
                   keywords) = 1
    /\ nth_error (classifyPaperTopics shortPaper) 0 = Some (L "security", score)
    /\ (score == 1)%Q.
Proof.
  eexists.
  destruct (@classifyPaperTopics_score shortPaper 0 (L "security") _ eq_refl)
    as [score [Hnth [_ [Hshort _]]]].
  exists score. split; [reflexivity|].
  assert (Hlen : length (fullTextOf shortPaper) < 100)
    by (vm_compute; repeat constructor).
  split; [exact Hlen|]. split; [vm_compute; reflexivity|].
  split; [vm_compute; reflexivity|]. split; [exact Hnth|].
  exact (Hshort Hlen).
Defined.

End TextAnalysisFacts.

(** ** The gap analyzer: topical gaps *)

Module ResearchGapFacts.
Import TextAnalysis ResearchGapAnalysis.

Lemma Qgtb_lt (a b : Q) : Qgtb a b = true <-> (b < a)%Q.
Proof.
  unfold Qgtb. rewrite negb_true_iff. split.
  - intros H. apply Qnot_le_lt. intros Hle.
    apply Qle_bool_iff in Hle. congruence.
  - intros H. destruct (Qle_bool a b) eqn:E; [|reflexivity].
    apply Qle_bool_iff in E. exfalso. exact (Qlt_not_le _ _ H E).
Qed.

Lemma mapi_from_nth (A B : Type) (f : nat -> A -> B) (l : list A) :
  forall s k, nth_error (mapi_from f s l) k
              = option_map (f (s + k)) (nth_error l k).
Proof.
  induction l as [|x r IH]; intros s k.
  - destruct k; reflexivity.
  - destruct k; simpl.
    + now rewrite Nat.add_0_r.
    + rewrite IH. now rewrite Nat.add_succ_r.
Qed.


(** A number above a positive one is above zero. *)
Lemma gt_positive (g : Double.double) (m : positive) (e : Z) :
  Double.gt g (SpecFloat.S754_finite false m e) = true ->
  Double.gt g (Double.ofZ 0) = true.
Proof.
  unfold Double.gt, SpecFloat.SFltb.
  destruct g as [s|s| |s m' e']; try destruct s; simpl; congruence.
Qed.

Lemma gt_5_0 (g : Double.double) :
  Double.gt g (Double.ofZ 5) = true -> Double.gt g (Double.ofZ 0) = true.
Proof.
  assert (E : exists m e, Double.ofZ 5 = SpecFloat.S754_finite false m e)
    by (vm_compute; eauto).
  destruct E as (m & e & ->). apply gt_positive.
Qed.

(** The papers of the first list whose key is a key of the second. *)
Lemma sharedPapers_keys (t1 t2 : TopicCluster.t) :
  sharedPapers t1 t2
  = filter (fun p =>
              DataValidation.set_has (map key (TopicCluster.papers t2)) (key p))
      (TopicCluster.papers t1).
Proof.
  unfold sharedPapers. apply filter_ext. intros p.
  unfold DataValidation.set_has.
  induction (TopicCluster.papers t2) as [|q l IH]; [reflexivity|].
  cbn [map existsb]. rewrite IH. f_equal.
  destruct (str_eqb (key q) (key p)) eqn:E.
  - apply str_eqb_eq in E. rewrite E. symmetry. apply str_eqb_refl.
  - symmetry. apply str_eqb_neq. apply str_eqb_neq in E. congruence.
Qed.

Section AnalyzerFacts.
Variable papers : list PaperRecord.
Variable topicClusters : list TopicCluster.t.
Variable currentYear : Z.

Local Abbreviation inter := (intersectionOf papers).

Lemma In_intersectionsFrom (cs : list TopicCluster.t) (x : TopicIntersection) :
  In x (intersectionsFrom papers cs) <->
  exists i j t1 t2,
    i < j /\ nth_error cs i = Some t1 /\ nth_error cs j = Some t2
    /\ x = inter t1 t2 /\ Double.gt (gapSize x) (Double.ofZ 0) = true.
Proof.
  induction cs as [|c cs IH]; simpl.
  - split; [tauto|]. intros (i & j & t1 & t2 & _ & Hi & _). now destruct i.
  - rewrite in_app_iff, IH. unfold pushIntersections.
    rewrite filter_In, in_map_iff. split.
    + intros [[[t2 [Hx Hin]] Hgap] | (i & j & t1 & t2 & Hij & Hi & Hj & Hx & Hgap)].
      * apply In_nth_error in Hin. destruct Hin as [j Hj].
        exists 0, (S j), c, t2.
        split; [lia|]. split; [reflexivity|]. split; [exact Hj|].
        split; [symmetry; exact Hx | exact Hgap].
      * exists (S i), (S j), t1, t2.
        split; [lia|]. split; [exact Hi|]. split; [exact Hj|].
        split; [exact Hx | exact Hgap].
    + intros (i & j & t1 & t2 & Hij & Hi & Hj & Hx & Hgap).
      destruct j as [|j]; [lia|]. simpl in Hj. destruct i as [|i].
      * simpl in Hi. injection Hi as <-. left. split.
        -- exists t2. split; [auto | eapply nth_error_In; eauto].
        -- exact Hgap.
      * right. exists i, j, t1, t2.
        split; [lia|]. split; [exact Hi|]. split; [exact Hj|].
        split; [exact Hx | exact Hgap].
Qed.

Lemma In_findTopicIntersections (x : TopicIntersection) :
  In x (findTopicIntersections papers topicClusters)
  <-> In x (intersectionsFrom papers topicClusters).
Proof. apply stable_sort_In. Qed.

Lemma underResearched_iff (x : TopicIntersection) :
  underResearched x = true
  <-> Double.gt (gapSize x) (Double.ofZ 5) = true
      /\ Double.gt (potentialImpact x) (Double.ofQ (7 # 10)) = true.
Proof. unfold underResearched. apply andb_true_iff. Qed.

(** The gaps of [analyzeTopicalGaps]: one for each under-researched
    intersection, numbered from 0, and then the stagnant one if any. *)
Lemma analyzeTopicalGaps_nth (k : nat) (g : ResearchGap) :
  nth_error (analyzeTopicalGaps papers topicClusters currentYear) k = Some g ->
  (exists x,
     nth_error (filter underResearched
                  (findTopicIntersections papers topicClusters)) k = Some x
     /\ g = topicalGap k x)
  \/ exists st em, g = stagnantGap st em.
Proof.
  unfold analyzeTopicalGaps. cbv zeta.
  set (l := filter underResearched _).
  assert (Hgaps : nth_error (mapi_from topicalGap 0 l) k = Some g ->
                  exists x, nth_error l k = Some x /\ g = topicalGap k x).
  { rewrite mapi_from_nth. simpl.
    destruct (nth_error l k) as [x|]; [|discriminate].
    intros [= <-]. eauto. }
  destruct (0 <? length _); [|intros H; left; now apply Hgaps].
  intros H. destruct (Nat.lt_ge_cases k (length (mapi_from topicalGap 0 l)))
    as [Hlt|Hge].
  - rewrite nth_error_app1 in H by assumption. left. now apply Hgaps.
  - rewrite nth_error_app2 in H by assumption. right.
    destruct (k - _) as [|[|m]]; simpl in H; try discriminate.
    injection H as <-. eauto.
Qed.

(** C8.  All numbers are IEEE doubles and every operation rounds to the
    nearest one.  For the clusters at positions [i < j], with [shared] the
    number of papers of the first whose key is a key of a paper of the
    second, the record of the pair holds
    [expected = round (corpus x ((covA / 100) x (covB / 100)) x 0.3)],
    [gap = max 0 (expected - shared)] and
    [impact = min 1 (((covA + covB) / 200) x difference)], where the
    difference is 1.5 for labels of two domains and 1 otherwise.  A topical
    gap built from that record is in the output exactly when [gap > 5] and
    [impact > 0.7].  Such a gap has severity high when [gap > 15], medium
    when [gap > 10] and low otherwise, it reports [expected], [shared] and
    [gap], and [opportunityScore = (impact x (gap / 20)) x 100].  Every gap
    of the output other than the stagnant one is the gap of such a pair. *)
Theorem analyzeTopicalGaps_reports_pair (i j : nat) (t1 t2 : TopicCluster.t) :
  i < j ->
  nth_error topicClusters i = Some t1 ->
  nth_error topicClusters j = Some t2 ->
  let covA := Double.ofQ (TopicCluster.coverage t1) in
  let covB := Double.ofQ (TopicCluster.coverage t2) in
  let expected :=
    Double.round
      (Double.mul
         (Double.mul (Double.ofNat (length papers))
            (Double.mul (Double.div covA (Double.ofZ 100))
               (Double.div covB (Double.ofZ 100))))
         (Double.ofQ (3 # 10))) in
  let shared :=
    length
      (filter (fun p =>
                 DataValidation.set_has (map key (TopicCluster.papers t2))
                   (key p))
         (TopicCluster.papers t1)) in
  let gap :=
    Double.max (Double.ofZ 0) (Double.sub expected (Double.ofNat shared)) in
  let impact :=
    Double.min (Double.ofZ 1)
      (Double.mul (Double.div (Double.add covA covB) (Double.ofZ 200))
         (if str_eqb (domainOf (TopicCluster.label t1))
               (domainOf (TopicCluster.label t2))
          then Double.ofZ 1 else Double.ofQ (3 # 2))) in
  let gaps := analyzeTopicalGaps papers topicClusters currentYear in
  gapSize (inter t1 t2) = gap
  /\ potentialImpact (inter t1 t2) = impact
  /\ ((exists k, nth_error gaps k = Some (topicalGap k (inter t1 t2)))
      <-> Double.gt gap (Double.ofZ 5) = true
          /\ Double.gt impact (Double.ofQ (7 # 10)) = true)
  /\ (forall k,
        severity (topicalGap k (inter t1 t2)) =
        if Double.gt gap (Double.ofZ 15) then high
        else if Double.gt gap (Double.ofZ 10) then medium else low)
  /\ (forall k,
        supportingData (evidence (topicalGap k (inter t1 t2)))
        = IntersectionData expected shared gap)
  /\ (forall k,
        opportunityScore (topicalGap k (inter t1 t2))
        = Double.mul (Double.mul impact (Double.div gap (Double.ofZ 20)))
            (Double.ofZ 100))
  /\ (forall k g, nth_error gaps k = Some g ->
        (exists st em, g = stagnantGap st em)
        \/ exists i' j' u1 u2,
             i' < j' /\ nth_error topicClusters i' = Some u1
             /\ nth_error topicClusters j' = Some u2
             /\ g = topicalGap k (inter u1 u2)
             /\ Double.gt (gapSize (inter u1 u2)) (Double.ofZ 5) = true
             /\ Double.gt (potentialImpact (inter u1 u2))
                  (Double.ofQ (7 # 10)) = true).
Proof.
  intros Hij Hi Hj covA covB expected shared gap impact gaps.
  assert (Hact : actualPapers (inter t1 t2) = shared).
  { unfold intersectionOf. cbn [actualPapers]. unfold shared.
    now rewrite sharedPapers_keys. }
  assert (Hexp : expectedPapers (inter t1 t2) = expected) by reflexivity.
  assert (Hgap : gapSize (inter t1 t2) = gap).
  { unfold intersectionOf. cbn [gapSize]. unfold gap, shared.
    now rewrite sharedPapers_keys. }
  assert (Himp : potentialImpact (inter t1 t2) = impact).
  { unfold intersectionOf. cbn [potentialImpact].
    unfold calculateTopicComplementarity, assessDomainDifference, impact.
    cbv zeta. now destruct (str_eqb _ _). }
  split; [exact Hgap|]. split; [exact Himp|].
  split; [|split; [|split; [|split]]].
  - rewrite <- Hgap, <- Himp. split.
    + intros [k Hk]. apply analyzeTopicalGaps_nth in Hk.
      destruct Hk as [[x [Hx Heq]] | [st [em Heq]]].
      * apply nth_error_In, filter_In in Hx. destruct Hx as [_ Hx].
        apply underResearched_iff in Hx.
        assert (Hg : gapSize x = gapSize (inter t1 t2)).
        { apply (f_equal (fun g => supportingData (evidence g))) in Heq.
          cbn [evidence supportingData topicalGap] in Heq. congruence. }
        assert (Hp : potentialImpact x = potentialImpact (inter t1 t2)).
        { apply (f_equal (fun g => ev_potentialImpact (evidence g))) in Heq.
          cbn [evidence ev_potentialImpact topicalGap] in Heq. congruence. }
        now rewrite <- Hg, <- Hp.
      * apply (f_equal (fun g => supportingData (evidence g))) in Heq.
        discriminate.
    + intros Hc.
      assert (Hin : In (inter t1 t2)
                      (filter underResearched
                         (findTopicIntersections papers topicClusters))).
      { apply filter_In. split; [|now apply underResearched_iff].
        apply In_findTopicIntersections, In_intersectionsFrom.
        exists i, j, t1, t2.
        split; [exact Hij|]. split; [exact Hi|]. split; [exact Hj|].
        split; [reflexivity|]. apply gt_5_0, Hc. }
      apply In_nth_error in Hin. destruct Hin as [k Hk]. exists k.
      unfold gaps, analyzeTopicalGaps. cbv zeta.
      assert (Hm : nth_error
                (mapi_from topicalGap 0
                   (filter underResearched
                      (findTopicIntersections papers topicClusters))) k
              = Some (topicalGap k (inter t1 t2))).
      { rewrite mapi_from_nth, Hk. reflexivity. }
      destruct (0 <? length _); [|exact Hm].
      rewrite nth_error_app1; [exact Hm|].
      apply nth_error_Some. rewrite Hm. discriminate.
  - intros k. cbn [severity topicalGap]. now rewrite Hgap.
  - intros k. cbn [supportingData evidence topicalGap].
    now rewrite Hgap, Hact, Hexp.
  - intros k. cbn [opportunityScore topicalGap]. now rewrite Hgap, Himp.
  - intros k g Hk. apply analyzeTopicalGaps_nth in Hk.
    destruct Hk as [[x [Hx Heq]] | Hst]; [right | now left].
    apply nth_error_In, filter_In in Hx. destruct Hx as [Hin Hx].
    apply underResearched_iff in Hx.
    apply In_findTopicIntersections, In_intersectionsFrom in Hin.
    destruct Hin as (i' & j' & u1 & u2 & Hlt & Hi' & Hj' & -> & _).
    exists i', j', u1, u2.
    split; [exact Hlt|]. split; [exact Hi'|]. split; [exact Hj'|].
    split; [exact Heq|]. exact Hx.
Qed.

End AnalyzerFacts.

(** C8, the formula read over the rationals.  In a corpus of 200 papers,
    a cluster of 72 papers with coverage 36 and a cluster of 125 papers
    with coverage 62.5 share 8 papers.  Over the rationals the expected
    overlap is 13.5, which rounds to 14 and leaves a gap of 6, and the
    impact of the pair is above 0.7; the analyzer computes
    13.499999999999998, which rounds to 13 and leaves a gap of 5, and
    reports nothing. *)
Lemma analyzeTopicalGaps_rounds_doubles :
  exists t1 t2,
    gapClusters 64 = [t1; t2]
    /\ length gapCorpus = 200
    /\ TopicCluster.coverage t1 = 36%Q
    /\ TopicCluster.coverage t2 = (125 # 2)%Q
    /\ length
         (filter (fun p =>
                    DataValidation.set_has (map key (TopicCluster.papers t2))
                      (key p))
            (TopicCluster.papers t1)) = 8
    /\ gapSizeOverRationals 200 36 (125 # 2) 8 = 6%Z
    /\ Double.gt (calculateTopicComplementarity t1 t2) (Double.ofQ (7 # 10))
       = true
    /\ expectedPapers (intersectionOf gapCorpus t1 t2) = Double.ofZ 13
    /\ gapSize (intersectionOf gapCorpus t1 t2) = Double.ofZ 5
    /\ Double.gt (gapSize (intersectionOf gapCorpus t1 t2)) (Double.ofZ 5)
       = false
    /\ analyzeTopicalGaps gapCorpus (gapClusters 64) 2025 = [].
Proof.
  eexists. eexists. split; [reflexivity|].
  split; [reflexivity|]. split; [reflexivity|]. split; [reflexivity|].
  split; [vm_compute; reflexivity|]. split; [vm_compute; reflexivity|].
  split; [vm_compute; reflexivity|]. split; [vm_compute; reflexivity|].
  split; [vm_compute; reflexivity|]. split; vm_compute; reflexivity.
Qed.

(** The theorem at the same corpus when the clusters share 7 papers: the
    expected overlap is 13, the gap is 6, and the gap of the pair is
    reported with severity low. *)
Lemma analyzeTopicalGaps_reports_pair_sample :
  exists t1 t2,
    0 < 1
    /\ nth_error (gapClusters 65) 0 = Some t1
    /\ nth_error (gapClusters 65) 1 = Some t2
    /\ actualPapers (intersectionOf gapCorpus t1 t2) = 7
    /\ gapSize (intersectionOf gapCorpus t1 t2) = Double.ofZ 6
    /\ (exists k,
          nth_error (analyzeTopicalGaps gapCorpus (gapClusters 65) 2025) k
          = Some (topicalGap k (intersectionOf gapCorpus t1 t2)))
    /\ severity (topicalGap 0 (intersectionOf gapCorpus t1 t2)) = low.
Proof.
  eexists. eexists.
  split; [exact Nat.lt_0_1|]. split; [reflexivity|]. split; [reflexivity|].
  destruct (@analyzeTopicalGaps_reports_pair gapCorpus (gapClusters 65)
              2025%Z 0 1 _ _ Nat.lt_0_1 eq_refl eq_refl)
    as (Hgap & _ & Hiff & Hsev & _).
  split; [vm_compute; reflexivity|].
  split; [rewrite Hgap; vm_compute; reflexivity|].
  split.
  - apply Hiff. split; vm_compute; reflexivity.
  - rewrite Hsev. vm_compute. reflexivity.
Defined.

End ResearchGapFacts.

(** ** The author network: similar names *)

Module AuthorNameFacts.
Import DataValidation AuthorAnalysis.

Lemma countMatches_le (p1 p2 : list str) : countMatches p1 p2 <= length p1.
Proof.
  revert p2. induction p1 as [|a r IH]; intros [|b r2]; simpl; try lia.
  specialize (IH r2). destruct (partsMatch a b); lia.
Qed.

Lemma countMatches_all (p1 p2 : list str) :
  length p1 = length p2 ->
  (countMatches p1 p2 = length p1
   <-> Forall2 (fun a b => partsMatch a b = true) p1 p2).
Proof.
  revert p2. induction p1 as [|a r IH]; intros [|b r2]; simpl;
    try discriminate.
  - intros _. split; [constructor | reflexivity].
  - intros [= Hlen]. pose proof (countMatches_le r r2) as Hle.
    destruct (partsMatch a b) eqn:Hab; simpl.
    + split.
      * intros H. constructor; [assumption | apply (IH r2 Hlen); lia].
      * intros H. inversion H; subst. f_equal. now apply (IH r2 Hlen).
    + split; [lia|]. intros H. inversion H; subst. congruence.
Qed.

(** Two names are similar exactly when they are equal, or have the same
    number of parts with every pair of parts matching; the branch for two
    parts in swapped order is never reached with two parts on each side. *)
Lemma areAuthorNamesSimilar_iff (name1 name2 : str) :
  areAuthorNamesSimilar name1 name2 = true <->
  name1 = name2
  \/ (length (split_on space name1) = length (split_on space name2)
      /\ Forall2 (fun a b => partsMatch a b = true)
           (split_on space name1) (split_on space name2)).
Proof.
  unfold areAuthorNamesSimilar.
  destruct (str_eqb name1 name2) eqn:Heq.
  - apply str_eqb_eq in Heq. tauto.
  - apply str_eqb_neq in Heq.
    destruct (Nat.eqb_spec (length (split_on space name1))
                (length (split_on space name2))) as [Hlen|Hlen].
    + rewrite Nat.eqb_eq, (countMatches_all _ _ Hlen). tauto.
    + destruct (Nat.eqb_spec (length (split_on space name1)) 2) as [H1|H1];
        destruct (Nat.eqb_spec (length (split_on space name2)) 2) as [H2|H2];
        simpl; try (split; [discriminate | tauto]).
      congruence.
Qed.

(** C2.  After cleaning, [J. Smith] is [j. smith]: its first part has two
    characters, so it is no initial, and [areAuthorNamesSimilar] answers
    false against [john smith], as it does for [john smith] and
    [jane smith].  Without the dot the initial matches.  Two names of two
    parts in swapped order are not similar either: with equal part counts
    the function returns from the part-by-part comparison. *)
Theorem areAuthorNamesSimilar_initial_with_dot :
  cleanAuthorName (L "J. Smith") = L "j. smith"
  /\ cleanAuthorName (L "John Smith") = L "john smith"
  /\ areAuthorNamesSimilar (cleanAuthorName (L "J. Smith"))
       (cleanAuthorName (L "John Smith")) = false
  /\ areAuthorNamesSimilar (cleanAuthorName (L "John Smith"))
       (cleanAuthorName (L "Jane Smith")) = false
  /\ areAuthorNamesSimilar (cleanAuthorName (L "J Smith"))
       (cleanAuthorName (L "John Smith")) = true
  /\ areAuthorNamesSimilar (cleanAuthorName (L "Smith John"))
       (cleanAuthorName (L "John Smith")) = false
  /\ (forall name1 name2,
        areAuthorNamesSimilar name1 name2 = true <->
        name1 = name2
        \/ (length (split_on space name1) = length (split_on space name2)
            /\ Forall2 (fun a b => partsMatch a b = true)
                 (split_on space name1) (split_on space name2))).
Proof.
  repeat split; try reflexivity; apply areAuthorNamesSimilar_iff.
Qed.

End AuthorNameFacts.

(** ** Maps in insertion order *)

Module MapFacts.
Import DataValidation AuthorAnalysis.

Lemma map_has_In (V : Type) (m : list (str * V)) (k : str) :
  map_has m k = true <-> In k (keys m).
Proof.
  unfold map_has. induction m as [|[k' v] r IH]; simpl.
  - split; [discriminate | tauto].
  - destruct (str_eqb k k') eqn:E.
    + apply str_eqb_eq in E. subst. tauto.
    + apply str_eqb_neq in E. rewrite IH. split; [tauto|].
      intros [H|H]; [congruence | assumption].
Qed.

Lemma map_get_In (V : Type) (m : list (str * V)) (k : str) (v : V) :
  map_get m k = Some v -> In (k, v) m.
Proof.
  induction m as [|[k' v'] r IH]; simpl; [discriminate|].
  destruct (str_eqb k k') eqn:E.
  - apply str_eqb_eq in E. intros [= ->]. subst. now left.
  - intros H. right. now apply IH.
Qed.

Lemma map_set_keys (V : Type) (m : list (str * V)) (k : str) (v : V) :
  keys (map_set m k v) = if map_has m k then keys m else keys m ++ [k].
Proof.
  unfold map_has. induction m as [|[k' v'] r IH]; simpl; [reflexivity|].
  destruct (str_eqb k k') eqn:E; simpl; [reflexivity|].
  rewrite IH. now destruct (map_get r k).
Qed.

Lemma map_get_set (V : Type) (m : list (str * V)) (k k' : str) (v : V) :
  map_get (map_set m k v) k' = if str_eqb k' k then Some v else map_get m k'.
Proof.
  induction m as [|[k0 v0] r IH]; simpl.
  - reflexivity.
  - destruct (str_eqb k k0) eqn:E; simpl.
    + apply str_eqb_eq in E. subst k0.
      destruct (str_eqb k' k); reflexivity.
    + rewrite IH. destruct (str_eqb k' k0) eqn:E0; [|reflexivity].
      apply str_eqb_eq in E0. subst k0.
      destruct (str_eqb k' k) eqn:E1; [|reflexivity].
      apply str_eqb_eq in E1. subst. rewrite str_eqb_refl in E. discriminate.
Qed.

Lemma map_set_In_keys (V : Type) (m : list (str * V)) (k k' : str) (v : V) :
  In k' (keys (map_set m k v)) <-> k' = k \/ In k' (keys m).
Proof.
  rewrite map_set_keys. destruct (map_has m k) eqn:E.
  - apply map_has_In in E. split; [tauto|]. intros [->|H]; assumption.
  - rewrite in_app_iff. simpl. split.
    + intros [H|[H|[]]]; [tauto | now left].
    + intros [->|H]; auto.
Qed.

Lemma map_set_NoDup (V : Type) (m : list (str * V)) (k : str) (v : V) :
  NoDup (keys m) -> NoDup (keys (map_set m k v)).
Proof.
  intros Hnd. rewrite map_set_keys. destruct (map_has m k) eqn:E; [assumption|].
  apply NoDup_app; [assumption | repeat constructor; simpl; tauto |].
  intros x Hx [<-|[]]. apply map_has_In in Hx. congruence.
Qed.

(** The values of a map after [set]: the new one, or one of the old. *)
Lemma map_set_In (V : Type) (m : list (str * V)) (k : str) (v : V) (e : str * V) :
  In e (map_set m k v) -> e = (k, v) \/ In e m.
Proof.
  induction m as [|[k0 v0] r IH]; simpl.
  - intros [H|[]]. now left.
  - destruct (str_eqb k k0) eqn:E.
    + apply str_eqb_eq in E. subst k0. simpl. intros [H|H]; auto.
    + simpl. intros [H|H]; auto. destruct (IH H); auto.
Qed.

Lemma map_set_nonempty (V : Type) (m : list (str * V)) (k : str) (v : V) :
  map_set m k v <> [].
Proof. destruct m as [|[k0 v0] r]; simpl; [|destruct (str_eqb k k0)]; discriminate. Qed.

End MapFacts.

(** ** The author network: connected components *)

Module ComponentFacts.
Import DataValidation AuthorAnalysis DataValidationFacts MapFacts.

Lemma set_add_fresh (s : list str) (x : str) :
  set_has s x = false -> set_add s x = s ++ [x].
Proof. unfold set_add. now intros ->. Qed.

Lemma remaining_mono (adj : list (str * list str)) (processed : list str)
    (current : str) :
  remaining adj (processed ++ [current]) <= remaining adj processed.
Proof.
  unfold remaining. induction adj as [|[k l] r IH]; simpl; [lia|].
  rewrite set_has_app. destruct (set_has processed k); simpl; [lia|].
  destruct (str_eqb k current); lia.
Qed.

Lemma remaining_decrease (adj : list (str * list str)) (processed : list str)
    (current : str) :
  set_has processed current = false ->
  remaining adj (processed ++ [current]) + length (neighborsOf adj current)
  <= remaining adj processed.
Proof.
  intros Hc. unfold neighborsOf.
  induction adj as [|[k l] r IH]; simpl; [reflexivity|].
  unfold remaining in *. simpl. rewrite set_has_app.
  destruct (str_eqb current k) eqn:E.
  - apply str_eqb_eq in E. subst k. rewrite Hc, str_eqb_refl. simpl.
    pose proof (remaining_mono r processed current) as Hm.
    unfold remaining in Hm. lia.
  - assert (E' : str_eqb k current = false).
    { apply str_eqb_neq. apply str_eqb_neq in E. congruence. }
    rewrite E', orb_false_r. destruct (map_get r current); simpl in *; lia.
Qed.

Lemma remaining_le_fuel (adj : list (str * list str)) (processed : list str) :
  S (remaining adj processed) <= componentFuel adj.
Proof.
  unfold componentFuel, remaining. apply le_n_S.
  induction adj as [|[k l] r IH]; simpl; [lia|].
  destruct (set_has processed k); lia.
Qed.

(** The loop ends within the fuel when the fuel covers the queue and what
    remains to visit. *)
Lemma componentLoop_ends (adj : list (str * list str)) (fuel : nat) :
  forall queue processed component,
    length queue + remaining adj processed <= fuel ->
    exists r, componentLoop fuel adj queue processed component = Some r.
Proof.
  induction fuel as [|fuel IH]; intros queue processed component Hle.
  - destruct queue; simpl in *; [eauto | lia].
  - destruct queue as [|current rest]; simpl; [eauto|].
    destruct (set_has processed current) eqn:Hc.
    + apply IH. simpl in Hle. lia.
    + apply IH. rewrite (set_add_fresh _ _ Hc), length_app.
      pose proof (remaining_decrease adj _ _ Hc) as Hd.
      pose proof (filter_length_le
                    (fun neighbor => negb (set_has (processed ++ [current]) neighbor))
                    (neighborsOf adj current)) as Hf.
      simpl in Hle. lia.
Qed.

(** More fuel does not change a result. *)
Lemma componentLoop_more_fuel (adj : list (str * list str)) (fuel : nat) :
  forall queue processed component r fuel',
    componentLoop fuel adj queue processed component = Some r ->
    fuel <= fuel' ->
    componentLoop fuel' adj queue processed component = Some r.
Proof.
  induction fuel as [|fuel IH]; intros queue processed component r fuel' H Hle.
  - destruct queue; simpl in H; [|discriminate].
    destruct fuel'; simpl; assumption.
  - destruct fuel' as [|fuel']; [lia|].
    destruct queue as [|current rest]; simpl in *; [assumption|].
    destruct (set_has processed current); apply IH; auto; lia.
Qed.

Lemma findConnectedComponent_total (startAuthor : str)
    (adj : list (str * list str)) (processed : list str) :
  exists r, findConnectedComponent startAuthor adj processed = Some r.
Proof.
  apply componentLoop_ends. pose proof (remaining_le_fuel adj processed).
  simpl. lia.
Qed.

(** A result found with some fuel is the result of the call. *)
Lemma findConnectedComponent_by_fuel (fuel : nat) (startAuthor : str)
    (adj : list (str * list str)) (processed : list str) r :
  componentLoop fuel adj [startAuthor] processed [] = Some r ->
  findConnectedComponent startAuthor adj processed = Some r.
Proof.
  intros H. destruct (findConnectedComponent_total startAuthor adj processed)
    as [r' Hr']. rewrite Hr'. unfold findConnectedComponent in Hr'.
  pose proof (@componentLoop_more_fuel adj fuel _ _ _ _
                (Nat.max fuel (componentFuel adj)) H (Nat.le_max_l _ _)) as H1.
  pose proof (@componentLoop_more_fuel adj (componentFuel adj) _ _ _ _
                (Nat.max fuel (componentFuel adj)) Hr' (Nat.le_max_r _ _)) as H2.
  congruence.
Qed.

Section Communities.
Variable authors : list AuthorProfile.
Variable collaborations : list CollaborationEdge.

Local Abbreviation step :=
  (community_step authors collaborations (buildAdjacency collaborations)).

Lemma community_step_eq communities processed (author : AuthorProfile) :
  step (Some (communities, processed)) author =
  if set_has processed (cleanName author) then Some (communities, processed)
  else
    match findConnectedComponent (cleanName author)
            (buildAdjacency collaborations) processed with
    | None => None
    | Some (community, processed') =>
        if 3 <=? length community
        then Some (communities
                   ++ [makeCommunity authors collaborations
                         (buildAdjacency collaborations)
                         (length communities) community],
                   processed')
        else Some (communities, processed')
    end.
Proof. reflexivity. Qed.

Lemma community_steps (l : list AuthorProfile) :
  forall communities processed,
    Forall (fun c => 3 <= length (members c)) communities ->
    exists communities' processed',
      fold_left step l (Some (communities, processed))
      = Some (communities', processed')
      /\ Forall (fun c => 3 <= length (members c)) communities'.
Proof.
  induction l as [|author l IH]; intros communities processed Hall;
    cbn [fold_left].
  - eauto.
  - rewrite community_step_eq.
    destruct (set_has processed (cleanName author)); [now apply IH|].
    destruct (findConnectedComponent_total (cleanName author)
                (buildAdjacency collaborations) processed)
      as [[community processed'] Hc].
    rewrite Hc. destruct (Nat.leb_spec 3 (length community)) as [Hsize|Hsize].
    + apply IH. apply Forall_app. split; [assumption|].
      constructor; [exact Hsize | constructor].
    + now apply IH.
Qed.

(** [detectAuthorCommunities] returns, and every community it returns has
    at least three members. *)
Lemma detectAuthorCommunities_total :
  exists communities,
    detectAuthorCommunities authors collaborations = Some communities
    /\ Forall (fun c => 3 <= length (members c)) communities.
Proof.
  unfold detectAuthorCommunities. cbv zeta.
  destruct (community_steps authors (communities := []) [] (Forall_nil _))
    as (communities & processed & Heq & Hall).
  rewrite Heq. eexists. split; [reflexivity|].
  apply Forall_forall. intros c Hc. apply stable_sort_In in Hc.
  rewrite Forall_forall in Hall. now apply Hall.
Qed.

End Communities.

End ComponentFacts.

(** ** The author network: collaboration edges *)

Module EdgeFacts.
Import DataValidation AuthorAnalysis DataValidationFacts MapFacts.

Lemma code_inj (x y : ascii) : code x = code y -> x = y.
Proof.
  unfold code. intros H.
  rewrite <- (ascii_nat_embedding x), <- (ascii_nat_embedding y). now f_equal.
Qed.

Lemma str_ltb_asym (a : str) : forall b, str_ltb a b = true -> str_ltb b a = false.
Proof.
  induction a as [|x a IH]; intros [|y b]; simpl; try congruence.
  destruct (Nat.ltb_spec (code x) (code y)), (Nat.ltb_spec (code y) (code x));
    try lia; try congruence; auto.
Qed.

Lemma str_ltb_total (a : str) : forall b,
  str_ltb a b = false -> str_ltb b a = false -> a = b.
Proof.
  induction a as [|x a IH]; intros [|y b]; simpl; try congruence.
  destruct (Nat.ltb_spec (code x) (code y)), (Nat.ltb_spec (code y) (code x));
    try congruence.
  intros H1 H2. assert (x = y) by (apply code_inj; lia). subst.
  f_equal. now apply IH.
Qed.

Lemma edgeKey_lo_hi (a b : str) : edgeKey a b = lo a b ++ pipe :: hi a b.
Proof. unfold edgeKey, lo, hi. now destruct (str_ltb b a). Qed.

Lemma lo_hi_sym (a b : str) : a <> b -> lo a b = lo b a /\ hi a b = hi b a.
Proof.
  intros Hne. unfold lo, hi.
  destruct (str_ltb b a) eqn:E1, (str_ltb a b) eqn:E2; auto.
  - apply str_ltb_asym in E1. congruence.
  - destruct Hne. now apply str_ltb_total.
Qed.

Lemma edgeKey_sym (a b : str) : a <> b -> edgeKey a b = edgeKey b a.
Proof.
  intros Hne. rewrite !edgeKey_lo_hi.
  destruct (lo_hi_sym Hne) as [-> ->]. reflexivity.
Qed.

Lemma lo_hi_cases (a b : str) :
  (lo a b = a /\ hi a b = b) \/ (lo a b = b /\ hi a b = a).
Proof. unfold lo, hi. destruct (str_ltb b a); auto. Qed.

Lemma pipeFree_In (x : str) : pipeFree x = true <-> ~ In pipe x.
Proof.
  unfold pipeFree. rewrite negb_true_iff. split.
  - intros H Hin. assert (existsb (ch_eqb pipe) x = true); [|congruence].
    apply existsb_exists. exists pipe. split; [assumption|].
    apply Ascii.eqb_refl.
  - intros H. destruct (existsb (ch_eqb pipe) x) eqn:E; [|reflexivity].
    apply existsb_exists in E. destruct E as [c [Hin Hc]].
    apply Ascii.eqb_eq in Hc. subst. contradiction.
Qed.

Lemma split_on_free (c : ascii) (y : str) : ~ In c y -> split_on c y = [y].
Proof.
  induction y as [|d y IH]; simpl; [reflexivity|]. intros H.
  destruct (ch_eqb d c) eqn:E.
  - apply Ascii.eqb_eq in E. subst. tauto.
  - rewrite IH by tauto. reflexivity.
Qed.

Lemma split_on_sep (c : ascii) (x y : str) :
  ~ In c x -> split_on c (x ++ c :: y) = x :: split_on c y.
Proof.
  induction x as [|d x IH]; simpl; intros H.
  - unfold ch_eqb. now rewrite Ascii.eqb_refl.
  - destruct (ch_eqb d c) eqn:E.
    + apply Ascii.eqb_eq in E. subst. tauto.
    + rewrite IH by tauto. reflexivity.
Qed.

(** An edge key of two names without the separator splits back into its
    two names. *)
Lemma edgeOfEntry_key (a b : str) (w : nat) :
  pipeFree a = true -> pipeFree b = true ->
  edgeOfEntry (edgeKey a b, w)
  = {| source := lo a b; target := hi a b; weight := w |}.
Proof.
  intros Ha Hb. apply pipeFree_In in Ha, Hb. unfold edgeOfEntry.
  cbn [fst snd]. rewrite edgeKey_lo_hi.
  destruct (lo_hi_cases a b) as [[-> ->]|[-> ->]];
    rewrite split_on_sep, split_on_free by assumption; reflexivity.
Qed.

Lemma edgeKey_inj (a b a' b' : str) :
  pipeFree a = true -> pipeFree b = true ->
  pipeFree a' = true -> pipeFree b' = true ->
  edgeKey a b = edgeKey a' b' ->
  (a = a' /\ b = b') \/ (a = b' /\ b = a').
Proof.
  intros Ha Hb Ha' Hb' Heq.
  assert (H : edgeOfEntry (edgeKey a b, 0) = edgeOfEntry (edgeKey a' b', 0))
    by now rewrite Heq.
  rewrite !edgeOfEntry_key in H by assumption.
  injection H as Hlo Hhi.
  destruct (lo_hi_cases a b) as [[E1 E2]|[E1 E2]],
           (lo_hi_cases a' b') as [[E3 E4]|[E3 E4]];
    rewrite E1, E3 in Hlo; rewrite E2, E4 in Hhi; subst; auto.
Qed.

(** The keys that the two inner loops make from one author list. *)
Lemma pairKeys_In (l : list str) (k : str) :
  In k (pairKeys l) ->
  exists u v, In u l /\ In v l /\ k = edgeKey u v
              /\ (nodupb l = true -> u <> v).
Proof.
  induction l as [|x l IH]; simpl; [tauto|].
  rewrite in_app_iff, in_map_iff. intros [[v [Hk Hv]]|H].
  - exists x, v. repeat split; auto. intros Hnd <-.
    apply andb_true_iff in Hnd. destruct Hnd as [Hx _].
    apply negb_true_iff in Hx.
    assert (set_has l x = true) by now apply set_has_In. congruence.
  - destruct (IH H) as (u & v & Hu & Hv & Hk & Hne).
    exists u, v. repeat split; auto. intros Hnd. apply Hne.
    apply andb_true_iff in Hnd. tauto.
Qed.

Lemma pairKeys_complete (l : list str) (u v : str) :
  In u l -> In v l -> u <> v -> In (edgeKey u v) (pairKeys l).
Proof.
  induction l as [|x l IH]; simpl; [tauto|].
  rewrite in_app_iff, in_map_iff. intros [->|Hu] [->|Hv] Hne.
  - congruence.
  - left. eauto.
  - left. exists u. split; [|assumption]. apply edgeKey_sym. congruence.
  - right. now apply IH.
Qed.

Lemma fold_left_flat_map (A B C : Type) (f : A -> C -> A) (g : B -> list C)
    (l : list B) : forall acc,
  fold_left (fun acc x => fold_left f (g x) acc) l acc
  = fold_left f (flat_map g l) acc.
Proof.
  induction l as [|x l IH]; intros acc; simpl; [reflexivity|].
  now rewrite fold_left_app, IH.
Qed.

Lemma collaborationCounts_eq (papers : list PaperRecord) :
  collaborationCounts papers
  = fold_left (fun m k => map_add m k 1) (allKeys papers) [].
Proof.
  unfold collaborationCounts, allKeys.
  apply (fold_left_flat_map (fun m k => map_add m k 1)
           (fun p => pairKeys (cleanedAuthors p))).
Qed.

Lemma counts_fold (ks : list str) : forall m,
  NoDup (keys m) -> Forall (fun e => 0 < snd e) m ->
  let m' := fold_left (fun m k => map_add m k 1) ks m in
  NoDup (keys m')
  /\ Forall (fun e => 0 < snd e) m'
  /\ (forall k, In k (keys m') <-> In k (keys m) \/ In k ks).
Proof.
  induction ks as [|k0 ks IH]; intros m Hnd Hpos; cbv zeta; simpl.
  - repeat split; auto. tauto.
  - assert (Hnd' : NoDup (keys (map_add m k0 1)))
      by now apply map_set_NoDup.
    assert (Hpos' : Forall (fun e => 0 < snd e) (map_add m k0 1)).
    { apply Forall_forall. intros e He. apply map_set_In in He.
      destruct He as [->|He]; [simpl; lia|].
      rewrite Forall_forall in Hpos. now apply Hpos. }
    destruct (IH _ Hnd' Hpos') as (H1 & H2 & H3).
    repeat split; auto.
    + intros H. apply H3 in H. unfold map_add in H.
      rewrite map_set_In_keys in H. destruct H as [[->|H]|H]; auto.
    + intros H. apply H3. unfold map_add. rewrite map_set_In_keys.
      destruct H as [H|[<-|H]]; auto.
Qed.

Lemma collaborationCounts_props (papers : list PaperRecord) :
  NoDup (keys (collaborationCounts papers))
  /\ Forall (fun e => 0 < snd e) (collaborationCounts papers)
  /\ (forall k, In k (keys (collaborationCounts papers))
                <-> In k (allKeys papers)).
Proof.
  rewrite collaborationCounts_eq.
  destruct (counts_fold (allKeys papers) (m := []) (NoDup_nil _) (Forall_nil _))
    as (H1 & H2 & H3).
  split; [exact H1|]. split; [exact H2|]. intros k. rewrite H3. simpl. tauto.
Qed.

Lemma filter_all (A : Type) (f : A -> bool) (l : list A) :
  Forall (fun x => f x = true) l -> filter f l = l.
Proof.
  induction 1 as [|x l Hx _ IH]; simpl; [reflexivity|]. now rewrite Hx, IH.
Qed.

Lemma buildCollaborationNetwork_perm (papers : list PaperRecord) :
  Permutation (buildCollaborationNetwork papers)
    (map edgeOfEntry (collaborationCounts papers)).
Proof.
  unfold buildCollaborationNetwork.
  destruct (collaborationCounts_props papers) as (_ & Hpos & _).
  rewrite filter_all.
  - symmetry. apply stable_sort_perm.
  - apply Forall_forall. intros e He. apply in_map_iff in He.
    destruct He as [[k w] [<- Hin]]. rewrite Forall_forall in Hpos.
    apply Nat.ltb_lt. exact (Hpos _ Hin).
Qed.

Section Triangle.
Variable papers : list PaperRecord.
Variables a b c : str.
Hypothesis Hab : a <> b.
Hypothesis Hac : a <> c.
Hypothesis Hbc : b <> c.
Hypothesis Fa : pipeFree a = true.
Hypothesis Fb : pipeFree b = true.
Hypothesis Fc : pipeFree c = true.
Hypothesis Honly : onlyAuthors [a; b; c] papers = true.
Hypothesis Hnorep : noRepeatedAuthor papers = true.
Hypothesis Cab : coauthors papers a b = true.
Hypothesis Cac : coauthors papers a c = true.
Hypothesis Cbc : coauthors papers b c = true.

Lemma In_abc (x : str) : set_has [a; b; c] x = true -> x = a \/ x = b \/ x = c.
Proof. rewrite set_has_In. simpl. intuition congruence. Qed.

Lemma allKeys_triangle (k : str) :
  In k (allKeys papers) -> In k [edgeKey a b; edgeKey a c; edgeKey b c].
Proof.
  unfold allKeys. rewrite in_flat_map. intros [p [Hp Hk]].
  apply pairKeys_In in Hk. destruct Hk as (u & v & Hu & Hv & Hk & Hne).
  subst k.
  pose proof Honly as Ho. unfold onlyAuthors in Ho.
  rewrite forallb_forall in Ho. specialize (Ho p Hp).
  rewrite forallb_forall in Ho.
  pose proof Hnorep as Hn. unfold noRepeatedAuthor in Hn.
  rewrite forallb_forall in Hn. specialize (Hne (Hn p Hp)).
  destruct (In_abc _ (Ho u Hu)) as [ -> | [ -> | -> ] ],
           (In_abc _ (Ho v Hv)) as [ -> | [ -> | -> ] ];
    try congruence; simpl; auto.
  - rewrite (edgeKey_sym Hne). auto.
  - rewrite (edgeKey_sym Hne). auto.
  - rewrite (edgeKey_sym Hne). auto.
Qed.

Lemma coauthors_key (x y : str) :
  x <> y -> coauthors papers x y = true -> In (edgeKey x y) (allKeys papers).
Proof.
  intros Hne H. unfold coauthors in H. apply existsb_exists in H.
  destruct H as [p [Hp H]]. apply andb_true_iff in H. destruct H as [Hx Hy].
  apply set_has_In in Hx, Hy. unfold allKeys. apply in_flat_map.
  exists p. split; [assumption|]. now apply pairKeys_complete.
Qed.

Lemma triangle_keys_NoDup : NoDup [edgeKey a b; edgeKey a c; edgeKey b c].
Proof.
  repeat constructor; simpl; intuition;
    match goal with
    | H : edgeKey _ _ = edgeKey _ _ |- _ =>
        apply edgeKey_inj in H; auto; intuition congruence
    end.
Qed.

Lemma edge_ends (x y : str) (w : nat) :
  ends {| source := lo x y; target := hi x y; weight := w |} x y.
Proof. unfold ends. simpl. destruct (lo_hi_cases x y); tauto. Qed.

(** Under the premises the collaboration network is the triangle. *)
Lemma triangle_edges : TriangleEdges (buildCollaborationNetwork papers) a b c.
Proof.
  destruct (collaborationCounts_props papers) as (Hnd & _ & Hkeys).
  assert (Hperm : Permutation (keys (collaborationCounts papers))
                    [edgeKey a b; edgeKey a c; edgeKey b c]).
  { apply NoDup_Permutation; [assumption | apply triangle_keys_NoDup |].
    intros k. rewrite Hkeys. split; [apply allKeys_triangle|].
    simpl. intros [<-|[<-|[<-|[]]]]; now apply coauthors_key. }
  unfold keys in Hperm. symmetry in Hperm.
  apply Permutation_map_inv in Hperm. destruct Hperm as [M' [Hfst Hperm]].
  destruct M' as [|[k1 w1] [|[k2 w2] [|[k3 w3] [|]]]]; try discriminate.
  simpl in Hfst. injection Hfst as <- <- <-.
  exists (edgeOfEntry (edgeKey a b, w1)), (edgeOfEntry (edgeKey a c, w2)),
         (edgeOfEntry (edgeKey b c, w3)).
  split.
  - rewrite buildCollaborationNetwork_perm.
    apply (Permutation_map edgeOfEntry) in Hperm. exact Hperm.
  - rewrite !edgeOfEntry_key by assumption. repeat split; apply edge_ends.
Qed.

End Triangle.

End EdgeFacts.

(** ** The author network: the adjacency list *)

Module AdjacencyFacts.
Import DataValidation AuthorAnalysis DataValidationFacts MapFacts.

Lemma set_add_In (l : list str) (x w : str) :
  In w (set_add l x) <-> In w l \/ w = x.
Proof.
  unfold set_add. destruct (set_has l x) eqn:E.
  - apply set_has_In in E. split; [tauto|]. intros [H| ->]; assumption.
  - rewrite in_app_iff. simpl. intuition.
Qed.

Lemma set_add_NoDup (l : list str) (x : str) : NoDup l -> NoDup (set_add l x).
Proof.
  intros Hnd. unfold set_add. destruct (set_has l x) eqn:E; [assumption|].
  apply NoDup_app; [assumption | repeat constructor; simpl; tauto |].
  intros y Hy [<-|[]]. apply set_has_In in Hy. congruence.
Qed.

Lemma neighborsOf_ensure (adj : list (str * list str)) (k v : str) :
  neighborsOf (adj_ensure adj k) v = neighborsOf adj v.
Proof.
  unfold adj_ensure, neighborsOf. destruct (map_has adj k) eqn:E; [reflexivity|].
  rewrite map_get_set. destruct (str_eqb v k) eqn:Ev; [|reflexivity].
  apply str_eqb_eq in Ev. subst. unfold map_has in E.
  now destruct (map_get adj k).
Qed.

Lemma map_has_set (V : Type) (m : list (str * V)) (k k' : str) (x : V) :
  map_has (map_set m k x) k' = str_eqb k' k || map_has m k'.
Proof. unfold map_has. rewrite map_get_set. now destruct (str_eqb k' k). Qed.

Lemma map_has_ensure (adj : list (str * list str)) (k k' : str) :
  map_has (adj_ensure adj k) k' = str_eqb k' k || map_has adj k'.
Proof.
  unfold adj_ensure. destruct (map_has adj k) eqn:E.
  - destruct (str_eqb k' k) eqn:Ek; [|reflexivity].
    apply str_eqb_eq in Ek. now subst.
  - apply map_has_set.
Qed.

Lemma map_has_add (adj : list (str * list str)) (k x k' : str) :
  map_has (adj_add adj k x) k' = map_has adj k'.
Proof.
  unfold adj_add. destruct (map_get adj k) eqn:E; [|reflexivity].
  rewrite map_has_set. destruct (str_eqb k' k) eqn:Ek; [|reflexivity].
  apply str_eqb_eq in Ek. subst. unfold map_has. now rewrite E.
Qed.

Lemma neighborsOf_add (adj : list (str * list str)) (k x v : str) :
  map_has adj k = true ->
  neighborsOf (adj_add adj k x) v
  = if str_eqb v k then set_add (neighborsOf adj k) x else neighborsOf adj v.
Proof.
  unfold map_has, adj_add, neighborsOf.
  destruct (map_get adj k) as [s|] eqn:E; [|discriminate]. intros _.
  rewrite map_get_set. now destruct (str_eqb v k).
Qed.

(** The neighbour set of [v] after one edge has been entered. *)
Lemma neighborsOf_step (adj : list (str * list str)) (e : CollaborationEdge)
    (v : str) :
  neighborsOf (adjacency_step adj e) v =
  let n1 := if str_eqb v (source e)
            then set_add (neighborsOf adj (source e)) (target e)
            else neighborsOf adj v in
  if str_eqb v (target e)
  then set_add (if str_eqb (target e) (source e)
                then set_add (neighborsOf adj (source e)) (target e)
                else neighborsOf adj (target e)) (source e)
  else n1.
Proof.
  unfold adjacency_step. cbv zeta.
  set (adj2 := adj_ensure (adj_ensure adj (source e)) (target e)).
  assert (Hs : map_has adj2 (source e) = true).
  { unfold adj2. rewrite !map_has_ensure, str_eqb_refl. simpl.
    apply orb_true_r. }
  assert (Ht : map_has (adj_add adj2 (source e) (target e)) (target e) = true).
  { rewrite map_has_add. unfold adj2.
    now rewrite map_has_ensure, str_eqb_refl. }
  rewrite neighborsOf_add by exact Ht.
  rewrite !neighborsOf_add by exact Hs.
  unfold adj2. rewrite !neighborsOf_ensure. reflexivity.
Qed.

Lemma neighborsOf_step_In (adj : list (str * list str)) (e : CollaborationEdge)
    (v w : str) :
  In w (neighborsOf (adjacency_step adj e) v)
  <-> In w (neighborsOf adj v) \/ joins e v w.
Proof.
  rewrite neighborsOf_step. cbv zeta. unfold joins.
  destruct (str_eqb v (target e)) eqn:Et;
    [apply str_eqb_eq in Et | apply str_eqb_neq in Et];
    (destruct (str_eqb v (source e)) eqn:Es;
     [apply str_eqb_eq in Es | apply str_eqb_neq in Es]).
  - assert (E : str_eqb (target e) (source e) = true)
      by (apply str_eqb_eq; congruence).
    rewrite E, !set_add_In. rewrite <- ?Et, <- ?Es.
    split; [intros [[H|H]|H] | intros [H|[[_ H]|[_ H]]]]; auto.
  - assert (E : str_eqb (target e) (source e) = false)
      by (apply str_eqb_neq; congruence).
    rewrite E, set_add_In. rewrite <- ?Et.
    split; [intros [H|H] | intros [H|[[H _]|[_ H]]]]; auto; congruence.
  - rewrite set_add_In. rewrite <- ?Es.
    split; [intros [H|H] | intros [H|[[_ H]|[H _]]]]; auto; congruence.
  - split; [auto | intros [H|[[H _]|[H _]]]]; auto; congruence.
Qed.

Lemma neighborsOf_step_NoDup (adj : list (str * list str))
    (e : CollaborationEdge) :
  (forall v, NoDup (neighborsOf adj v)) ->
  forall v, NoDup (neighborsOf (adjacency_step adj e) v).
Proof.
  intros H v. rewrite neighborsOf_step. cbv zeta.
  destruct (str_eqb v (target e)), (str_eqb v (source e)),
           (str_eqb (target e) (source e));
    repeat apply set_add_NoDup; apply H.
Qed.

(** The adjacency list holds, for every name, the set of the names it
    shares an edge with. *)
Lemma buildAdjacency_spec (collaborations : list CollaborationEdge) :
  forall v,
    NoDup (neighborsOf (buildAdjacency collaborations) v)
    /\ forall w, In w (neighborsOf (buildAdjacency collaborations) v)
                 <-> exists e, In e collaborations /\ joins e v w.
Proof.
  unfold buildAdjacency.
  induction collaborations as [|e l IH] using rev_ind; intros v.
  - simpl. split; [constructor|]. intros w. split; [tauto|].
    intros [e [[] _]].
  - rewrite fold_left_app. simpl. split.
    + apply neighborsOf_step_NoDup. intros u. apply IH.
    + intros w. rewrite neighborsOf_step_In, (proj2 (IH v) w). split.
      * intros [[e' [Hin Hj]]|Hj].
        -- exists e'. split; [apply in_or_app; now left | assumption].
        -- exists e. split; [apply in_or_app; right; now left | assumption].
      * intros [e' [Hin Hj]]. apply in_app_or in Hin.
        destruct Hin as [Hin|[<-|[]]]; [left; eauto | now right].
Qed.

Lemma two_elements (l : list str) (y z : str) :
  NoDup l -> y <> z -> (forall w, In w l <-> w = y \/ w = z) ->
  l = [y; z] \/ l = [z; y].
Proof.
  intros Hnd Hne Hin.
  assert (Hperm : Permutation l [y; z]).
  { apply NoDup_Permutation; [assumption | |].
    - repeat constructor; simpl; intuition congruence.
    - intros w. rewrite Hin. simpl. intuition congruence. }
  pose proof (Permutation_length Hperm) as Hlen.
  destruct l as [|p [|q [|]]]; try discriminate.
  pose proof (proj1 (Hin p) (or_introl eq_refl)) as Hp.
  pose proof (proj1 (Hin q) (or_intror (or_introl eq_refl))) as Hq.
  inversion Hnd as [|? ? Hnp _]; subst. simpl in Hnp.
  destruct Hp as [-> | ->], Hq as [-> | ->]; auto; tauto.
Qed.

Lemma ends_sym (e : CollaborationEdge) (x y : str) : ends e x y -> ends e y x.
Proof. unfold ends. tauto. Qed.

Lemma TriangleEdges_swap23 E (x y z : str) :
  TriangleEdges E x y z -> TriangleEdges E x z y.
Proof.
  intros (e1 & e2 & e3 & Hp & H1 & H2 & H3).
  exists e2, e1, e3. repeat split; auto using ends_sym.
  rewrite Hp. apply perm_swap.
Qed.

Lemma TriangleEdges_swap12 E (x y z : str) :
  TriangleEdges E x y z -> TriangleEdges E y x z.
Proof.
  intros (e1 & e2 & e3 & Hp & H1 & H2 & H3).
  exists e1, e3, e2. repeat split; auto using ends_sym.
  rewrite Hp. apply perm_skip, perm_swap.
Qed.

(** In the triangle the neighbours of a corner are the two others. *)
Lemma triangle_neighbors E (x y z : str) :
  TriangleEdges E x y z -> x <> y -> x <> z -> y <> z ->
  neighborsOf (buildAdjacency E) x = [y; z]
  \/ neighborsOf (buildAdjacency E) x = [z; y].
Proof.
  intros (e1 & e2 & e3 & Hp & H1 & H2 & H3) Hxy Hxz Hyz.
  destruct (buildAdjacency_spec E x) as [Hnd Hin].
  apply two_elements; [assumption | assumption |].
  intros w. rewrite Hin. unfold joins, ends in *. split.
  - intros [e [He Hj]]. apply (Permutation_in _ Hp) in He. simpl in He.
    destruct He as [<-|[<-|[<-|[]]]]; intuition congruence.
  - intros [-> | ->].
    + exists e1. split; [|tauto].
      apply (Permutation_in _ (Permutation_sym Hp)). now left.
    + exists e2. split; [|tauto].
      apply (Permutation_in _ (Permutation_sym Hp)). right. now left.
Qed.

End AdjacencyFacts.

(** ** The author network: the triangle *)

Module TriangleFacts.
Import DataValidation AuthorAnalysis DataValidationFacts MapFacts.
Import ComponentFacts EdgeFacts AdjacencyFacts.

Section Walk.
Variable adj : list (str * list str).
Variables x y z : str.
Hypothesis Hxy : x <> y.
Hypothesis Hxz : x <> z.
Hypothesis Hyz : y <> z.

Lemma neq_eqb (u v : str) : u <> v -> str_eqb u v = false.
Proof. apply str_eqb_neq. Qed.

Lemma neq_eqb_sym (u v : str) : u <> v -> str_eqb v u = false.
Proof. intros H. apply str_eqb_neq. congruence. Qed.

(** The walk from [x] when [y] is the first neighbour of [x]. *)
Lemma componentLoop_triangle :
  neighborsOf adj x = [y; z] ->
  (neighborsOf adj y = [x; z] \/ neighborsOf adj y = [z; x]) ->
  (neighborsOf adj z = [x; y] \/ neighborsOf adj z = [y; x]) ->
  componentLoop 4 adj [x] [] [] = Some ([x; y; z], [x; y; z]).
Proof.
  intros Nx Ny Nz.
  pose proof (neq_eqb Hxy) as E1. pose proof (neq_eqb_sym Hxy) as E2.
  pose proof (neq_eqb Hxz) as E3. pose proof (neq_eqb_sym Hxz) as E4.
  pose proof (neq_eqb Hyz) as E5. pose proof (neq_eqb_sym Hyz) as E6.
  destruct Ny as [Ny|Ny], Nz as [Nz|Nz];
    repeat (unfold set_add, set_has;
            cbn [componentLoop existsb filter app negb orb];
            rewrite ?Nx, ?Ny, ?Nz, ?str_eqb_refl, ?E1, ?E2, ?E3, ?E4, ?E5, ?E6);
    reflexivity.
Qed.

End Walk.

Section Detect.
Variable E : list CollaborationEdge.

Lemma triangle_strength (x y z : str) :
  TriangleEdges E x y z ->
  (calculateCommunityCollaborationStrength [x; y; z] E == 1)%Q.
Proof.
  intros (e1 & e2 & e3 & Hp & H1 & H2 & H3).
  unfold calculateCommunityCollaborationStrength. cbv zeta.
  rewrite filter_all.
  - rewrite (Permutation_length Hp). reflexivity.
  - apply Forall_forall. intros e He. apply (Permutation_in _ Hp) in He.
    apply andb_true_iff. rewrite !set_has_In. unfold ends in *. simpl in *.
    destruct He as [<-|[<-|[<-|[]]]]; intuition congruence.
Qed.

Lemma skip_processed (profiles rest : list AuthorProfile) communities processed :
  Forall (fun q => set_has processed (cleanName q) = true) rest ->
  fold_left (community_step profiles E (buildAdjacency E)) rest
    (Some (communities, processed))
  = Some (communities, processed).
Proof.
  induction 1 as [|q rest Hq _ IH]; cbn [fold_left]; [reflexivity|].
  now rewrite community_step_eq, Hq.
Qed.

Lemma detect_ordered (pr : AuthorProfile) (rest : list AuthorProfile)
    (x y z : str) :
  TriangleEdges E x y z -> x <> y -> x <> z -> y <> z ->
  neighborsOf (buildAdjacency E) x = [y; z] ->
  cleanName pr = x ->
  Forall (fun q => In (cleanName q) [x; y; z]) rest ->
  exists community,
    detectAuthorCommunities (pr :: rest) E = Some [community]
    /\ members community = [x; y; z]
    /\ (collaborationStrength community == 1)%Q.
Proof.
  intros HT Hxy Hxz Hyz Nx Hpr Hrest.
  assert (Ny : neighborsOf (buildAdjacency E) y = [x; z]
               \/ neighborsOf (buildAdjacency E) y = [z; x]).
  { apply triangle_neighbors; auto. now apply TriangleEdges_swap12. }
  assert (Nz : neighborsOf (buildAdjacency E) z = [x; y]
               \/ neighborsOf (buildAdjacency E) z = [y; x]).
  { apply triangle_neighbors; auto.
    now apply TriangleEdges_swap12, TriangleEdges_swap23. }
  pose proof (@componentLoop_triangle (buildAdjacency E) x y z
                Hxy Hxz Hyz Nx Ny Nz) as Hloop.
  apply findConnectedComponent_by_fuel in Hloop.
  unfold detectAuthorCommunities. cbv zeta. cbn [fold_left].
  rewrite community_step_eq, Hpr. cbn [set_has existsb]. rewrite Hloop.
  cbn [length Nat.leb app].
  rewrite skip_processed.
  - eexists. split; [reflexivity|]. split; [reflexivity|].
    cbn [collaborationStrength makeCommunity]. now apply triangle_strength.
  - eapply Forall_impl; [|exact Hrest]. intros q Hq. now apply set_has_In.
Qed.

Lemma detect_from (pr : AuthorProfile) (rest : list AuthorProfile)
    (x y z : str) :
  TriangleEdges E x y z -> x <> y -> x <> z -> y <> z ->
  cleanName pr = x ->
  Forall (fun q => In (cleanName q) [x; y; z]) rest ->
  exists community,
    detectAuthorCommunities (pr :: rest) E = Some [community]
    /\ Permutation (members community) [x; y; z]
    /\ (collaborationStrength community == 1)%Q.
Proof.
  intros HT Hxy Hxz Hyz Hpr Hrest.
  destruct (triangle_neighbors HT Hxy Hxz Hyz) as [Nx|Nx].
  - destruct (@detect_ordered pr rest x y z HT Hxy Hxz Hyz Nx Hpr Hrest)
      as (community & H1 & H2 & H3).
    exists community. rewrite H2. auto.
  - assert (Hrest' : Forall (fun q => In (cleanName q) [x; z; y]) rest).
    { eapply Forall_impl; [|exact Hrest]. simpl. tauto. }
    destruct (@detect_ordered pr rest x z y (TriangleEdges_swap23 HT) Hxz Hxy
                (not_eq_sym Hyz) Nx Hpr Hrest')
      as (community & H1 & H2 & H3).
    exists community. rewrite H2. repeat split; auto.
    apply perm_skip, perm_swap.
Qed.

(** On the triangle, for a non-empty list of profiles all named after its
    corners, there is exactly one community: the three corners, with
    strength 1. *)
Lemma detect_triangle (profiles : list AuthorProfile) (a b c : str) :
  TriangleEdges E a b c -> a <> b -> a <> c -> b <> c ->
  profiles <> [] ->
  Forall (fun q => In (cleanName q) [a; b; c]) profiles ->
  exists community,
    detectAuthorCommunities profiles E = Some [community]
    /\ Permutation (members community) [a; b; c]
    /\ (collaborationStrength community == 1)%Q.
Proof.
  intros HT Hab Hac Hbc Hne Hall.
  destruct profiles as [|pr rest]; [congruence|].
  inversion Hall as [|? ? Hpr Hrest]; subst. simpl in Hpr.
  destruct Hpr as [Hpr|[Hpr|[Hpr|[]]]]; symmetry in Hpr.
  - exact (@detect_from pr rest a b c HT Hab Hac Hbc Hpr Hrest).
  - assert (Hrest' : Forall (fun q => In (cleanName q) [b; a; c]) rest).
    { eapply Forall_impl; [|exact Hrest]. simpl. tauto. }
    destruct (@detect_from pr rest b a c (TriangleEdges_swap12 HT)
                (not_eq_sym Hab) Hbc Hac Hpr Hrest')
      as (community & H1 & H2 & H3).
    exists community. repeat split; auto. rewrite H2. apply perm_swap.
  - assert (Hrest' : Forall (fun q => In (cleanName q) [c; a; b]) rest).
    { eapply Forall_impl; [|exact Hrest]. simpl. tauto. }
    destruct (@detect_from pr rest c a b
                (TriangleEdges_swap12 (TriangleEdges_swap23 HT))
                (not_eq_sym Hac) (not_eq_sym Hbc) Hab Hpr Hrest')
      as (community & H1 & H2 & H3).
    exists community. repeat split; auto. rewrite H2.
    rewrite (perm_swap a c [b]). apply perm_skip, perm_swap.
Qed.

End Detect.

End TriangleFacts.

(** ** The author network: profiles *)

Module ProfileFacts.
Import DataValidation AuthorAnalysis DataValidationFacts MapFacts.
Import AdjacencyFacts.

Lemma longestVariant_In (vs : list str) :
  vs <> [] -> In (longestVariant vs) vs.
Proof.
  destruct vs as [|v r]; [congruence|]. intros _. simpl.
  assert (H : forall acc, In (fold_left
              (fun longest current =>
                 if length longest <? length current then current else longest)
              r acc) (acc :: r)).
  { induction r as [|c r IH]; intros acc; simpl; [now left|].
    destruct (length acc <? length c).
    - right. apply IH.
    - destruct (IH acc) as [H|H]; auto. }
  apply H.
Qed.

Lemma allAuthorsOf_In (papers : list PaperRecord) (x : str) :
  In x (allAuthorsOf papers) -> exists p, In p papers /\ In x (authors p).
Proof.
  unfold allAuthorsOf.
  assert (Hin : forall l acc, In x (fold_left set_add l acc)
                              -> In x acc \/ In x l).
  { induction l as [|y l IH]; intros acc; simpl; [tauto|].
    intros H. apply IH in H. rewrite set_add_In in H.
    destruct H as [[H| ->]|H]; auto. }
  assert (H : forall acc,
             In x (fold_left (fun all paper =>
                                fold_left set_add (authors paper) all)
                     papers acc)
             -> In x acc \/ exists p, In p papers /\ In x (authors p)).
  { induction papers as [|p ps IH]; intros acc; simpl; [tauto|].
    intros H. apply IH in H. destruct H as [H|[q [Hq Hx]]].
    - apply Hin in H. destruct H; eauto.
    - right. eauto. }
  intros Hx. apply H in Hx. destruct Hx as [[]|Hx]. exact Hx.
Qed.

(** The variants recorded by [detectDuplicateAuthors] are names of the
    list it was given. *)
Lemma detectDuplicateAuthors_variants (l : list str) (e : str * list str) :
  In e (detectDuplicateAuthors l) -> forall v, In v (snd e) -> In v l.
Proof.
  unfold detectDuplicateAuthors.
  assert (Hinner : forall author cn others similar processed,
            incl others l ->
            (forall v, In v similar -> In v l) ->
            forall v,
              In v (fst (fold_left (duplicates_inner author cn) others
                           (similar, processed))) -> In v l).
  { induction others as [|o others IH]; intros similar processed Hincl Hsim v;
      cbn [fold_left]; [exact (Hsim v)|].
    assert (Ho : In o l) by (apply Hincl; now left).
    assert (Hincl' : incl others l)
      by (intros u Hu; apply Hincl; now right).
    unfold duplicates_inner at 2.
    destruct (str_eqb author o || set_has processed o); [now apply IH|].
    destruct (areAuthorNamesSimilar cn (cleanAuthorName o));
      [|now apply IH].
    apply IH; [assumption|]. intros u Hu. apply in_app_or in Hu.
    destruct Hu as [Hu|[<-|[]]]; auto. }
  assert (Houter : forall names duplicates processed,
            incl names l ->
            (forall e, In e duplicates -> forall v, In v (snd e) -> In v l) ->
            forall e,
              In e (fst (fold_left (duplicates_outer l) names
                           (duplicates, processed))) ->
              forall v, In v (snd e) -> In v l).
  { induction names as [|author names IH];
      intros duplicates processed Hincl Hdup e'; cbn [fold_left];
      [exact (Hdup e')|].
    assert (Ha : In author l) by (apply Hincl; now left).
    assert (Hincl' : incl names l)
      by (intros u Hu; apply Hincl; now right).
    unfold duplicates_outer at 2.
    destruct (set_has processed author); [now apply IH|].
    pose proof (Hinner author (cleanAuthorName author) l [author] processed
                  (incl_refl l)) as Hsim.
    destruct (fold_left (duplicates_inner author (cleanAuthorName author)) l
                ([author], processed)) as [similar processed'].
    cbn [fst] in Hsim.
    assert (Hsim' : forall v, In v similar -> In v l).
    { apply Hsim. intros v [<-|[]]. exact Ha. }
    apply IH; [assumption|].
    destruct (1 <? length similar); [|assumption].
    intros e0 He0. apply map_set_In in He0.
    destruct He0 as [->|He0]; [exact Hsim' | now apply Hdup]. }
  intros He. apply (Houter l [] [] (incl_refl l)); [|exact He].
  intros e0 [].
Qed.

Lemma buildAuthorMapping_values (duplicates : list (str * list str))
    (x c : str) :
  map_get (buildAuthorMapping duplicates) x = Some c ->
  exists e, In e duplicates /\ c = longestVariant (snd e).
Proof.
  unfold buildAuthorMapping. intros Hget. apply map_get_In in Hget.
  assert (Hinner : forall (primary : str) vs (m : list (str * str)) kv,
            In kv (fold_left (fun m variant => map_set m variant primary) vs m)
            -> In kv m \/ snd kv = primary).
  { induction vs as [|v vs IH]; intros m kv; simpl; [tauto|].
    intros H. apply IH in H. destruct H as [H|H]; [|now right].
    apply map_set_In in H. destruct H as [->|H]; auto. }
  assert (Houter : forall (dups : list (str * list str))
                       (m : list (str * str)) kv,
            In kv (fold_left
                     (fun mapping (entry : str * list str) =>
                        let primaryName := longestVariant (snd entry) in
                        fold_left (fun m variant => map_set m variant primaryName)
                          (snd entry) mapping) dups m)
            -> In kv m \/ exists e, In e dups /\ snd kv = longestVariant (snd e)).
  { induction dups as [|d dups IH]; intros m kv; simpl; [tauto|].
    intros H. apply IH in H. destruct H as [H|[e [He Hkv]]].
    - apply Hinner in H. destruct H as [H|H]; [now left|].
      right. exists d. auto.
    - right. exists e. auto. }
  apply Houter in Hget. destruct Hget as [[]|[e [He Hc]]]. eauto.
Qed.

Lemma profile_step_nonempty mapping paper authorMap authorName :
  profile_step mapping paper authorMap authorName <> [].
Proof.
  unfold profile_step. cbv zeta.
  set (cn := cleanAuthorName (canonicalNameOf mapping authorName)).
  destruct (map_has authorMap cn) eqn:Hhas.
  - unfold map_has in Hhas. destruct (map_get authorMap cn); [|discriminate].
    apply map_set_nonempty.
  - destruct (map_get (map_set authorMap cn _) cn);
      apply map_set_nonempty.
Qed.

(** What the loops of [buildAuthorProfiles] keep true of [authorMap], for
    a property [good] of clean names. *)
Section Profiles.
Variable good : str -> Prop.
Variable mapping : list (str * str).

Local Abbreviation goodMap := (AuthorAnalysis.goodMap good).
Local Abbreviation goodAuthor := (AuthorAnalysis.goodAuthor good mapping).

Lemma profile_step_good paper m authorName :
  goodMap m -> goodAuthor authorName ->
  goodMap (profile_step mapping paper m authorName).
Proof.
  intros Hm Hgood. unfold profile_step. cbv zeta. unfold AuthorAnalysis.goodAuthor in Hgood.
  set (cn := cleanAuthorName (canonicalNameOf mapping authorName)) in *.
  set (m' := if map_has m cn then m
             else map_set m cn (newProfile (canonicalNameOf mapping authorName) cn)).
  assert (Hm' : goodMap m').
  { unfold m'. destruct (map_has m cn); [assumption|].
    apply Forall_forall. intros e He. apply map_set_In in He.
    destruct He as [->|He]; [exact Hgood|].
    unfold AuthorAnalysis.goodMap in Hm. rewrite Forall_forall in Hm. now apply Hm. }
  destruct (map_get m' cn) as [profile|] eqn:Hget; [|assumption].
  apply map_get_In in Hget.
  apply Forall_forall. intros e He. apply map_set_In in He.
  unfold AuthorAnalysis.goodMap in Hm'. rewrite Forall_forall in Hm'.
  destruct He as [->|He]; [|now apply Hm'].
  exact (Hm' _ Hget).
Qed.

Lemma profile_steps_good paper (l : list str) : forall m,
  goodMap m -> Forall goodAuthor l ->
  goodMap (fold_left (profile_step mapping paper) l m).
Proof.
  induction l as [|x l IH]; intros m Hm Hl; simpl; [assumption|].
  inversion Hl; subst. apply IH; [|assumption]. now apply profile_step_good.
Qed.

Lemma profile_papers_good (ps : list PaperRecord) : forall m,
  goodMap m -> Forall (fun p => Forall goodAuthor (authors p)) ps ->
  goodMap (fold_left (fun m paper =>
                        fold_left (profile_step mapping paper) (authors paper) m)
             ps m).
Proof.
  induction ps as [|p ps IH]; intros m Hm Hps; simpl; [assumption|].
  inversion Hps; subst. apply IH; [|assumption]. now apply profile_steps_good.
Qed.

Lemma profile_steps_nonempty paper (l : list str) : forall m,
  l <> [] \/ m <> [] -> fold_left (profile_step mapping paper) l m <> [].
Proof.
  induction l as [|x l IH]; intros m H; simpl.
  - destruct H; congruence.
  - apply IH. right. apply profile_step_nonempty.
Qed.

Lemma profile_papers_nonempty (ps : list PaperRecord) : forall m,
  m <> [] \/ (exists p, In p ps /\ authors p <> []) ->
  fold_left (fun m paper =>
               fold_left (profile_step mapping paper) (authors paper) m) ps m
  <> [].
Proof.
  induction ps as [|p ps IH]; intros m H; simpl.
  - destruct H as [H|[p [[] _]]]. exact H.
  - apply IH. destruct H as [H|[q [[<-|Hq] Hne]]].
    + left. apply profile_steps_nonempty. now right.
    + left. apply profile_steps_nonempty. now left.
    + right. eauto.
Qed.

End Profiles.

(** Every profile is named after an author of some paper. *)
Lemma buildAuthorProfiles_names (papers : list PaperRecord) (good : str -> Prop) :
  (forall p x, In p papers -> In x (authors p) -> good (cleanAuthorName x)) ->
  Forall (fun q => good (cleanName q)) (buildAuthorProfiles papers).
Proof.
  intros Hgood. unfold buildAuthorProfiles. cbv zeta.
  set (mapping := buildAuthorMapping (detectDuplicateAuthors (allAuthorsOf papers))).
  assert (Hmap : AuthorAnalysis.goodMap good
            (fold_left (fun m paper =>
                          fold_left (profile_step mapping paper) (authors paper) m)
               papers [])).
  { apply profile_papers_good; [constructor|].
    apply Forall_forall. intros p Hp. apply Forall_forall. intros x Hx.
    unfold AuthorAnalysis.goodAuthor, canonicalNameOf.
    destruct (map_get mapping x) as [c|] eqn:Hget; [|now apply (Hgood p)].
    unfold or_else, truthy.
    destruct (str_eqb c []) eqn:Hc; simpl; [now apply (Hgood p)|].
    apply str_eqb_neq in Hc.
    apply buildAuthorMapping_values in Hget. destruct Hget as [e [He Hce]].
    assert (Hvs : snd e <> []).
    { intros Hnil. rewrite Hnil in Hce. simpl in Hce. congruence. }
    pose proof (longestVariant_In Hvs) as Hin. rewrite <- Hce in Hin.
    apply (detectDuplicateAuthors_variants _ _ He) in Hin.
    apply allAuthorsOf_In in Hin. destruct Hin as [p' [Hp' Hc']].
    now apply (Hgood p'). }
  apply Forall_forall. intros q Hq. apply stable_sort_In in Hq.
  apply in_map_iff in Hq. destruct Hq as [e [<- He]].
  unfold AuthorAnalysis.goodMap in Hmap. rewrite Forall_forall in Hmap.
  exact (Hmap e He).
Qed.

Lemma buildAuthorProfiles_nonempty (papers : list PaperRecord) :
  (exists p, In p papers /\ authors p <> []) -> buildAuthorProfiles papers <> [].
Proof.
  intros H. unfold buildAuthorProfiles. cbv zeta.
  set (mapping := buildAuthorMapping (detectDuplicateAuthors (allAuthorsOf papers))).
  pose proof (@profile_papers_nonempty mapping papers [] (or_intror H)) as Hne.
  intros Hnil. apply (f_equal (@length _)) in Hnil.
  rewrite stable_sort_length, length_map in Hnil.
  destruct (fold_left _ papers []); [congruence | discriminate].
Qed.

End ProfileFacts.

(** ** The author network: communities *)

Module CommunityFacts.
Import DataValidation AuthorAnalysis DataValidationFacts MapFacts.
Import ComponentFacts EdgeFacts AdjacencyFacts TriangleFacts ProfileFacts.

(** C7, as the claim states it, fails when a paper lists an author twice:
    the paper below has the authors [Ann Lee], [Dr. Ann Lee], [Bob Ray] and
    [Cy Dow], three distinct cleaned names, every two of them co-authors,
    and the one community has strength 4/3, because the pair of the two
    variants of [ann lee] is an edge as well. *)
Lemma repeated_author_strength :
  onlyAuthors [L "ann lee"; L "bob ray"; L "cy dow"] repeatedAuthorPapers = true
  /\ coauthors repeatedAuthorPapers (L "ann lee") (L "bob ray") = true
  /\ coauthors repeatedAuthorPapers (L "ann lee") (L "cy dow") = true
  /\ coauthors repeatedAuthorPapers (L "bob ray") (L "cy dow") = true
  /\ exists community,
       communitiesOf repeatedAuthorPapers = Some [community]
       /\ length (members community) = 3
       /\ (collaborationStrength community == 4 # 3)%Q
       /\ ~ (collaborationStrength community == 1)%Q.
Proof.
  split; [vm_compute; reflexivity|]. split; [vm_compute; reflexivity|].
  split; [vm_compute; reflexivity|]. split; [vm_compute; reflexivity|].
  eexists. split; [vm_compute; reflexivity|].
  split; [reflexivity|]. split; [reflexivity|]. discriminate.
Qed.

(** The premise on the character [|] is needed as well: the paper below
    has the three authors [a|b], [cc] and [dd]; the keys of the two edges of
    [a|b] split into the names [a] and [b], and no community is found. *)
Lemma pipe_name_no_community :
  onlyAuthors [L "a|b"; L "cc"; L "dd"] pipeNamePapers = true
  /\ noRepeatedAuthor pipeNamePapers = true
  /\ coauthors pipeNamePapers (L "a|b") (L "cc") = true
  /\ coauthors pipeNamePapers (L "a|b") (L "dd") = true
  /\ coauthors pipeNamePapers (L "cc") (L "dd") = true
  /\ communitiesOf pipeNamePapers = Some [].
Proof.
  split; [vm_compute; reflexivity|]. split; [vm_compute; reflexivity|].
  split; [vm_compute; reflexivity|]. split; [vm_compute; reflexivity|].
  split; vm_compute; reflexivity.
Qed.

(** C7 (amended).  For a paper set over exactly three distinct cleaned
    author names, none of which holds the character [|], in which every
    two of the names are co-authors of some paper and no paper lists a
    cleaned name twice, the communities of the author network are exactly
    one community, whose members are the three names and whose
    collaboration strength is 1.  For every input [detectAuthorCommunities]
    returns, and every community it returns has at least three members. *)
Theorem triangle_is_one_community :
  (forall (papers : list PaperRecord) (a b c : str),
     a <> b -> a <> c -> b <> c ->
     pipeFree a = true -> pipeFree b = true -> pipeFree c = true ->
     onlyAuthors [a; b; c] papers = true ->
     noRepeatedAuthor papers = true ->
     coauthors papers a b = true ->
     coauthors papers a c = true ->
     coauthors papers b c = true ->
     exists community,
       communitiesOf papers = Some [community]
       /\ length (members community) = 3
       /\ (forall x, In x (members community) <-> x = a \/ x = b \/ x = c)
       /\ (collaborationStrength community == 1)%Q)
  /\ (forall (profiles : list AuthorProfile)
             (collaborations : list CollaborationEdge),
        exists communities,
          detectAuthorCommunities profiles collaborations = Some communities
          /\ Forall (fun community => 3 <= length (members community))
               communities).
Proof.
  split; [|exact detectAuthorCommunities_total].
  intros papers a b c Hab Hac Hbc Fa Fb Fc Honly Hnorep Cab Cac Cbc.
  pose proof (@triangle_edges papers a b c Hab Hac Hbc Fa Fb Fc Honly Hnorep
                Cab Cac Cbc) as HT.
  assert (Hnames : Forall (fun q => In (cleanName q) [a; b; c])
                     (buildAuthorProfiles papers)).
  { apply (@buildAuthorProfiles_names papers (fun n => In n [a; b; c])).
    intros p x Hp Hx.
    unfold onlyAuthors in Honly. rewrite forallb_forall in Honly.
    specialize (Honly p Hp). rewrite forallb_forall in Honly.
    apply set_has_In, Honly. unfold cleanedAuthors. now apply in_map. }
  assert (Hne : buildAuthorProfiles papers <> []).
  { apply buildAuthorProfiles_nonempty.
    unfold coauthors in Cab. apply existsb_exists in Cab.
    destruct Cab as [p [Hp H]]. apply andb_true_iff in H. destruct H as [H _].
    exists p. split; [assumption|]. intros Hnil.
    unfold cleanedAuthors in H. rewrite Hnil in H. discriminate. }
  destruct (detect_triangle HT Hab Hac Hbc Hne Hnames)
    as (community & Hc & Hperm & Hs).
  exists community. unfold communitiesOf. split; [exact Hc|].
  split; [exact (Permutation_length Hperm)|]. split; [|exact Hs].
  intros x. split.
  - intros Hx. apply (Permutation_in _ Hperm) in Hx. simpl in Hx.
    intuition congruence.
  - intros Hx. apply (Permutation_in _ (Permutation_sym Hperm)). simpl.
    intuition congruence.
Qed.

(** The theorem at three papers, one for each side of a triangle. *)
Lemma triangle_is_one_community_sample :
  onlyAuthors [L "ann lee"; L "bob ray"; L "cy dow"] trianglePapers = true
  /\ noRepeatedAuthor trianglePapers = true
  /\ coauthors trianglePapers (L "ann lee") (L "bob ray") = true
  /\ coauthors trianglePapers (L "ann lee") (L "cy dow") = true
  /\ coauthors trianglePapers (L "bob ray") (L "cy dow") = true
  /\ exists community,
       communitiesOf trianglePapers = Some [community]
       /\ length (members community) = 3
       /\ (collaborationStrength community == 1)%Q.
Proof.
  assert (H1 : onlyAuthors [L "ann lee"; L "bob ray"; L "cy dow"] trianglePapers
               = true) by (vm_compute; reflexivity).
  assert (H2 : noRepeatedAuthor trianglePapers = true)
    by (vm_compute; reflexivity).
  assert (H3 : coauthors trianglePapers (L "ann lee") (L "bob ray") = true)
    by (vm_compute; reflexivity).
  assert (H4 : coauthors trianglePapers (L "ann lee") (L "cy dow") = true)
    by (vm_compute; reflexivity).
  assert (H5 : coauthors trianglePapers (L "bob ray") (L "cy dow") = true)
    by (vm_compute; reflexivity).
  assert (N1 : L "ann lee" <> L "bob ray") by (vm_compute; discriminate).
  assert (N2 : L "ann lee" <> L "cy dow") by (vm_compute; discriminate).
  assert (N3 : L "bob ray" <> L "cy dow") by (vm_compute; discriminate).
  assert (F1 : pipeFree (L "ann lee") = true) by (vm_compute; reflexivity).
  assert (F2 : pipeFree (L "bob ray") = true) by (vm_compute; reflexivity).
  assert (F3 : pipeFree (L "cy dow") = true) by (vm_compute; reflexivity).
  repeat (split; [assumption|]).
  destruct (proj1 triangle_is_one_community trianglePapers
              (L "ann lee") (L "bob ray") (L "cy dow")
              N1 N2 N3 F1 F2 F3 H1 H2 H3 H4 H5)
    as (community & Hc & Hlen & _ & Hs).
  exists community. split; [exact Hc|]. split; [exact Hlen | exact Hs].
Defined.

End CommunityFacts.

(* ================================================================== *)
(** * Further properties of the pipeline *)
(* ================================================================== *)

(** ** The record parser, continued *)

Module CsvParserMore.
Import CsvCommon TrimFacts CsvLineFacts CsvParserFacts.

Lemma split_on_cons (c : ascii) (s : str) :
  exists h t, split_on c s = h :: t.
Proof.
  induction s as [|x r [h [t IH]]]; simpl; [eauto|].
  destruct (ch_eqb x c); [eauto|]. rewrite IH. eauto.
Qed.

Lemma plain_line_loop (line : str) : forall fields current,
  existsb (ch_eqb dquote) line = false ->
  CsvParser.parseCSVLine_loop line fields current false
  = fields ++ pushed current (split_on comma line)
  /\ CsvParser004.parseCSVLine_loop line fields current false
     = fields ++ pushed current (split_on comma line).
Proof.
  induction line as [|c r IH]; intros fields current Hq.
  - simpl. now rewrite app_nil_r.
  - simpl in Hq. apply orb_false_iff in Hq. destruct Hq as [Hc Hr].
    assert (Hc' : ch_eqb c dquote = false).
    { apply ch_eqb_false. apply ch_eqb_false in Hc. congruence. }
    cbn [CsvParser.parseCSVLine_loop CsvParser004.parseCSVLine_loop split_on].
    rewrite Hc'. destruct (ch_eqb c comma) eqn:Hcomma; cbn [negb andb].
    + destruct (IH (fields ++ [trim current]) [] Hr) as [H1 H2].
      rewrite H1, H2, <- !app_assoc.
      destruct (split_on_cons comma r) as [h [t ->]].
      unfold pushed. rewrite app_nil_r. split; reflexivity.
    + destruct (IH fields (current ++ [c]) Hr) as [H1 H2].
      rewrite H1, H2. destruct (split_on_cons comma r) as [h [t ->]].
      unfold pushed. rewrite <- !app_assoc. split; reflexivity.
Qed.

(** X1.  On a line without a double quote both line parsers split at the
    commas and trim each piece. *)
Theorem parseCSVLine_plain (line : str) :
  existsb (ch_eqb dquote) line = false ->
  CsvParser.parseCSVLine line = map trim (split_on comma line)
  /\ CsvParser004.parseCSVLine line = map trim (split_on comma line).
Proof.
  intros Hq. unfold CsvParser.parseCSVLine, CsvParser004.parseCSVLine.
  destruct (plain_line_loop line [] [] Hq) as [-> ->].
  destruct (split_on_cons comma line) as [h [t ->]]. split; reflexivity.
Qed.

Lemma parseCSVLine_plain_sample :
  existsb (ch_eqb dquote) (L " a, b ,c") = false
  /\ CsvParser.parseCSVLine (L " a, b ,c") = [L "a"; L "b"; L "c"]
  /\ CsvParser004.parseCSVLine (L " a, b ,c") = [L "a"; L "b"; L "c"].
Proof.
  assert (H : existsb (ch_eqb dquote) (L " a, b ,c") = false)
    by (vm_compute; reflexivity).
  split; [exact H|].
  destruct (parseCSVLine_plain (L " a, b ,c") H) as [H1 H2].
  split; [rewrite H1 | rewrite H2]; vm_compute; reflexivity.
Defined.

(** X2.  The line parser of part_004 undoes the CSV encoding of a row:
    when every field value has a character other than the double quote,
    the line of the quoted, comma-separated values parses back to the
    trimmed values, commas and double quotes inside them included. *)
Theorem parseCSVLine004_round_trip (values : list str) :
  values <> [] ->
  forallb has_plain_char values = true ->
  CsvParser004.parseCSVLine (join [comma] (map csv_quote values))
  = map trim values.
Proof. exact (parseCSVLine004_decodes (fs := values)). Qed.

Lemma parseCSVLine004_round_trip_sample :
  [unq "say 'hi', then go"; L "b"] <> []
  /\ forallb has_plain_char [unq "say 'hi', then go"; L "b"] = true
  /\ CsvParser004.parseCSVLine
       (join [comma] (map csv_quote [unq "say 'hi', then go"; L "b"]))
     = [unq "say 'hi', then go"; L "b"].
Proof.
  assert (H1 : [unq "say 'hi', then go"; L "b"] <> []) by discriminate.
  assert (H2 : forallb has_plain_char [unq "say 'hi', then go"; L "b"] = true)
    by (vm_compute; reflexivity).
  split; [exact H1|]. split; [exact H2|].
  rewrite (parseCSVLine004_round_trip H1 H2). vm_compute. reflexivity.
Defined.

(** X3.  A quoted value made of double quotes only, the empty value
    included, comes back from the parser of part_004 with one double quote
    more than it has: the opening quote pairs up with the next one. *)
Theorem parseCSVLine004_quotes_only (value : str) :
  has_plain_char value = false ->
  CsvParser004.parseCSVLine (csv_quote value) = [trim (value ++ [dquote])].
Proof.
  intros H. unfold CsvParser004.parseCSVLine.
  rewrite <- (app_nil_r (csv_quote value)).
  rewrite quoted_field004_degenerate by (auto; exact I). reflexivity.
Qed.

Lemma parseCSVLine004_quotes_only_empty :
  has_plain_char [] = false
  /\ CsvParser004.parseCSVLine [dquote; dquote] = [[dquote]].
Proof.
  split; [reflexivity|].
  exact (@parseCSVLine004_quotes_only [] eq_refl).
Defined.

(** X4.  The line parser of csvParser.ts keeps the commas of quoted values
    and drops every double quote: the line of the quoted values parses to
    the values with their double quotes removed. *)
Theorem parseCSVLine_quotes_removed (values : list str) :
  values <> [] ->
  CsvParser.parseCSVLine (join [comma] (map csv_quote values))
  = map (fun v => trim (remove_all (ch_eqb dquote) v)) values.
Proof. exact (parseCSVLine_drops_quotes (fs := values)). Qed.

Lemma parseCSVLine_quotes_removed_sample :
  [unq "say 'hi', then go"; L "b"] <> []
  /\ CsvParser.parseCSVLine
       (join [comma] (map csv_quote [unq "say 'hi', then go"; L "b"]))
     = [L "say hi, then go"; L "b"].
Proof.
  assert (H1 : [unq "say 'hi', then go"; L "b"] <> []) by discriminate.
  split; [exact H1|].
  rewrite (parseCSVLine_quotes_removed H1). vm_compute. reflexivity.
Defined.

End CsvParserMore.

(** ** Parsed records *)

Module CsvRecordFacts.
Import CsvCommon TrimFacts CsvParserFacts DataValidation DataValidationFacts.

Lemma parseYear_bounds (s : str) (y : Z) :
  parseYear s = Some y -> (1990 <= y <= 2025)%Z.
Proof.
  unfold parseYear. destruct (negb (truthy s)); [discriminate|].
  destruct (year_match false s) as [m|]; [|discriminate].
  destruct ((1990 <=? parseInt_digits m)%Z && (parseInt_digits m <=? 2025)%Z)
    eqn:E; [|discriminate].
  intros [= <-]. apply andb_true_iff in E. destruct E as [H1 H2].
  apply Z.leb_le in H1, H2. lia.
Qed.

Lemma cleanField_trimmed (f : str) : trim (cleanField f) = cleanField f.
Proof. unfold cleanField. apply trim_idem. Qed.

Lemma getField_loop_trimmed (headers fields possible : list str) :
  trim (CsvParser.getField_loop headers fields possible)
  = CsvParser.getField_loop headers fields possible.
Proof.
  induction possible as [|pf rest IH]; simpl; [reflexivity|].
  destruct (findIndex _ headers) as [i|]; [|exact IH].
  destruct (nth_error fields i) as [f|]; [|exact IH].
  destruct (truthy f && truthy (trim f)); [apply cleanField_trimmed | exact IH].
Qed.

Lemma getField_loop004_trimmed (headers fields possible : list str) :
  trim (CsvParser004.getField_loop headers fields possible)
  = CsvParser004.getField_loop headers fields possible.
Proof.
  induction possible as [|pf rest IH]; simpl; [reflexivity|].
  destruct (findIndex _ headers) as [i|]; [|exact IH].
  destruct (nth_error fields i) as [f|]; [|exact IH].
  destruct ((i <? length fields) && truthy f && truthy (trim f));
    [apply cleanField_trimmed | exact IH].
Qed.

Lemma Some_inj (A : Type) (a b : A) : Some a = Some b -> a = b.
Proof. now intros [= ->]. Qed.

(** What every record made by [createPaperRecord] of csvParser.ts has. *)
Lemma createPaperRecord_record (headers fields : list str) (p : PaperRecord) :
  CsvParser.createPaperRecord headers fields = Some p ->
  title p <> [] /\ trim (title p) = title p /\ yearInBounds p = true.
Proof.
  unfold CsvParser.createPaperRecord.
  destruct (truthy (CsvParser.getField headers fields "title")) eqn:Ht;
    cbn [negb]; [|discriminate].
  intros H. apply Some_inj in H. subst p. cbn [title]. split; [|split].
  - intros Hnil. rewrite Hnil in Ht. discriminate.
  - apply getField_loop_trimmed.
  - unfold yearInBounds. cbn [publicationYear].
    destruct (parseYear _) as [y|] eqn:Hy; [|reflexivity].
    apply parseYear_bounds in Hy. apply andb_true_iff.
    split; apply Z.leb_le; lia.
Qed.

(** The same for part_004, with its two additions. *)
Lemma createPaperRecord004_record (headers fields : list str) (p : PaperRecord) :
  CsvParser004.createPaperRecord headers fields = Some p ->
  5 <= length (title p) /\ trim (title p) = title p
  /\ yearInBounds p = true /\ authors p <> [].
Proof.
  unfold CsvParser004.createPaperRecord.
  destruct (negb (truthy (CsvParser004.getField headers fields "title"))
            || (length (CsvParser004.getField headers fields "title") <? 5))
    eqn:Ht; [discriminate|].
  apply orb_false_iff in Ht. destruct Ht as [_ Ht]. apply Nat.ltb_ge in Ht.
  intros H. apply Some_inj in H. subst p. cbn [title authors]. split; [exact Ht|]. split; [|split].
  - apply getField_loop004_trimmed.
  - unfold yearInBounds. cbn [publicationYear].
    destruct (parseYear _) as [y|] eqn:Hy; [|reflexivity].
    apply parseYear_bounds in Hy. apply andb_true_iff.
    split; apply Z.leb_le; lia.
  - destruct (parseAuthors _) as [|a l]; simpl; discriminate.
Qed.

Section RowsIn.
Variable parseRow : str -> option PaperRecord.
Variable parseRows : list str -> list PaperRecord -> list PaperRecord.
Hypothesis parseRows_nil : forall acc, parseRows [] acc = acc.
Hypothesis parseRows_cons : forall raw rest acc,
  parseRows (raw :: rest) acc =
  match parseRow raw with
  | Some paper => parseRows rest (acc ++ [paper])
  | None => parseRows rest acc
  end.

Lemma parseRows_flat (rows : list str) : forall acc,
  parseRows rows acc = acc ++ rowRecords parseRow rows.
Proof.
  induction rows as [|raw rest IH]; intros acc.
  - rewrite parseRows_nil. simpl. now rewrite app_nil_r.
  - rewrite parseRows_cons. unfold rowRecords. simpl.
    destruct (parseRow raw); rewrite IH; [|reflexivity].
    now rewrite <- app_assoc.
Qed.

Lemma rowRecords_skip (rows : list str) :
  (forall raw, nonblank raw = false -> parseRow raw = None) ->
  rowRecords parseRow rows = rowRecords parseRow (filter nonblank rows)
  /\ length (rowRecords parseRow rows) <= length (filter nonblank rows).
Proof.
  intros Hblank. unfold rowRecords.
  induction rows as [|raw rest [IH1 IH2]]; simpl; [split; auto|].
  destruct (nonblank raw) eqn:Hn; simpl.
  - rewrite <- IH1, !length_app. split; [reflexivity|].
    destruct (parseRow raw); simpl; lia.
  - rewrite (Hblank raw Hn). simpl. auto.
Qed.

End RowsIn.

Lemma parseCSV_records (content : str) :
  CsvParser.parseCSV content
  = rowRecords (CsvParser.parseRow
                  (CsvParser.parseHeaders (hd [] (split_on newline content))))
      (tl (split_on newline content)).
Proof.
  unfold CsvParser.parseCSV. cbv zeta.
  now rewrite (@parseRows_flat (CsvParser.parseRow _) (CsvParser.parseRows _)
                 (fun _ => eq_refl) (fun _ _ _ => eq_refl)).
Qed.

Lemma parseCSV004_records (content : str) :
  CsvParser004.parseCSV content
  = rowRecords (CsvParser004.parseRow
                  (CsvParser004.parseHeaders (hd [] (split_on newline content))))
      (tl (split_on newline content)).
Proof.
  unfold CsvParser004.parseCSV. cbv zeta.
  destruct (length (split_on newline content) <? 2) eqn:E.
  - destruct (split_on newline content) as [|h [|r t]]; try reflexivity.
    discriminate.
  - now rewrite (@parseRows_flat (CsvParser004.parseRow _)
                   (CsvParser004.parseRows _)
                   (fun _ => eq_refl) (fun _ _ _ => eq_refl)).
Qed.

(** X5.  Blank lines make no record: both versions of [parseCSV] return at
    most one record per non-blank line after the header line. *)
Theorem parseCSV_at_most_one_per_line (content : str) :
  length (CsvParser.parseCSV content)
  <= length (filter nonblank (tl (split_on newline content)))
  /\ length (CsvParser004.parseCSV content)
     <= length (filter nonblank (tl (split_on newline content))).
Proof.
  rewrite parseCSV_records, parseCSV004_records. split.
  - apply rowRecords_skip. intros raw Hn. unfold CsvParser.parseRow.
    unfold nonblank in Hn. now rewrite Hn.
  - apply rowRecords_skip. intros raw Hn. unfold CsvParser004.parseRow.
    unfold nonblank in Hn. now rewrite Hn.
Qed.

Lemma rowRecords_In parseRow (rows : list str) (p : PaperRecord) :
  In p (rowRecords parseRow rows) ->
  exists raw, In raw rows /\ parseRow raw = Some p.
Proof.
  unfold rowRecords. rewrite in_flat_map. intros [raw [Hraw Hp]].
  exists raw. split; [assumption|].
  destruct (parseRow raw); [|destruct Hp]. destruct Hp as [->|[]]. reflexivity.
Qed.

Lemma parseRow_record (headers : list str) (raw : str) (p : PaperRecord) :
  CsvParser.parseRow headers raw = Some p ->
  exists fields, CsvParser.createPaperRecord headers fields = Some p.
Proof.
  unfold CsvParser.parseRow. cbv zeta.
  destruct (negb (truthy (trim raw))); [discriminate|].
  destruct (_ <? _); [discriminate|]. eauto.
Qed.

Lemma parseRow004_record (headers : list str) (raw : str) (p : PaperRecord) :
  CsvParser004.parseRow headers raw = Some p ->
  exists fields, CsvParser004.createPaperRecord headers fields = Some p.
Proof.
  unfold CsvParser004.parseRow. cbv zeta.
  destruct (negb (truthy (trim raw))); [discriminate|].
  destruct (_ <? _); [discriminate|]. eauto.
Qed.

(** The records of both parsers, one by one. *)
Lemma parseCSV_records_ok (content : str) (p : PaperRecord) :
  (In p (CsvParser.parseCSV content) ->
   title p <> [] /\ trim (title p) = title p /\ yearInBounds p = true)
  /\ (In p (CsvParser004.parseCSV content) ->
      5 <= length (title p) /\ trim (title p) = title p
      /\ yearInBounds p = true /\ authors p <> []).
Proof.
  split; intros Hin.
  - rewrite parseCSV_records in Hin. apply rowRecords_In in Hin.
    destruct Hin as [raw [_ Hp]]. apply parseRow_record in Hp.
    destruct Hp as [fields Hp]. exact (createPaperRecord_record _ _ Hp).
  - rewrite parseCSV004_records in Hin. apply rowRecords_In in Hin.
    destruct Hin as [raw [_ Hp]]. apply parseRow004_record in Hp.
    destruct Hp as [fields Hp]. exact (createPaperRecord004_record _ _ Hp).
Qed.

(** X6.  Every record that [parseCSV] returns has a title that is not
    empty and is trimmed, and a publication year that is absent or within
    1990..2025; a record of the part_004 version has a title of at least
    five characters and at least one author as well. *)
Theorem parseCSV_record_invariants (content : str) (p : PaperRecord) :
  (In p (CsvParser.parseCSV content) ->
   title p <> [] /\ trim (title p) = title p /\ yearInBounds p = true)
  /\ (In p (CsvParser004.parseCSV content) ->
      5 <= length (title p) /\ trim (title p) = title p
      /\ yearInBounds p = true /\ authors p <> []).
Proof. exact (parseCSV_records_ok content p). Qed.

Lemma parseCSV_record_invariants_fixture :
  exists p,
    In p (CsvParser004.parseCSV sampleCSVData)
    /\ 5 <= length (title p) /\ authors p <> [].
Proof.
  assert (E : exists p l, CsvParser004.parseCSV sampleCSVData = p :: l)
    by (vm_compute; eauto).
  destruct E as (p & l & E).
  exists p. assert (Hin : In p (CsvParser004.parseCSV sampleCSVData))
    by (rewrite E; now left).
  split; [exact Hin|].
  destruct (proj2 (parseCSV_record_invariants sampleCSVData p) Hin)
    as (H1 & _ & _ & H2).
  split; assumption.
Defined.

Lemma filter_true (A : Type) (f : A -> bool) (l : list A) :
  (forall x, In x l -> f x = true) -> filter f l = l.
Proof.
  induction l as [|x l IH]; intros H; simpl; [reflexivity|].
  rewrite (H x (or_introl eq_refl)), IH; [reflexivity|].
  intros y Hy. apply H. now right.
Qed.

Lemma filter_false (A : Type) (f : A -> bool) (l : list A) :
  (forall x, In x l -> f x = true) -> filter (fun x => negb (f x)) l = [].
Proof.
  induction l as [|x l IH]; intros H; simpl; [reflexivity|].
  rewrite (H x (or_introl eq_refl)). simpl. apply IH.
  intros y Hy. apply H. now right.
Qed.

(** X7.  The validator accepts every record the parser makes: on the
    output of either [parseCSV], [validatePaperDataset] puts all records in
    [validPapers], in order, and none in [invalidPapers]. *)
Theorem parsed_records_are_valid (isValidURL : str -> bool) (content : str) :
  let r := validatePaperDataset isValidURL (CsvParser.parseCSV content) in
  let r4 := validatePaperDataset isValidURL (CsvParser004.parseCSV content) in
  validPapers r = CsvParser.parseCSV content /\ invalidPapers r = []
  /\ validPapers r4 = CsvParser004.parseCSV content /\ invalidPapers r4 = [].
Proof.
  cbv zeta. unfold validatePaperDataset. cbn [validPapers invalidPapers].
  destruct (dataset_invariant isValidURL (CsvParser.parseCSV content))
    as (Hv & Hi & _).
  destruct (dataset_invariant isValidURL (CsvParser004.parseCSV content))
    as (Hv4 & Hi4 & _).
  rewrite Hv, Hi, Hv4, Hi4.
  assert (H1 : forall p, In p (CsvParser.parseCSV content)
                         -> valid isValidURL p = true).
  { intros p Hp. apply valid_iff_title.
    destruct (proj1 (parseCSV_records_ok content p) Hp) as (Hne & Ht & _).
    now rewrite Ht. }
  assert (H4 : forall p, In p (CsvParser004.parseCSV content)
                         -> valid isValidURL p = true).
  { intros p Hp. apply valid_iff_title.
    destruct (proj2 (parseCSV_records_ok content p) Hp) as (Hlen & Ht & _).
    rewrite Ht. intros Hnil. rewrite Hnil in Hlen. simpl in Hlen. lia. }
  rewrite (filter_true _ _ H1), (filter_false _ _ H1).
  rewrite (filter_true _ _ H4), (filter_false _ _ H4). auto.
Qed.

End CsvRecordFacts.

(** ** Years and quality figures *)

Module YearMore.
Import CsvCommon YearFacts.

Lemma ch_eqb_digit (x : ascii) (n : nat) :
  ch_eqb x (chr n) = true -> is_digit (chr n) = true -> is_digit x = true.
Proof.
  intros H Hd. apply CsvLineFacts.ch_eqb_true in H. now subst.
Qed.

Lemma year_at_no_digit (pw : bool) (x : ascii) (s : str) :
  is_digit x = false -> year_at pw (x :: s) = None.
Proof.
  intros Hx. unfold year_at. destruct s as [|b [|c [|d rest]]]; try reflexivity.
  destruct (ch_eqb x (chr 49)) eqn:E1.
  { apply ch_eqb_digit in E1; [congruence | reflexivity]. }
  destruct (ch_eqb x (chr 50)) eqn:E2.
  { apply ch_eqb_digit in E2; [congruence | reflexivity]. }
  cbn [andb orb]. now rewrite andb_false_r.
Qed.

Lemma boundary_before_tail (pw : bool) (x : ascii) (pre : str) :
  boundary_before pw (x :: pre) = boundary_before (is_word x) pre.
Proof.
  unfold boundary_before. simpl. destruct (rev pre) as [|e t]; reflexivity.
Qed.

Lemma year_match_first (m post : str) : forall (pre : str) (pw : bool),
  forallb (fun x => negb (is_digit x)) pre = true ->
  boundary_before pw pre = true ->
  is_year_text m = true ->
  boundary_after post = true ->
  year_match pw (pre ++ m ++ post) = Some m.
Proof.
  intros pre. induction pre as [|x pre IH]; intros pw Hpre Hb Hm Ha.
  - rewrite year_match_eq. cbn [app].
    destruct m as [|a [|b [|c [|d [|e t]]]]]; try discriminate.
    unfold boundary_before in Hb. cbn [rev] in Hb.
    unfold is_year_text in Hm. unfold year_at. cbn [app].
    apply andb_true_iff in Hm. destruct Hm as [Hm Hd].
    apply andb_true_iff in Hm. destruct Hm as [Hab Hc].
    unfold boundary_after in Ha.
    rewrite Hb, Hab, Hc, Hd. cbn [andb].
    destruct post as [|e t]; [reflexivity|]. now rewrite Ha.
  - cbn [forallb] in Hpre. apply andb_true_iff in Hpre.
    destruct Hpre as [Hx Hpre]. apply negb_true_iff in Hx.
    rewrite year_match_eq. cbn [app].
    change (x :: pre ++ m ++ post) with (x :: (pre ++ m ++ post)).
    rewrite (@year_at_no_digit pw x (pre ++ m ++ post) Hx).
    apply IH; try assumption. now rewrite <- (boundary_before_tail pw).
Qed.

(** X8.  [parseYear] decides on the first year text alone: when no digit
    comes before a text [19dd] or [20dd] that stands between word
    boundaries, the result is that year if it lies in 1990..2025 and [null]
    if it does not, whatever follows; a year in range later in the string
    is not looked for. *)
Theorem parseYear_first_year_decides (pre m post : str) :
  forallb (fun x => negb (is_digit x)) pre = true ->
  boundary_before false pre = true ->
  is_year_text m = true ->
  boundary_after post = true ->
  parseYear (pre ++ m ++ post)
  = if ((1990 <=? parseInt_digits m) && (parseInt_digits m <=? 2025))%Z
    then Some (parseInt_digits m) else None.
Proof.
  intros Hpre Hb Hm Ha. unfold parseYear.
  rewrite (@year_match_first m post pre false Hpre Hb Hm Ha).
  assert (Ht : truthy (pre ++ m ++ post) = true).
  { destruct pre; [|reflexivity]. destruct m; [discriminate | reflexivity]. }
  rewrite Ht. reflexivity.
Qed.

Lemma parseYear_first_year_decides_1985 :
  parseYear (L "1985, reprinted 2001") = None.
Proof.
  exact (@parseYear_first_year_decides [] (L "1985") (L ", reprinted 2001")
           eq_refl eq_refl eq_refl eq_refl).
Defined.

Lemma pct_bounds (n t : nat) :
  n <= t -> 0 < t ->
  exists q,
    js_mul (js_div (js_of_nat n) (js_of_nat t)) (js_of_nat 100) = Fin q
    /\ (0 <= q)%Q /\ (q <= 100)%Q
    /\ (n = t -> q == 100)%Q.
Proof.
  intros Hle Hpos. unfold js_of_nat, js_div.
  set (x := inject_Z (Z.of_nat n)). set (y := inject_Z (Z.of_nat t)).
  assert (Hy : (0 < y)%Q).
  { unfold y. rewrite <- (Zlt_Qlt 0). lia. }
  assert (Hx : (0 <= x)%Q).
  { unfold x. rewrite <- (Zle_Qle 0). lia. }
  assert (Hxy : (x <= y)%Q).
  { unfold x, y. rewrite <- Zle_Qle. lia. }
  assert (Hz : Qeq_bool y 0 = false).
  { destruct (Qeq_bool y 0) eqn:E; [|reflexivity].
    apply Qeq_bool_eq in E. rewrite E in Hy. now apply Qlt_irrefl in Hy. }
  rewrite Hz. cbn [js_mul]. eexists. split; [reflexivity|].
  assert (H0 : (0 <= x / y)%Q).
  { apply Qle_shift_div_l; [assumption|]. now rewrite Qmult_0_l. }
  assert (H1 : (x / y <= 1)%Q).
  { apply Qle_shift_div_r; [assumption|]. now rewrite Qmult_1_l. }
  split; [|split].
  - apply Qmult_le_0_compat; [assumption | discriminate].
  - setoid_replace (100 : Q) with (1 * inject_Z 100)%Q by reflexivity.
    apply Qmult_le_compat_r; [assumption | discriminate].
  - intros E. assert (Exy : x = y) by (unfold x, y; now rewrite E).
    rewrite Exy. unfold Qdiv. rewrite Qmult_inv_r; [reflexivity|].
    intros E0. rewrite E0 in Hy. now apply Qlt_irrefl in Hy.
Qed.

(** X9.  On a list that is not empty each of the four coverage figures of
    [calculateQualityMetrics] is a finite number between 0 and 100, and
    [totalPapers] is the length of the list; when every paper has an
    abstract that is not blank, [abstractCoverage] is 100. *)
Theorem calculateQualityMetrics_percentages (currentYear : Z)
    (papers : list PaperRecord) :
  papers <> [] ->
  let m := calculateQualityMetrics currentYear papers in
  totalPapers m = length papers
  /\ (forall f,
        In f [doiCoverage; urlCoverage; abstractCoverage; recentPapers] ->
        exists q, f m = Fin q /\ (0 <= q)%Q /\ (q <= 100)%Q)
  /\ ((forall p, In p papers -> trim (abstract p) <> []) ->
      exists q, abstractCoverage m = Fin q /\ (q == 100)%Q).
Proof.
  intros Hne. cbv zeta.
  assert (Hpos : 0 < length papers).
  { destruct papers; [now destruct Hne | simpl; lia]. }
  split; [reflexivity|]. split.
  - intros f Hf.
    assert (Hb : forall g : PaperRecord -> bool,
              exists q,
                js_mul (js_div (js_of_nat (length (filter g papers)))
                          (js_of_nat (length papers))) (js_of_nat 100) = Fin q
                /\ (0 <= q)%Q /\ (q <= 100)%Q).
    { intros g.
      destruct (@pct_bounds (length (filter g papers)) (length papers)
                  (filter_length_le g papers) Hpos) as (q & Hq & H0 & H1 & _).
      exists q. auto. }
    unfold calculateQualityMetrics.
    destruct Hf as [<-|[<-|[<-|[<-|[]]]]];
      cbn [doiCoverage urlCoverage abstractCoverage recentPapers]; apply Hb.
  - intros Hall. unfold calculateQualityMetrics. cbn [abstractCoverage].
    match goal with
    | |- context [filter ?g papers] =>
        assert (Hf : filter g papers = papers)
    end.
    { apply CsvRecordFacts.filter_true. intros p Hp. specialize (Hall p Hp).
      destruct (abstract p) as [|c r] eqn:Ea; [now destruct Hall|].
      cbn [truthy str_eqb negb andb].
      destruct (trim (c :: r)); [now destruct Hall | reflexivity]. }
    rewrite Hf.
    destruct (@pct_bounds (length papers) (length papers) (le_n _) Hpos)
      as (q & Hq & _ & _ & H100).
    exists q. split; [exact Hq | now apply H100].
Qed.

Lemma calculateQualityMetrics_percentages_fixture :
  totalPapers (calculateQualityMetrics 2024 (CsvParser.parseCSV sampleCSVData))
  = length (CsvParser.parseCSV sampleCSVData).
Proof.
  assert (Hne : CsvParser.parseCSV sampleCSVData <> [])
    by (vm_compute; discriminate).
  exact (proj1 (@calculateQualityMetrics_percentages 2024 _ Hne)).
Defined.

End YearMore.

(** ** Cleaning and duplicate titles *)

Module DataValidationMore.
Import TrimFacts DataValidation DataValidationFacts.

Lemma dropWhile_nil_iff (f : ascii -> bool) (s : str) :
  dropWhile f s = [] <-> forallb f s = true.
Proof.
  induction s as [|c r IH]; simpl; [tauto|].
  destruct (f c); simpl; [exact IH|]. split; discriminate.
Qed.

Lemma trim_nil_iff (s : str) : trim s = [] <-> forallb is_space s = true.
Proof.
  rewrite <- dropWhile_nil_iff. unfold trim. fold (trimStart s).
  pose proof (trimStart_head s) as H.
  destruct (trimStart s) as [|c r]; [tauto|].
  destruct (@trimEnd_head c r H) as [t Ht]. rewrite Ht. split; discriminate.
Qed.

Lemma startsWith_app (p s : str) : startsWith (p ++ s) p = true.
Proof.
  induction p as [|a p IH]; [now destruct s|]. simpl.
  rewrite IH, andb_true_r. now apply CsvLineFacts.ch_eqb_true.
Qed.

Lemma startsWith_split (p s : str) :
  startsWith s p = true -> s = p ++ skipn (length p) s.
Proof.
  revert s. induction p as [|a p IH]; intros s; [reflexivity|].
  destruct s as [|b s]; [discriminate|]. simpl. intros H.
  apply andb_true_iff in H. destruct H as [Hab Hs].
  apply CsvLineFacts.ch_eqb_true in Hab. subst b. f_equal. now apply IH.
Qed.

Lemma takeWhile_dropWhile (f : ascii -> bool) (s : str) :
  s = takeWhile f s ++ dropWhile f s /\ forallb f (takeWhile f s) = true.
Proof.
  induction s as [|c r [IH1 IH2]]; simpl; [auto|].
  destruct (f c) eqn:E; simpl; [|auto]. rewrite E. split; [now f_equal | exact IH2].
Qed.

Lemma takeWhile_stop (f : ascii -> bool) (ds : str) (c : ascii) (rest : str) :
  forallb f ds = true -> f c = false ->
  takeWhile f (ds ++ c :: rest) = ds /\ dropWhile f (ds ++ c :: rest) = c :: rest.
Proof.
  intros Hds Hc. induction ds as [|d ds IH]; simpl.
  - now rewrite Hc.
  - simpl in Hds. apply andb_true_iff in Hds. destruct Hds as [Hd Hds].
    rewrite Hd. destruct (IH Hds) as [H1 H2]. now rewrite H1, H2.
Qed.

(** X10.  [isValidDOI] accepts exactly the strings that, once trimmed, are
    [10.], four or more digits, a slash and one or more characters that
    are not white space. *)
Theorem isValidDOI_iff (doi : str) :
  isValidDOI doi = true <->
  exists digits rest,
    trim doi = L "10." ++ digits ++ chr 47 :: rest
    /\ 4 <= length digits /\ forallb is_digit digits = true
    /\ rest <> [] /\ forallb (fun x => negb (is_space x)) rest = true.
Proof.
  unfold isValidDOI. cbv zeta. split.
  - intros H. apply andb_true_iff in H. destruct H as [Hs H].
    apply andb_true_iff in H. destruct H as [Hlen H].
    apply startsWith_split in Hs. change (length (L "10.")) with 3 in Hs.
    destruct (takeWhile_dropWhile is_digit (skipn 3 (trim doi))) as [Hsplit Hdig].
    destruct (dropWhile is_digit (skipn 3 (trim doi))) as [|c rest]; [discriminate|].
    apply andb_true_iff in H. destruct H as [H Hns].
    apply andb_true_iff in H. destruct H as [Hc Hrest].
    apply CsvLineFacts.ch_eqb_true in Hc. subst c.
    exists (takeWhile is_digit (skipn 3 (trim doi))), rest.
    split; [now rewrite <- Hsplit|]. split; [now apply Nat.leb_le|].
    split; [assumption|]. split; [|assumption].
    intros ->. discriminate.
  - intros (digits & rest & Ht & Hlen & Hdig & Hne & Hns).
    rewrite Ht. rewrite startsWith_app. cbn [andb].
    change (skipn 3 (L "10." ++ digits ++ chr 47 :: rest))
      with (digits ++ chr 47 :: rest).
    destruct (@takeWhile_stop is_digit digits (chr 47) rest Hdig eq_refl)
      as [H1 H2].
    rewrite H1, H2, Hns, andb_true_r.
    assert (Hc : ch_eqb (chr 47) (chr 47) = true)
      by now apply CsvLineFacts.ch_eqb_true.
    rewrite Hc. cbn [andb]. apply andb_true_iff. split.
    + now apply Nat.leb_le.
    + destruct rest; [now destruct Hne | reflexivity].
Qed.

Lemma removeDuplicatePapers_snoc (papers : list PaperRecord) (p : PaperRecord) :
  removeDuplicatePapers (papers ++ [p]) =
  removeDuplicatePapers papers
  ++ (if set_has (map norm papers) (norm p) then [] else [p]).
Proof.
  pose proof (dedup_invariant papers) as H. cbv zeta in H.
  destruct H as (Hseen & Hmem & _ & _).
  unfold removeDuplicatePapers. rewrite fold_left_app. simpl.
  destruct (fold_left dedup_step papers ([], [])) as [unique seen].
  simpl in *. unfold dedup_step. simpl. fold (norm p).
  assert (Heq : set_has seen (norm p) = set_has (map norm papers) (norm p)).
  { apply eq_true_iff_eq. rewrite !set_has_In. apply Hmem. }
  rewrite <- Heq. destruct (set_has seen (norm p)); simpl;
    [now rewrite app_nil_r | reflexivity].
Qed.

Lemma removeDuplicatePapers_fixed (papers : list PaperRecord) :
  NoDup (map norm papers) -> removeDuplicatePapers papers = papers.
Proof.
  induction papers as [|p ps IH] using rev_ind; intros Hnd; [reflexivity|].
  rewrite removeDuplicatePapers_snoc.
  rewrite map_app in Hnd. simpl in Hnd.
  apply NoDup_remove in Hnd. rewrite app_nil_r in Hnd. destruct Hnd as [Hnd Hnot].
  rewrite (IH Hnd).
  destruct (set_has (map norm ps) (norm p)) eqn:E; [|reflexivity].
  apply set_has_In in E. contradiction.
Qed.

(** X11.  [removeDuplicatePapers] is idempotent: a second pass removes
    nothing. *)
Theorem removeDuplicatePapers_idempotent (papers : list PaperRecord) :
  removeDuplicatePapers (removeDuplicatePapers papers)
  = removeDuplicatePapers papers.
Proof.
  apply removeDuplicatePapers_fixed.
  pose proof (dedup_invariant papers) as H. cbv zeta in H.
  destruct H as (Hseen & _ & Hnd & _).
  unfold removeDuplicatePapers. now rewrite <- Hseen.
Qed.

Lemma lower_char_class (c : ascii) :
  lower_char (lower_char c) = lower_char c
  /\ is_word (lower_char c) = is_word c
  /\ is_space (lower_char c) = is_space c.
Proof.
  destruct c as [[] [] [] [] [] [] [] []]; vm_compute; auto.
Qed.

Lemma toLowerCase_idem (s : str) : toLowerCase (toLowerCase s) = toLowerCase s.
Proof.
  unfold toLowerCase. rewrite map_map. apply map_ext.
  intros c. apply lower_char_class.
Qed.

Local Abbreviation kept := (fun c : ascii => negb (negb (is_word c || is_space c))).

Lemma filter_lower (s : str) :
  filter kept (toLowerCase s) = toLowerCase (filter kept s).
Proof.
  unfold toLowerCase. induction s as [|c r IH]; [reflexivity|]. simpl.
  destruct (lower_char_class c) as (_ & Hw & Hs). rewrite Hw, Hs.
  destruct (negb (negb (is_word c || is_space c))); simpl; now rewrite IH.
Qed.

Lemma replace_ws_runs_spaces (r : str) (s : str) : forall b,
  forallb is_space s = true ->
  replace_ws_runs r b s = if b then [] else match s with [] => [] | _ => r end.
Proof.
  induction s as [|c t IH]; intros b Hs; simpl; [now destruct b|].
  simpl in Hs. apply andb_true_iff in Hs. destruct Hs as [Hc Ht].
  rewrite Hc, (IH true Ht). now rewrite app_nil_r.
Qed.

Lemma replace_ws_runs_keeps (r : str) (c : ascii) (s : str) : forall b,
  In c s -> is_space c = false -> In c (replace_ws_runs r b s).
Proof.
  induction s as [|x t IH]; intros b Hin Hc; [destruct Hin|]. simpl.
  destruct Hin as [->|Hin].
  - rewrite Hc. now left.
  - destruct (is_space x); [apply in_or_app; right | right]; now apply IH.
Qed.

Lemma word_not_space (c : ascii) : is_word c = true -> is_space c = false.
Proof.
  destruct c as [[] [] [] [] [] [] [] []]; vm_compute; auto; discriminate.
Qed.

Lemma normalize_nil_iff (title : str) :
  normalizeTitleForComparison title = [] <-> wordless title = true.
Proof.
  unfold normalizeTitleForComparison, remove_all, wordless.
  rewrite trim_nil_iff. rewrite filter_lower. split.
  - intros H. apply forallb_forall. intros c Hc.
    destruct (is_word c) eqn:Hw; [|reflexivity]. exfalso.
    assert (Hin : In (lower_char c)
              (toLowerCase (filter kept title))).
    { unfold toLowerCase. apply in_map. apply filter_In. split; [assumption|].
      now rewrite Hw. }
    destruct (lower_char_class c) as (_ & Hlw & _).
    assert (Hns : is_space (lower_char c) = false).
    { apply word_not_space. now rewrite Hlw. }
    pose proof (@replace_ws_runs_keeps (L " ") _ _ false Hin Hns) as Hk.
    rewrite forallb_forall in H. specialize (H _ Hk). congruence.
  - intros H.
    assert (Hsp : forallb is_space (toLowerCase (filter kept title)) = true).
    { apply forallb_forall. intros x Hx. unfold toLowerCase in Hx.
      apply in_map_iff in Hx. destruct Hx as (c & <- & Hc).
      apply filter_In in Hc. destruct Hc as [Hc Hk].
      rewrite forallb_forall in H. specialize (H c Hc).
      apply negb_true_iff in H. rewrite H in Hk. simpl in Hk.
      destruct (lower_char_class c) as (_ & _ & Hs). rewrite Hs.
      now rewrite negb_involutive in Hk. }
    rewrite (replace_ws_runs_spaces (L " ") _ false Hsp).
    destruct (toLowerCase (filter kept title)); reflexivity.
Qed.

(** X12.  Titles are compared without regard to case and punctuation:
    [normalizeTitleForComparison] gives the same text for a title and its
    lower-case form, and for a title with or without a character that is
    neither of [\w] nor white space. *)
Theorem normalizeTitleForComparison_insensitive (a b : str) (c : ascii) :
  is_word c || is_space c = false ->
  normalizeTitleForComparison (toLowerCase (a ++ b))
  = normalizeTitleForComparison (a ++ b)
  /\ normalizeTitleForComparison (a ++ c :: b)
     = normalizeTitleForComparison (a ++ b).
Proof.
  intros Hc. unfold normalizeTitleForComparison. split.
  - now rewrite toLowerCase_idem.
  - unfold remove_all. rewrite !filter_lower, !filter_app. simpl.
    now rewrite Hc.
Qed.

Lemma normalizeTitleForComparison_insensitive_colon :
  normalizeTitleForComparison (L "Game Theory: A Survey")
  = normalizeTitleForComparison (L "Game Theory A Survey").
Proof.
  exact (proj2 (@normalizeTitleForComparison_insensitive
                  (L "Game Theory") (L " A Survey") (chr 58) eq_refl)).
Defined.

(** X13.  A title without any character of [\w] is normalized to the empty
    text, and only such a title is; so of the papers with such titles
    [removeDuplicatePapers] keeps the first and drops every later one,
    whatever the titles are. *)
Theorem removeDuplicatePapers_wordless_titles
    (papers : list PaperRecord) (p q : PaperRecord) :
  In q papers -> wordless (title q) = true -> wordless (title p) = true ->
  norm p = [] /\ norm q = []
  /\ removeDuplicatePapers (papers ++ [p]) = removeDuplicatePapers papers.
Proof.
  intros Hin Hq Hp. apply normalize_nil_iff in Hq, Hp.
  change (norm q = []) in Hq. change (norm p = []) in Hp.
  split; [exact Hp|]. split; [exact Hq|].
  rewrite removeDuplicatePapers_snoc.
  assert (Hhas : set_has (map norm papers) (norm p) = true).
  { apply set_has_In. rewrite Hp, <- Hq. now apply in_map. }
  rewrite Hhas. apply app_nil_r.
Qed.

Lemma removeDuplicatePapers_wordless_titles_sample :
  removeDuplicatePapers [titled (L "???"); titled (L "!")]
  = removeDuplicatePapers [titled (L "???")].
Proof.
  exact (proj2 (proj2 (@removeDuplicatePapers_wordless_titles
                  [titled (L "???")] (titled (L "!"))
                  (titled (L "???"))
                  (or_introl eq_refl) eq_refl eq_refl))).
Defined.

End DataValidationMore.

(** ** Cleaned records and the counters of the validator *)

Module CleaningFacts.
Import TrimFacts DataValidation DataValidationFacts.

Lemma clean_list_fixed (l : list str) :
  let c := filter (fun a => 0 <? length a) (map trim l) in
  filter (fun a => 0 <? length a) (map trim c) = c
  /\ (forall a, In a c -> a <> [] /\ trim a = a).
Proof.
  cbv zeta. induction l as [|a l [IH1 IH2]]; simpl; [split; [reflexivity | intros a []]|].
  destruct (0 <? length (trim a)) eqn:E; simpl.
  - rewrite trim_idem, E, IH1. split; [reflexivity|].
    intros x [<-|Hx]; [|now apply IH2]. split; [|apply trim_idem].
    intros Hnil. rewrite Hnil in E. discriminate.
  - split; assumption.
Qed.

Lemma option_trim_idem (o : option str) :
  option_map trim (option_map trim o) = option_map trim o.
Proof. destruct o; simpl; [now rewrite trim_idem | reflexivity]. Qed.

(** X14.  [cleanPaperRecord] is idempotent and does not change the verdict
    of [validatePaperRecord]; the authors and tags it leaves are trimmed and
    not empty, and key, item type and year stay as they are. *)
Theorem cleanPaperRecord_idempotent (isValidURL : str -> bool) (p : PaperRecord) :
  cleanPaperRecord (cleanPaperRecord p) = cleanPaperRecord p
  /\ valid isValidURL (cleanPaperRecord p) = valid isValidURL p
  /\ (forall a, In a (authors (cleanPaperRecord p) ++ tags (cleanPaperRecord p))
                -> a <> [] /\ trim a = a)
  /\ key (cleanPaperRecord p) = key p
  /\ itemType (cleanPaperRecord p) = itemType p
  /\ publicationYear (cleanPaperRecord p) = publicationYear p.
Proof.
  split; [|split; [|split; [|auto]]].
  - unfold cleanPaperRecord.
    cbn [key itemType publicationYear authors title publicationTitle doi url
         abstract tags venue].
    rewrite !trim_idem, !option_trim_idem.
    rewrite (proj1 (clean_list_fixed (authors p))).
    rewrite (proj1 (clean_list_fixed (tags p))). reflexivity.
  - apply eq_true_iff_eq. rewrite !valid_iff_title.
    unfold cleanPaperRecord. cbn [title]. now rewrite trim_idem.
  - intros a Ha. apply in_app_or in Ha. unfold cleanPaperRecord in Ha.
    cbn [authors tags] in Ha.
    destruct Ha as [Ha|Ha]; revert a Ha; apply clean_list_fixed.
Qed.

Section Counters.
Variable isValidURL : str -> bool.
Local Abbreviation valid := (DataValidation.valid isValidURL).
Local Abbreviation warned :=
  (fun p => 0 <? length (warnings (validatePaperRecord isValidURL p))).

Lemma NoDup_snoc (A : Type) (l : list A) (x : A) :
  NoDup (l ++ [x]) <-> NoDup l /\ ~ In x l.
Proof.
  split.
  - intros H. apply NoDup_remove in H. now rewrite app_nil_r in H.
  - intros [H Hx]. apply NoDup_app; [assumption | repeat constructor; simpl; tauto|].
    intros a Ha [<-|[]]. contradiction.
Qed.

Lemma dataset_counters (papers : list PaperRecord) :
  let st := fold_left (dataset_step isValidURL) papers dataset_init in
  st_papersWithWarnings st
  = length (filter (fun p => valid p && warned p) papers)
  /\ (st_duplicateKeys st = [] <-> NoDup (map key papers))
  /\ (forall k, In k (st_duplicateKeys st) -> In k (map key papers)).
Proof.
  induction papers as [|p ps IH] using rev_ind; cbv zeta.
  - simpl. split; [reflexivity|]. split; [|intros k []].
    split; [constructor | reflexivity].
  - pose proof (dataset_invariant isValidURL ps) as Hinv. cbv zeta in Hinv.
    destruct Hinv as (_ & _ & Hk).
    rewrite fold_left_app. cbn [fold_left].
    destruct (fold_left (dataset_step isValidURL) ps dataset_init)
      as [vp ip ks dk pw].
    cbv zeta in IH.
    cbn [st_papersWithWarnings st_duplicateKeys st_keysSeen] in IH, Hk.
    destruct IH as (Hpw & Hdk & Hin).
    assert (Hhas : set_has ks (key p) = true <-> In (key p) (map key ps)).
    { rewrite set_has_In. apply Hk. }
    rewrite filter_app, length_app, map_app. cbn [map]. rewrite NoDup_snoc.
    cbn [filter].
    unfold dataset_step. cbn [st_keysSeen st_duplicateKeys st_papersWithWarnings].
    fold (valid p).
    assert (Hdup :
      ((if set_has ks (key p) then dk ++ [key p] else dk) = []
       <-> NoDup (map key ps) /\ ~ In (key p) (map key ps))
      /\ (forall k, In k (if set_has ks (key p) then dk ++ [key p] else dk)
                    -> In k (map key ps ++ [key p]))).
    { destruct (set_has ks (key p)) eqn:E.
      - split.
        + split; [intros H; now destruct dk | intros [_ H]; destruct H; now apply Hhas].
        + intros k Hk'. apply in_app_or in Hk'. apply in_or_app.
          destruct Hk' as [Hk'|Hk']; [left; now apply Hin | now right].
      - split.
        + rewrite Hdk. split; [|tauto]. intros H. split; [assumption|].
          intros Hc. apply Hhas in Hc. congruence.
        + intros k Hk'. apply in_or_app. left. now apply Hin. }
    destruct (valid p) eqn:Hv;
      cbn [st_papersWithWarnings st_duplicateKeys andb];
      (split; [|exact Hdup]).
    + destruct (0 <? length (warnings (validatePaperRecord isValidURL p)));
        cbn [length]; lia.
    + cbn [length]. lia.
Qed.

Lemma filter_filter (A : Type) (f g : A -> bool) (l : list A) :
  filter g (filter f l) = filter (fun x => f x && g x) l.
Proof.
  induction l as [|x l IH]; [reflexivity|]. simpl.
  destruct (f x); simpl; [destruct (g x)|]; now rewrite IH.
Qed.

(** X15.  [papersWithWarnings] counts the valid papers that have a warning,
    so it never exceeds the number of valid papers; the warnings of an
    invalid paper are not counted. *)
Theorem validatePaperDataset_papersWithWarnings (papers : list PaperRecord) :
  let r := validatePaperDataset isValidURL papers in
  papersWithWarnings (overallStats r) = length (filter warned (validPapers r))
  /\ papersWithWarnings (overallStats r) <= stats_validPapers (overallStats r).
Proof.
  cbv zeta. unfold validatePaperDataset.
  cbn [overallStats papersWithWarnings stats_validPapers validPapers].
  destruct (dataset_counters papers) as (Hpw & _ & _).
  destruct (dataset_invariant isValidURL papers) as (Hv & _ & _).
  rewrite Hpw, Hv, filter_filter. split; [reflexivity|].
  rewrite <- (filter_filter valid warned). apply filter_length_le.
Qed.

(** X16.  [duplicateKeys] is empty exactly when the keys of the input are
    pairwise distinct, and it holds keys of the input only. *)
Theorem validatePaperDataset_duplicateKeys (papers : list PaperRecord) :
  let r := validatePaperDataset isValidURL papers in
  (duplicateKeys (overallStats r) = [] <-> NoDup (map key papers))
  /\ (forall k, In k (duplicateKeys (overallStats r)) -> In k (map key papers)).
Proof.
  cbv zeta. unfold validatePaperDataset. cbn [overallStats duplicateKeys].
  destruct (dataset_counters papers) as (_ & Hdk & Hin). split; assumption.
Qed.

End Counters.

End CleaningFacts.

(** ** The collaboration graph *)

Module GraphFacts.
Import DataValidation AuthorAnalysis DataValidationFacts MapFacts.
Import ComponentFacts AdjacencyFacts.

Lemma insert_sorted_descending (A : Type) (f : A -> nat) (x : A) (l : list A) :
  descending f l ->
  descending f (insert_sorted (fun a b => f a <? f b) x l).
Proof.
  unfold descending. induction l as [|y r IH]; intros Hs; simpl.
  - repeat constructor.
  - apply StronglySorted_inv in Hs. destruct Hs as [Hr Hy].
    destruct (Nat.ltb_spec (f x) (f y)) as [Hlt|Hge].
    + constructor; [now apply IH|].
      apply Forall_forall. intros z Hz.
      apply (Permutation_in _ (Permutation_sym (insert_sorted_perm _ x r))) in Hz.
      destruct Hz as [<-|Hz]; [lia|].
      rewrite Forall_forall in Hy. now apply Hy.
    + constructor; [now constructor|]. constructor; [assumption|].
      apply Forall_forall. intros z Hz. rewrite Forall_forall in Hy.
      specialize (Hy z Hz). lia.
Qed.

Lemma stable_sort_descending (A : Type) (f : A -> nat) (l : list A) :
  descending f (stable_sort (fun a b => f a <? f b) l).
Proof.
  induction l as [|x r IH]; simpl; [constructor|].
  now apply insert_sorted_descending.
Qed.

Lemma reachable_trans adj (a b c : str) :
  reachable adj a b -> reachable adj b c -> reachable adj a c.
Proof.
  intros Hab Hbc. induction Hbc as [|x y Hbx IH Hy]; [assumption|].
  now apply reachable_step with x.
Qed.

(** What the loop of [findConnectedComponent] has done when it ends. *)
Lemma componentLoop_spec adj (fuel : nat) :
  forall queue processed component comp' proc',
    (forall x, In x component -> In x processed) ->
    componentLoop fuel adj queue processed component = Some (comp', proc') ->
    exists added,
      comp' = component ++ added /\ proc' = processed ++ added
      /\ NoDup added
      /\ (forall x, In x added ->
            ~ In x processed /\ exists q, In q queue /\ reachable adj q x)
      /\ (forall q, In q queue -> In q proc')
      /\ (forall x n, In x added -> In n (neighborsOf adj x) -> In n proc').
Proof.
  induction fuel as [|fuel IH]; intros queue processed component comp' proc' Hsub H.
  - destruct queue as [|current rest]; [|discriminate].
    simpl in H. injection H as <- <-. exists [].
    rewrite !app_nil_r. split; [reflexivity|]. split; [reflexivity|].
    split; [constructor|]. split; [intros x []|].
    split; [intros q [] | intros x n []].
  - destruct queue as [|current rest].
    { simpl in H. injection H as <- <-. exists [].
      rewrite !app_nil_r. split; [reflexivity|]. split; [reflexivity|].
      split; [constructor|]. split; [intros x []|].
      split; [intros q [] | intros x n []]. }
    cbn [componentLoop] in H.
    destruct (set_has processed current) eqn:E.
    + destruct (IH _ _ _ _ _ Hsub H)
        as (added & Hc & Hp & Hnd & Hnew & Hq & Hcl).
      exists added. split; [assumption|]. split; [assumption|].
      split; [assumption|]. split; [|split; [|assumption]].
      * intros x Hx. destruct (Hnew x Hx) as [Hn (q & Hq' & Hr)].
        split; [assumption|]. exists q. split; [now right | assumption].
      * intros q [<-|Hq']; [|now apply Hq].
        rewrite Hp. apply in_or_app. left. now apply set_has_In.
    + assert (Hnc : set_has component current = false).
      { destruct (set_has component current) eqn:Ec; [|reflexivity].
        apply set_has_In, Hsub, set_has_In in Ec. congruence. }
      rewrite (set_add_fresh _ _ E), (set_add_fresh _ _ Hnc) in H.
      assert (Hsub' : forall x, In x (component ++ [current])
                                -> In x (processed ++ [current])).
      { intros x Hx. apply in_app_or in Hx. apply in_or_app.
        destruct Hx as [Hx|Hx]; [left; now apply Hsub | now right]. }
      destruct (IH _ _ _ _ _ Hsub' H)
        as (added & Hc & Hp & Hnd & Hnew & Hq & Hcl).
      assert (Hcur : ~ In current processed).
      { intros Hin. apply set_has_In in Hin. congruence. }
      exists (current :: added).
      split; [now rewrite Hc, <- app_assoc|].
      split; [now rewrite Hp, <- app_assoc|].
      split; [|split; [|split]].
      * constructor; [|assumption]. intros Hin.
        destruct (Hnew _ Hin) as [Hn _]. apply Hn, in_or_app. right. now left.
      * intros x [<-|Hx].
        { split; [assumption|]. exists current. split; [now left | constructor]. }
        destruct (Hnew x Hx) as [Hn (q & Hq' & Hr)]. split.
        { intros Hin. apply Hn, in_or_app. now left. }
        apply in_app_or in Hq'. destruct Hq' as [Hq'|Hq'].
        { exists q. split; [now right | assumption]. }
        apply filter_In in Hq'. destruct Hq' as [Hq' _].
        exists current. split; [now left|].
        apply reachable_trans with q; [|assumption].
        apply reachable_step with current; [constructor | assumption].
      * intros q [<-|Hq'].
        { rewrite Hp. apply in_or_app. left. apply in_or_app. right. now left. }
        apply Hq, in_or_app. now left.
      * intros x n [<-|Hx] Hn; [|now apply (Hcl x)].
        destruct (set_has (processed ++ [current]) n) eqn:En.
        { rewrite Hp. apply in_or_app. left. now apply set_has_In. }
        apply Hq, in_or_app. right. apply filter_In. split; [assumption|].
        now rewrite En.
Qed.

Lemma findConnectedComponent_spec (startAuthor : str)
    (adj : list (str * list str)) (processed : list str) :
  exists component,
    findConnectedComponent startAuthor adj processed
    = Some (component, processed ++ component)
    /\ NoDup component
    /\ (forall x, In x component ->
          ~ In x processed /\ reachable adj startAuthor x)
    /\ (In startAuthor processed \/ In startAuthor component)
    /\ (forall x n, In x component -> In n (neighborsOf adj x) ->
          In n processed \/ In n component).
Proof.
  destruct (findConnectedComponent_total startAuthor adj processed)
    as [[comp' proc'] H].
  pose proof H as H0. unfold findConnectedComponent in H0.
  apply componentLoop_spec in H0; [|intros x []].
  destruct H0 as (added & Hc & Hp & Hnd & Hnew & Hq & Hcl).
  simpl in Hc. subst comp' proc'. exists added.
  split; [assumption|]. split; [assumption|]. split; [|split].
  - intros x Hx. destruct (Hnew x Hx) as [Hn (q & [<-|[]] & Hr)]. split; assumption.
  - apply in_app_or, Hq. now left.
  - intros x n Hx Hn. apply in_app_or. now apply (Hcl x).
Qed.

(** X17.  [findConnectedComponent] returns for every adjacency list, start
    name and set of processed names.  The component has no name twice and
    none that was processed before; the names it holds are added to
    [processed]; each is reached from the start name along the adjacency
    list; the start name is in it unless it was processed before; and every
    neighbour of a name of the component was processed before or is in the
    component.  With nothing processed before, the component is exactly the
    set of names reached from the start name. *)
Theorem findConnectedComponent_correct (startAuthor : str)
    (adj : list (str * list str)) (processed : list str) :
  exists component,
    findConnectedComponent startAuthor adj processed
    = Some (component, processed ++ component)
    /\ NoDup component
    /\ (forall x, In x component ->
          ~ In x processed /\ reachable adj startAuthor x)
    /\ (In startAuthor processed \/ In startAuthor component)
    /\ (forall x n, In x component -> In n (neighborsOf adj x) ->
          In n processed \/ In n component)
    /\ (processed = [] ->
        forall x, In x component <-> reachable adj startAuthor x).
Proof.
  destruct (findConnectedComponent_spec startAuthor adj processed)
    as (component & Heq & Hnd & Hnew & Hstart & Hcl).
  exists component. repeat (split; [assumption|]).
  intros -> x. split; [intros Hx; now apply Hnew|].
  intros Hr. induction Hr as [|b c Hb IH Hc].
  - destruct Hstart as [[]|Hs]. exact Hs.
  - destruct (Hcl b c IH Hc) as [[]|H]. exact H.
Qed.

Lemma joins_sym (e : CollaborationEdge) (v w : str) : joins e v w -> joins e w v.
Proof. unfold joins. tauto. Qed.

Lemma neighborsOf_sym (collaborations : list CollaborationEdge) (v w : str) :
  In w (neighborsOf (buildAdjacency collaborations) v) ->
  In v (neighborsOf (buildAdjacency collaborations) w).
Proof.
  intros H. apply buildAdjacency_spec in H. destruct H as (e & He & Hj).
  apply buildAdjacency_spec. exists e. split; [assumption | now apply joins_sym].
Qed.

Section Components.
Variable authors : list AuthorProfile.
Variable collaborations : list CollaborationEdge.
Local Abbreviation adj := (buildAdjacency collaborations).
Local Abbreviation step := (community_step authors collaborations adj).

Lemma component_exact (start : str) (processed component : list str) :
  (forall x n, In x processed -> In n (neighborsOf adj x) -> In n processed) ->
  (forall x, In x component -> ~ In x processed /\ reachable adj start x) ->
  In start component ->
  (forall x n, In x component -> In n (neighborsOf adj x) ->
     In n processed \/ In n component) ->
  forall x, In x component <-> reachable adj start x.
Proof.
  intros Hclosed Hnew Hstart Hcl x. split; [intros Hx; now apply Hnew|].
  intros Hr. induction Hr as [|b c Hb IH Hc]; [assumption|].
  destruct (Hcl b c IH Hc) as [Hp|H]; [|exact H]. exfalso.
  apply neighborsOf_sym in Hc. destruct (Hnew b IH) as [Hn _].
  apply Hn. now apply (Hclosed c b).
Qed.

Lemma community_step_inv (names : list str) communities processed
    (author : AuthorProfile) :
  In (cleanName author) names ->
  communitiesInv adj names communities processed ->
  exists communities' processed',
    step (Some (communities, processed)) author = Some (communities', processed')
    /\ communitiesInv adj names communities' processed'
    /\ In (cleanName author) processed'
    /\ (forall x, In x processed -> In x processed').
Proof.
  intros Hname (Hnd & Hold & Hclosed & Hcomp & Hmem).
  rewrite community_step_eq.
  destruct (set_has processed (cleanName author)) eqn:E.
  { exists communities, processed. split; [reflexivity|].
    split; [repeat split; assumption|].
    split; [now apply set_has_In | auto]. }
  assert (Hfresh : ~ In (cleanName author) processed).
  { intros Hin. apply set_has_In in Hin. congruence. }
  destruct (findConnectedComponent_spec (cleanName author) adj processed)
    as (component & Heq & Hcnd & Hnew & Hstart & Hcl).
  destruct Hstart as [Hstart|Hstart]; [contradiction|].
  rewrite Heq.
  pose proof (@component_exact (cleanName author) processed component
                Hclosed Hnew Hstart Hcl) as Hexact.
  assert (Hclosed' : forall x n, In x (processed ++ component) ->
                       In n (neighborsOf adj x) -> In n (processed ++ component)).
  { intros x n Hx Hn. apply in_app_or in Hx. apply in_or_app.
    destruct Hx as [Hx|Hx]; [left; now apply (Hclosed x) | now apply (Hcl x)]. }
  destruct (Nat.leb_spec 3 (length component)) as [Hsize|Hsize].
  - eexists _, _. split; [reflexivity|].
    assert (Hflat : flat_map members
                      (communities
                       ++ [makeCommunity authors collaborations adj
                             (length communities) component])
                    = flat_map members communities ++ component).
    { rewrite flat_map_app. cbn [flat_map members makeCommunity].
      now rewrite app_nil_r. }
    split; [|split].
    + unfold communitiesInv. rewrite Hflat. split; [|split; [|split; [|split]]].
      * apply NoDup_app; [assumption | assumption|].
        intros x Hx Hc. apply Hold in Hx. now destruct (Hnew x Hc).
      * intros x Hx. apply in_app_or in Hx. apply in_or_app.
        destruct Hx as [Hx|Hx]; [left; now apply Hold | now right].
      * exact Hclosed'.
      * apply Forall_app. split; [assumption|]. constructor; [|constructor].
        exists (cleanName author). split; [assumption|]. exact Hexact.
      * intros x Hx. apply in_app_or in Hx. destruct Hx as [Hx|Hx].
        { destruct (Hmem x Hx) as [H|H]; [left; apply in_or_app; now left | now right]. }
        left. apply in_or_app. now right.
    + apply in_or_app. now right.
    + intros x Hx. apply in_or_app. now left.
  - eexists _, _. split; [reflexivity|]. split; [|split].
    + split; [assumption|]. split; [|split; [|split]].
      * intros x Hx. apply in_or_app. left. now apply Hold.
      * exact Hclosed'.
      * assumption.
      * intros x Hx. apply in_app_or in Hx. destruct Hx as [Hx|Hx].
        { now apply Hmem. }
        right. exists component. split; [assumption|].
        intros y Hy. apply Hexact. apply reachable_trans with x; [|assumption].
        now apply Hexact.
    + apply in_or_app. now right.
    + intros x Hx. apply in_or_app. now left.
Qed.

Lemma community_steps_inv (names : list str) (l : list AuthorProfile) :
  forall communities processed,
    (forall a, In a l -> In (cleanName a) names) ->
    communitiesInv adj names communities processed ->
    exists communities' processed',
      fold_left step l (Some (communities, processed))
      = Some (communities', processed')
      /\ communitiesInv adj names communities' processed'
      /\ (forall a, In a l -> In (cleanName a) processed')
      /\ (forall x, In x processed -> In x processed').
Proof.
  induction l as [|author l IH]; intros communities processed Hnames Hinv;
    cbn [fold_left].
  - exists communities, processed. split; [reflexivity|].
    split; [assumption|]. split; [intros a []| auto].
  - destruct (@community_step_inv names communities processed author
                (Hnames author (or_introl eq_refl)) Hinv)
      as (cs1 & pr1 & Heq & Hinv1 & Hin1 & Hmono1).
    rewrite Heq.
    destruct (IH cs1 pr1 (fun a Ha => Hnames a (or_intror Ha)) Hinv1)
      as (cs2 & pr2 & Heq2 & Hinv2 & Hin2 & Hmono2).
    exists cs2, pr2. split; [assumption|]. split; [assumption|]. split.
    + intros a [<-|Ha]; [now apply Hmono2 | now apply Hin2].
    + intros x Hx. now apply Hmono2, Hmono1.
Qed.

(** X18.  [detectAuthorCommunities] returns exactly the connected
    components of the collaboration graph that hold the clean name of a
    profile and have three names or more: no name is in two communities or
    twice in one; the members of each community are the names reached from
    the clean name of some profile; the clean name of every profile is a
    member of a community unless all that is reached from it fits in a list
    shorter than three; and the communities come in descending order of
    [paperCount]. *)
Theorem detectAuthorCommunities_components :
  exists communities,
    detectAuthorCommunities authors collaborations = Some communities
    /\ NoDup (flat_map members communities)
    /\ Forall (fun c => exists a, In a authors
                                  /\ componentOf adj (cleanName a) c)
         communities
    /\ (forall a, In a authors ->
          In (cleanName a) (flat_map members communities)
          \/ smallComponent adj (cleanName a))
    /\ descending c_paperCount communities.
Proof.
  assert (Hinit : communitiesInv adj (map cleanName authors) [] []).
  { split; [constructor|]. split; [intros x []|]. split; [intros x n []|].
    split; [constructor | intros x []]. }
  destruct (@community_steps_inv (map cleanName authors) authors [] []
              (fun a Ha => in_map cleanName authors a Ha) Hinit)
    as (cs & pr & Heq & (Hnd & Hold & Hclosed & Hcomp & Hmem) & Hin & _).
  unfold detectAuthorCommunities. cbv zeta. rewrite Heq.
  eexists. split; [reflexivity|].
  pose proof (stable_sort_perm (fun a b => c_paperCount a <? c_paperCount b) cs)
    as Hperm.
  pose proof (Permutation_flat_map members Hperm) as Hflat.
  split; [exact (Permutation_NoDup Hflat Hnd)|]. split; [|split].
  - apply Forall_forall. intros c Hc.
    apply (Permutation_in _ (Permutation_sym Hperm)) in Hc.
    rewrite Forall_forall in Hcomp. destruct (Hcomp c Hc) as (start & Hs & Hco).
    apply in_map_iff in Hs. destruct Hs as (a & <- & Ha). now exists a.
  - intros a Ha. destruct (Hmem _ (Hin a Ha)) as [H|H]; [left | now right].
    exact (Permutation_in _ Hflat H).
  - apply stable_sort_descending.
Qed.

End Components.

End GraphFacts.

(** ** The weights of the collaboration network *)

Module NetworkFacts.
Import DataValidation AuthorAnalysis DataValidationFacts MapFacts.
Import EdgeFacts GraphFacts.

Lemma counts_get (ks : list str) : forall (m : list (str * nat)) (k : str),
  map_get (fold_left (fun m k => map_add m k 1) ks m) k
  = match occurrences k ks with
    | 0 => map_get m k
    | S c => Some (match map_get m k with Some v => v | None => 0 end + S c)
    end.
Proof.
  induction ks as [|a ks IH]; intros m k; [reflexivity|].
  cbn [fold_left]. rewrite IH. unfold occurrences. cbn [filter].
  unfold map_add. rewrite map_get_set.
  destruct (str_eqb k a) eqn:E.
  - apply str_eqb_eq in E. subst a. cbn [length].
    destruct (length (filter (str_eqb k) ks)); f_equal; lia.
  - reflexivity.
Qed.

Lemma map_get_NoDup (V : Type) (m : list (str * V)) (k : str) (v : V) :
  NoDup (keys m) -> In (k, v) m -> map_get m k = Some v.
Proof.
  induction m as [|[k' v'] m IH]; intros Hnd Hin; [destruct Hin|].
  simpl in Hnd. apply NoDup_cons_iff in Hnd. destruct Hnd as [Hk Hnd].
  simpl. destruct Hin as [Heq|Hin].
  - injection Heq as -> ->. now rewrite str_eqb_refl.
  - destruct (str_eqb k k') eqn:E; [|now apply IH].
    apply str_eqb_eq in E. subst k'. exfalso. apply Hk.
    change k with (fst (k, v)). now apply in_map.
Qed.

Lemma occurrences_app (k : str) (l1 l2 : list str) :
  occurrences k (l1 ++ l2) = occurrences k l1 + occurrences k l2.
Proof. unfold occurrences. now rewrite filter_app, length_app. Qed.

Lemma occurrences_nodup (v : str) (l : list str) :
  nodupb l = true -> occurrences v l = if set_has l v then 1 else 0.
Proof.
  unfold occurrences, set_has.
  induction l as [|x r IH]; intros Hnd; [reflexivity|].
  cbn [nodupb] in Hnd. apply andb_true_iff in Hnd. destruct Hnd as [Hx Hr].
  apply negb_true_iff in Hx. cbn [filter existsb].
  destruct (str_eqb v x) eqn:E.
  - apply str_eqb_eq in E. subst x. cbn [length orb].
    rewrite (IH Hr). unfold set_has in Hx. now rewrite Hx.
  - cbn [orb]. now apply IH.
Qed.

Lemma edgeKey_eqb (a b x v : str) :
  a <> b -> pipeFree a = true -> pipeFree b = true ->
  pipeFree x = true -> pipeFree v = true ->
  str_eqb (edgeKey a b) (edgeKey x v)
  = (str_eqb x a && str_eqb b v) || (str_eqb x b && str_eqb a v).
Proof.
  intros Hab Fa Fb Fx Fv. apply eq_true_iff_eq.
  rewrite str_eqb_eq, orb_true_iff, !andb_true_iff, !str_eqb_eq. split.
  - intros H. apply edgeKey_inj in H; try assumption.
    destruct H as [[-> ->]|[-> ->]]; auto.
  - intros [[-> ->]|[-> ->]]; [reflexivity | now apply edgeKey_sym].
Qed.

Lemma occurrences_row (a b x : str) (later : list str) :
  a <> b -> pipeFree a = true -> pipeFree b = true -> pipeFree x = true ->
  forallb pipeFree later = true ->
  occurrences (edgeKey a b) (map (edgeKey x) later)
  = if str_eqb x a then occurrences b later
    else if str_eqb x b then occurrences a later else 0.
Proof.
  intros Hab Fa Fb Fx. unfold occurrences.
  induction later as [|v later IH]; intros Fl.
  - now destruct (str_eqb x a), (str_eqb x b).
  - cbn [forallb] in Fl. apply andb_true_iff in Fl. destruct Fl as [Fv Fl].
    cbn [map filter]. rewrite (@edgeKey_eqb a b x v Hab Fa Fb Fx Fv).
    specialize (IH Fl). revert IH.
    destruct (str_eqb x a) eqn:Ea.
    + assert (Eb : str_eqb x b = false).
      { apply str_eqb_neq. apply str_eqb_eq in Ea. congruence. }
      rewrite Eb. cbn [andb orb]. rewrite orb_false_r. intros IH.
      destruct (str_eqb b v); cbn [length]; now rewrite IH.
    + destruct (str_eqb x b) eqn:Eb; cbn [andb orb]; intros IH.
      * destruct (str_eqb a v); cbn [length]; now rewrite IH.
      * exact IH.
Qed.

Lemma occurrences_pairKeys (a b : str) (l : list str) :
  a <> b -> pipeFree a = true -> pipeFree b = true ->
  nodupb l = true -> forallb pipeFree l = true ->
  occurrences (edgeKey a b) (pairKeys l)
  = if set_has l a && set_has l b then 1 else 0.
Proof.
  intros Hab Fa Fb. induction l as [|x later IH]; intros Hnd Fl; [reflexivity|].
  pose proof Hnd as Hnd0.
  cbn [nodupb] in Hnd. apply andb_true_iff in Hnd. destruct Hnd as [Hx Hr].
  apply negb_true_iff in Hx.
  cbn [forallb] in Fl. apply andb_true_iff in Fl. destruct Fl as [Fx Fl].
  cbn [pairKeys]. rewrite occurrences_app, (IH Hr Fl).
  rewrite (@occurrences_row a b x later Hab Fa Fb Fx Fl).
  rewrite !(fun v => @occurrences_nodup v later Hr).
  unfold set_has at 5 6. cbn [existsb]. fold (set_has later a) (set_has later b).
  destruct (str_eqb x a) eqn:Ea.
  - apply str_eqb_eq in Ea. subst x. rewrite Hx, str_eqb_refl.
    assert (Eb : str_eqb b a = false) by (apply str_eqb_neq; congruence).
    rewrite Eb. cbn [andb orb]. destruct (set_has later b); reflexivity.
  - assert (Ea' : str_eqb a x = false).
    { apply str_eqb_neq. apply str_eqb_neq in Ea. congruence. }
    rewrite Ea'. cbn [orb]. destruct (str_eqb x b) eqn:Eb.
    + apply str_eqb_eq in Eb. subst x. rewrite Hx, str_eqb_refl.
      cbn [andb orb]. rewrite andb_true_r, andb_false_r.
      destruct (set_has later a); reflexivity.
    + assert (Eb' : str_eqb b x = false).
      { apply str_eqb_neq. apply str_eqb_neq in Eb. congruence. }
      rewrite Eb'. reflexivity.
Qed.

Lemma occurrences_allKeys (papers : list PaperRecord) (a b : str) :
  a <> b -> pipeFree a = true -> pipeFree b = true ->
  noRepeatedAuthor papers = true -> pipeFreeAuthors papers = true ->
  occurrences (edgeKey a b) (allKeys papers) = jointPapers papers a b.
Proof.
  intros Hab Fa Fb. unfold allKeys, jointPapers, noRepeatedAuthor, pipeFreeAuthors.
  induction papers as [|p ps IH]; intros Hnd Fl; [reflexivity|].
  cbn [forallb] in Hnd, Fl. apply andb_true_iff in Hnd, Fl.
  destruct Hnd as [Hp Hnd]. destruct Fl as [Fp Fl].
  cbn [flat_map filter].
  rewrite occurrences_app, (IH Hnd Fl),
    (@occurrences_pairKeys a b (cleanedAuthors p) Hab Fa Fb Hp Fp).
  destruct (set_has (cleanedAuthors p) a && set_has (cleanedAuthors p) b);
    reflexivity.
Qed.

Lemma collaborationCounts_get (papers : list PaperRecord) (k : str) :
  map_get (collaborationCounts papers) k
  = match occurrences k (allKeys papers) with 0 => None | n => Some n end.
Proof.
  rewrite collaborationCounts_eq, counts_get. cbn [map_get].
  now destruct (occurrences k (allKeys papers)).
Qed.

(** X19.  The weight of an edge of [buildCollaborationNetwork] is the number
    of joint papers: when no paper lists a cleaned author name twice and no
    cleaned name holds the character [|], every edge that joins two
    distinct names [a] and [b] has as weight the number of papers that list
    both, and when that number is not zero the network has the edge from
    the smaller to the larger of the two names with that weight. *)
Theorem buildCollaborationNetwork_weight (papers : list PaperRecord) (a b : str) :
  noRepeatedAuthor papers = true ->
  pipeFreeAuthors papers = true ->
  a <> b -> pipeFree a = true -> pipeFree b = true ->
  (forall e, In e (buildCollaborationNetwork papers) -> ends e a b ->
     weight e = jointPapers papers a b)
  /\ (0 < jointPapers papers a b ->
      In {| source := lo a b; target := hi a b;
            weight := jointPapers papers a b |}
        (buildCollaborationNetwork papers)).
Proof.
  intros Hnd Fl Hab Fa Fb.
  pose proof (buildCollaborationNetwork_perm papers) as Hperm.
  destruct (collaborationCounts_props papers) as (Hkeys & _ & Hin).
  pose proof (@occurrences_allKeys papers a b Hab Fa Fb Hnd Fl) as Hocc.
  split.
  - intros e He Hends. apply (Permutation_in _ Hperm) in He.
    apply in_map_iff in He. destruct He as ([k w] & <- & Hkw).
    assert (Hk : In k (allKeys papers)).
    { apply Hin. change k with (fst (k, w)). now apply in_map. }
    unfold allKeys in Hk. apply in_flat_map in Hk. destruct Hk as (p & Hp & Hk).
    apply pairKeys_In in Hk. destruct Hk as (u & v & Hu & Hv & -> & Hne).
    unfold noRepeatedAuthor in Hnd. rewrite forallb_forall in Hnd.
    specialize (Hne (Hnd p Hp)).
    unfold pipeFreeAuthors in Fl. rewrite forallb_forall in Fl.
    pose proof (Fl p Hp) as Fp. rewrite forallb_forall in Fp.
    pose proof (Fp u Hu) as Fu. pose proof (Fp v Hv) as Fv.
    rewrite (@edgeOfEntry_key u v w Fu Fv) in Hends |- *. cbn [weight].
    assert (Hkey : edgeKey u v = edgeKey a b).
    { unfold ends in Hends. cbn [source target] in Hends.
      destruct (lo_hi_cases u v) as [[E1 E2]|[E1 E2]]; rewrite E1, E2 in Hends;
        destruct Hends as [[-> ->]|[-> ->]];
        reflexivity || (apply edgeKey_sym; congruence). }
    rewrite Hkey in Hkw. apply (@map_get_NoDup _ _ _ _ Hkeys) in Hkw.
    rewrite collaborationCounts_get, Hocc in Hkw.
    destruct (jointPapers papers a b); [discriminate | now injection Hkw].
  - intros Hpos. apply (Permutation_in _ (Permutation_sym Hperm)).
    rewrite <- (@edgeOfEntry_key a b (jointPapers papers a b) Fa Fb).
    apply in_map. apply map_get_In.
    rewrite collaborationCounts_get, Hocc.
    destruct (jointPapers papers a b); [lia | reflexivity].
Qed.

Lemma buildCollaborationNetwork_weight_sample :
  In {| source := L "ann lee"; target := L "bob ray"; weight := 1 |}
    (buildCollaborationNetwork trianglePapers).
Proof.
  assert (H1 : noRepeatedAuthor trianglePapers = true)
    by (vm_compute; reflexivity).
  assert (H2 : pipeFreeAuthors trianglePapers = true)
    by (vm_compute; reflexivity).
  assert (N : L "ann lee" <> L "bob ray") by (vm_compute; discriminate).
  assert (F1 : pipeFree (L "ann lee") = true) by (vm_compute; reflexivity).
  assert (F2 : pipeFree (L "bob ray") = true) by (vm_compute; reflexivity).
  assert (P : 0 < jointPapers trianglePapers (L "ann lee") (L "bob ray"))
    by (vm_compute; lia).
  exact (proj2 (@buildCollaborationNetwork_weight trianglePapers
                  (L "ann lee") (L "bob ray") H1 H2 N F1 F2) P).
Defined.

(** X20.  The edges of [buildCollaborationNetwork] come in descending order
    of weight, every weight is at least one, and there is one edge for each
    distinct key that the loops count. *)
Theorem buildCollaborationNetwork_sorted (papers : list PaperRecord) :
  descending weight (buildCollaborationNetwork papers)
  /\ Forall (fun e => 1 <= weight e) (buildCollaborationNetwork papers)
  /\ length (buildCollaborationNetwork papers)
     = length (keys (collaborationCounts papers))
  /\ NoDup (keys (collaborationCounts papers))
  /\ (forall k, In k (keys (collaborationCounts papers))
                <-> In k (allKeys papers)).
Proof.
  pose proof (buildCollaborationNetwork_perm papers) as Hperm.
  destruct (collaborationCounts_props papers) as (Hkeys & Hpos & Hin).
  split; [apply stable_sort_descending|]. split; [|split; [|split]].
  - apply Forall_forall. intros e He. apply (Permutation_in _ Hperm) in He.
    apply in_map_iff in He. destruct He as ([k w] & <- & Hkw).
    rewrite Forall_forall in Hpos. exact (Hpos _ Hkw).
  - rewrite (Permutation_length Hperm). unfold keys. now rewrite !length_map.
  - exact Hkeys.
  - exact Hin.
Qed.

End NetworkFacts.

(** ** Author profiles and name similarity *)

Module ProfileMore.
Import DataValidation AuthorAnalysis DataValidationFacts MapFacts.
Import AuthorNameFacts GraphFacts.

Lemma map_set_set (V : Type) (m : list (str * V)) (k : str) (v v' : V) :
  map_set (map_set m k v) k v' = map_set m k v'.
Proof.
  induction m as [|[k0 v0] m IH]; simpl.
  - now rewrite str_eqb_refl.
  - destruct (str_eqb k k0) eqn:E; simpl; rewrite E; [reflexivity|].
    now rewrite IH.
Qed.

Lemma totalCount_set (m : list (str * AuthorProfile)) (k : str)
    (v : AuthorProfile) :
  totalCount (map_set m k v)
  + match map_get m k with Some old => paperCount old | None => 0 end
  = totalCount m + paperCount v.
Proof.
  unfold totalCount. induction m as [|[k0 v0] m IH]; simpl; [lia|].
  destruct (str_eqb k k0); simpl; lia.
Qed.

Lemma profile_step_eq mapping paper (m : list (str * AuthorProfile))
    (authorName : str) :
  let canonicalName := canonicalNameOf mapping authorName in
  let cn := cleanAuthorName canonicalName in
  profile_step mapping paper m authorName
  = map_set m cn
      (addPaper paper
         (match map_get m cn with
          | Some profile => profile
          | None => newProfile canonicalName cn
          end)).
Proof.
  cbv zeta. unfold profile_step. cbv zeta. unfold map_has.
  destruct (map_get m (cleanAuthorName (canonicalNameOf mapping authorName)))
    as [profile|] eqn:E.
  - now rewrite E.
  - rewrite map_get_set, str_eqb_refl. apply map_set_set.
Qed.

Section Counts.
Variable mapping : list (str * str).
Variable seen : PaperRecord -> Prop.

Local Abbreviation profilesOk := (authorMapOk seen).

Lemma profile_step_ok paper m authorName :
  seen paper -> profilesOk m ->
  profilesOk (profile_step mapping paper m authorName)
  /\ totalCount (profile_step mapping paper m authorName) = S (totalCount m).
Proof.
  intros Hp [Hnd Hall]. rewrite profile_step_eq. cbv zeta.
  set (cn := cleanAuthorName (canonicalNameOf mapping authorName)).
  set (fresh := newProfile (canonicalNameOf mapping authorName) cn).
  pose proof (totalCount_set m cn
                (addPaper paper (match map_get m cn with
                                 | Some profile => profile
                                 | None => fresh end))) as Hsum.
  assert (Hentry : profileEntryOk seen
                     (cn, addPaper paper (match map_get m cn with
                                          | Some profile => profile
                                          | None => fresh end))).
  { destruct (map_get m cn) as [profile|] eqn:E.
    - apply map_get_In in E. rewrite Forall_forall in Hall.
      destruct (Hall _ E) as (H1 & H2 & H3 & H4). cbn [fst snd] in *.
      unfold profileEntryOk. cbn [fst snd addPaper cleanName paperCount papers].
      split; [assumption|]. split; [rewrite length_app; simpl; lia|].
      split; [lia|]. apply Forall_app. split; [assumption|].
      constructor; [assumption | constructor].
    - unfold profileEntryOk, fresh.
      cbn [fst snd addPaper newProfile cleanName paperCount papers app length].
      split; [reflexivity|]. split; [reflexivity|]. split; [lia|].
      constructor; [assumption | constructor]. }
  split; [split|].
  - now apply map_set_NoDup.
  - apply Forall_forall. intros e He. apply map_set_In in He.
    destruct He as [->|He]; [assumption|].
    rewrite Forall_forall in Hall. now apply Hall.
  - revert Hsum. destruct (map_get m cn) as [profile|]; unfold fresh;
      cbn [addPaper newProfile paperCount]; lia.
Qed.

Lemma profile_steps_ok paper (l : list str) : forall m,
  seen paper -> profilesOk m ->
  profilesOk (fold_left (profile_step mapping paper) l m)
  /\ totalCount (fold_left (profile_step mapping paper) l m)
     = totalCount m + length l.
Proof.
  induction l as [|a l IH]; intros m Hp Hm; cbn [fold_left length].
  - split; [assumption | lia].
  - destruct (@profile_step_ok paper m a Hp Hm) as [Hm1 Hs1].
    destruct (IH _ Hp Hm1) as [Hm2 Hs2]. split; [assumption|].
    rewrite Hs2, Hs1. lia.
Qed.

Lemma profile_papers_ok (ps : list PaperRecord) : forall m,
  Forall seen ps -> profilesOk m ->
  let m' := fold_left (fun m paper =>
                         fold_left (profile_step mapping paper) (authors paper) m)
              ps m in
  profilesOk m'
  /\ totalCount m'
     = totalCount m + list_sum (map (fun p => length (authors p)) ps).
Proof.
  induction ps as [|p ps IH]; intros m Hps Hm; cbv zeta; cbn [fold_left map].
  - split; [assumption | simpl; lia].
  - apply Forall_cons_iff in Hps. destruct Hps as [Hp Hps].
    destruct (@profile_steps_ok p (authors p) m Hp Hm) as [Hm1 Hs1].
    destruct (IH _ Hps Hm1) as [Hm2 Hs2]. split; [assumption|].
    rewrite Hs2, Hs1. simpl. lia.
Qed.

End Counts.

Lemma list_sum_perm (l l' : list nat) :
  Permutation l l' -> list_sum l = list_sum l'.
Proof.
  intros H. induction H; simpl; lia.
Qed.

(** X21.  The profiles of [buildAuthorProfiles] come in descending order of
    [paperCount] and no two have the same clean name; each profile holds
    at least one paper, its [paperCount] is the length of its list of
    papers, and these are papers of the input.  The paper counts add up to
    the number of author entries of the input: every author entry of every
    paper is counted in exactly one profile. *)
Theorem buildAuthorProfiles_counts (papers : list PaperRecord) :
  let profiles := buildAuthorProfiles papers in
  descending paperCount profiles
  /\ NoDup (map cleanName profiles)
  /\ Forall (fun q => paperCount q = length (AuthorAnalysis.papers q)
                      /\ 1 <= paperCount q
                      /\ Forall (fun p => In p papers) (AuthorAnalysis.papers q))
       profiles
  /\ list_sum (map paperCount profiles)
     = list_sum (map (fun p => length (authors p)) papers).
Proof.
  cbv zeta. unfold buildAuthorProfiles. cbv zeta.
  set (mapping := buildAuthorMapping (detectDuplicateAuthors (allAuthorsOf papers))).
  assert (Hinit : authorMapOk (fun p => In p papers) []).
  { split; constructor. }
  assert (Hseen : Forall (fun p => In p papers) papers).
  { apply Forall_forall. auto. }
  destruct (@profile_papers_ok mapping (fun p => In p papers) papers []
              Hseen Hinit) as [[Hnd Hall] Hsum].
  cbv zeta in Hnd, Hall, Hsum.
  set (m := fold_left _ papers []) in *.
  pose proof (stable_sort_perm (fun a b => paperCount a <? paperCount b)
                (map (fun entry => finishProfile (snd entry)) m)) as Hperm.
  split; [apply stable_sort_descending|]. split; [|split].
  - apply (Permutation_NoDup (Permutation_map cleanName Hperm)).
    rewrite map_map.
    assert (Hk : map (fun x => cleanName (finishProfile (snd x))) m = keys m).
    { unfold keys. apply map_ext_in. intros e He.
      rewrite Forall_forall in Hall. now destruct (Hall e He). }
    now rewrite Hk.
  - apply Forall_forall. intros q Hq.
    apply (Permutation_in _ (Permutation_sym Hperm)) in Hq.
    apply in_map_iff in Hq. destruct Hq as (e & <- & He).
    rewrite Forall_forall in Hall. destruct (Hall e He) as (_ & H2 & H3 & H4).
    cbn [finishProfile paperCount AuthorAnalysis.papers]. auto.
  - rewrite <- (list_sum_perm (Permutation_map paperCount Hperm)).
    rewrite map_map. unfold totalCount in Hsum. cbn [map list_sum] in Hsum.
    exact Hsum.
Qed.

Lemma partsMatch_sym (a b : str) : partsMatch a b = partsMatch b a.
Proof.
  unfold partsMatch.
  assert (E : str_eqb a b = str_eqb b a).
  { apply eq_true_iff_eq. rewrite !str_eqb_eq. split; congruence. }
  rewrite E. destruct (str_eqb b a); [reflexivity|].
  destruct ((length a =? 1) && startsWith b a),
           ((length b =? 1) && startsWith a b); reflexivity.
Qed.

Lemma Forall2_flip (A : Type) (R : A -> A -> Prop) (l1 l2 : list A) :
  (forall a b, R a b -> R b a) -> Forall2 R l1 l2 -> Forall2 R l2 l1.
Proof. intros HR H. induction H; constructor; auto. Qed.

(** X22.  [areAuthorNamesSimilar] is reflexive and symmetric but not
    transitive: [j smith] is similar to [john smith] and to [jane smith],
    and these two are not similar to each other. *)
Theorem areAuthorNamesSimilar_not_transitive :
  (forall name, areAuthorNamesSimilar name name = true)
  /\ (forall name1 name2,
        areAuthorNamesSimilar name1 name2 = areAuthorNamesSimilar name2 name1)
  /\ areAuthorNamesSimilar (L "john smith") (L "j smith") = true
  /\ areAuthorNamesSimilar (L "j smith") (L "jane smith") = true
  /\ areAuthorNamesSimilar (L "john smith") (L "jane smith") = false.
Proof.
  split; [|split].
  - intros name. unfold areAuthorNamesSimilar. now rewrite str_eqb_refl.
  - intros name1 name2. apply eq_true_iff_eq.
    rewrite !areAuthorNamesSimilar_iff.
    assert (Hflip : forall a b, partsMatch a b = true -> partsMatch b a = true).
    { intros a b H. now rewrite partsMatch_sym. }
    split; (intros [H|[H1 H2]];
            [left; congruence | right; split; [congruence|]]);
      now apply Forall2_flip.
  - split; [vm_compute; reflexivity|]. split; vm_compute; reflexivity.
Qed.

End ProfileMore.

(** ** A file without a title column *)

Module CsvHeaderFacts.
Import CsvCommon CsvParserFacts CsvRecordFacts.

Lemma startsWith_refl (s : str) : startsWith s s = true.
Proof.
  induction s as [|c r IH]; [reflexivity|]. simpl.
  rewrite IH, andb_true_r. now apply CsvLineFacts.ch_eqb_true.
Qed.

Lemma includes_refl (s : str) : includes s s = true.
Proof.
  destruct s as [|c r]; [reflexivity|]. cbn [includes].
  now rewrite startsWith_refl.
Qed.

Lemma findIndex_none (A : Type) (pred : A -> bool) (l : list A) :
  forallb (fun x => negb (pred x)) l = true -> findIndex pred l = None.
Proof.
  induction l as [|x l IH]; [reflexivity|]. simpl. intros H.
  apply andb_true_iff in H. destruct H as [Hx Hl]. apply negb_true_iff in Hx.
  now rewrite Hx, (IH Hl).
Qed.

Lemma noTitleColumn_matches (headers : list str) :
  noTitleColumn headers = true ->
  forallb (fun h => negb (CsvParser.header_matches (L "Title") h)) headers = true
  /\ forallb (fun h => negb (CsvParser004.header_matches (L "Title") h)) headers
     = true.
Proof.
  unfold noTitleColumn. rewrite !forallb_forall. intros H.
  assert (Hno : forall h, In h headers ->
            str_eqb (toLowerCase h) (toLowerCase (L "Title"))
            || includes (toLowerCase h) (toLowerCase (L "Title")) = false).
  { intros h Hh. specialize (H h Hh). apply negb_true_iff in H.
    change (toLowerCase (L "Title")) with (L "title"). rewrite H.
    destruct (str_eqb (toLowerCase h) (L "title")) eqn:E; [|reflexivity].
    apply str_eqb_eq in E. rewrite E in H.
    now rewrite includes_refl in H. }
  split; intros h Hh; apply negb_true_iff.
  - unfold CsvParser.header_matches. now apply Hno.
  - unfold CsvParser004.header_matches. rewrite (Hno h Hh). apply andb_false_r.
Qed.

Lemma rowRecords_none parseRow (rows : list str) :
  (forall raw, parseRow raw = None) -> rowRecords parseRow rows = [].
Proof.
  intros H. unfold rowRecords. induction rows as [|raw rows IH]; [reflexivity|].
  simpl. now rewrite H, IH.
Qed.

(** X23.  A file whose header line has no column with [title] in its name
    gives no record at all: both versions of [parseCSV] return the empty
    list, whatever the data rows hold. *)
Theorem parseCSV_without_title_column (content : str) :
  noTitleColumn (CsvParser.parseHeaders (hd [] (split_on newline content)))
  = true ->
  noTitleColumn (CsvParser004.parseHeaders (hd [] (split_on newline content)))
  = true ->
  CsvParser.parseCSV content = [] /\ CsvParser004.parseCSV content = [].
Proof.
  intros H1 H4. rewrite parseCSV_records, parseCSV004_records.
  apply noTitleColumn_matches in H1, H4.
  destruct H1 as [H1 _]. destruct H4 as [_ H4].
  apply findIndex_none in H1, H4. split; apply rowRecords_none; intros raw.
  - unfold CsvParser.parseRow. cbv zeta.
    destruct (negb (truthy (trim raw))); [reflexivity|].
    destruct (_ <? _); [reflexivity|].
    unfold CsvParser.createPaperRecord, CsvParser.getField.
    change (possibleFields (L "title")) with [L "Title"].
    cbn [CsvParser.getField_loop]. now rewrite H1.
  - unfold CsvParser004.parseRow. cbv zeta.
    destruct (negb (truthy (trim raw))); [reflexivity|].
    destruct (_ <? _); [reflexivity|].
    unfold CsvParser004.createPaperRecord, CsvParser004.getField.
    change (possibleFields (L "title")) with [L "Title"].
    cbn [CsvParser004.getField_loop]. now rewrite H4.
Qed.

Lemma parseCSV_without_title_column_sample :
  CsvParser.parseCSV (L "Name,Year" ++ newline :: L "A study of risk,2020") = []
  /\ CsvParser004.parseCSV
       (L "Name,Year" ++ newline :: L "A study of risk,2020") = [].
Proof.
  apply parseCSV_without_title_column; vm_compute; reflexivity.
Defined.

End CsvHeaderFacts.

(** ** Venue statistics *)

Module VenueFacts.
Import DataValidation AuthorAnalysis DataValidationFacts MapFacts.
Import GraphFacts NetworkFacts ProfileMore VenueStatistics.

Lemma venue_get (ps : list PaperRecord) :
  forall (m : list (str * (nat * VenueType))) (k : str),
    map_get (fold_left venue_step ps m) k
    = match occurrences k (map venueOf ps) with
      | 0 => map_get m k
      | S c =>
          Some (fst (match map_get m k with
                     | Some e => e
                     | None => (0, other)
                     end) + S c,
                venueType k)
      end.
Proof.
  induction ps as [|p ps IH]; intros m k; [reflexivity|].
  cbn [fold_left map]. rewrite IH. unfold occurrences. cbn [filter].
  unfold venue_step. cbv zeta. rewrite map_get_set.
  destruct (str_eqb k (venueOf p)) eqn:E.
  - apply str_eqb_eq in E. rewrite <- E. cbn [length fst].
    destruct (length (filter (str_eqb k) (map venueOf ps)));
      [reflexivity|]. f_equal. f_equal. lia.
  - reflexivity.
Qed.

Lemma venue_keys (ps : list PaperRecord) :
  forall (m : list (str * (nat * VenueType))),
    NoDup (keys m) ->
    NoDup (keys (fold_left venue_step ps m))
    /\ (forall k, In k (keys (fold_left venue_step ps m))
                  <-> In k (keys m) \/ In k (map venueOf ps)).
Proof.
  induction ps as [|p ps IH]; intros m Hnd; cbn [fold_left map].
  - split; [assumption|]. intros k. simpl. tauto.
  - assert (Hnd1 : NoDup (keys (venue_step m p))).
    { unfold venue_step. cbv zeta. now apply map_set_NoDup. }
    destruct (IH _ Hnd1) as [H1 H2]. split; [assumption|].
    intros k. rewrite H2. unfold venue_step at 1. cbv zeta.
    rewrite map_set_In_keys. simpl. split; intros H; intuition congruence.
Qed.

Lemma venue_total (ps : list PaperRecord) :
  forall (m : list (str * (nat * VenueType))),
    list_sum (map (fun e => fst (snd e)) (fold_left venue_step ps m))
    = list_sum (map (fun e => fst (snd e)) m) + length ps.
Proof.
  induction ps as [|p ps IH]; intros m; cbn [fold_left length]; [lia|].
  rewrite IH. unfold venue_step. cbv zeta.
  assert (Hset : forall (m0 : list (str * (nat * VenueType))) k v,
            list_sum (map (fun e => fst (snd e)) (map_set m0 k v))
            + fst (match map_get m0 k with Some e => e | None => (0, other) end)
            = list_sum (map (fun e => fst (snd e)) m0) + fst v).
  { intros m0 k v. induction m0 as [|[k0 v0] m0 IH0]; simpl; [lia|].
    destruct (str_eqb k k0); simpl; lia. }
  specialize (Hset m (venueOf p)
                (fst (match map_get m (venueOf p) with
                      | Some e => e
                      | None => (0, other)
                      end) + 1, venueType (venueOf p))).
  cbn [fst] in Hset. lia.
Qed.

(** X24.  [generateVenueStats] lists every venue once, in descending
    order of [paperCount]; the count of a venue is the number of papers
    filed under it (under [venue], else [publicationTitle], else
    [Unknown]), which is at least one, and its type is the type of its
    name; every paper is filed under a listed venue and the counts add up
    to the number of papers. *)
Theorem generateVenueStats_counts (papers : list PaperRecord) :
  let stats := generateVenueStats papers in
  descending paperCount stats
  /\ NoDup (map name stats)
  /\ Forall (fun s => paperCount s = papersAt papers (name s)
                      /\ 1 <= paperCount s
                      /\ type s = venueType (name s)) stats
  /\ (forall p, In p papers -> In (venueOf p) (map name stats))
  /\ list_sum (map paperCount stats) = length papers.
Proof.
  cbv zeta. unfold generateVenueStats.
  set (m := venueMapOf papers).
  set (entry := fun e : str * (nat * VenueType) =>
                  {| name := fst e; paperCount := fst (snd e);
                     type := snd (snd e) |}).
  pose proof (stable_sort_perm (fun a b => paperCount a <? paperCount b)
                (map entry m)) as Hperm.
  destruct (@venue_keys papers [] (NoDup_nil _)) as [Hnd Hkeys].
  fold (venueMapOf papers) in Hnd, Hkeys. fold m in Hnd, Hkeys.
  assert (Hnames : map name (map entry m) = keys m).
  { rewrite map_map. reflexivity. }
  split; [apply stable_sort_descending|]. split; [|split; [|split]].
  - apply (Permutation_NoDup (Permutation_map name Hperm)). now rewrite Hnames.
  - apply Forall_forall. intros s Hs.
    apply (Permutation_in _ (Permutation_sym Hperm)) in Hs.
    apply in_map_iff in Hs. destruct Hs as ([k [n ty]] & <- & He).
    cbn [entry name paperCount type fst snd].
    pose proof (@map_get_NoDup _ m k (n, ty) Hnd He) as Hget.
    unfold m, venueMapOf in Hget. rewrite venue_get in Hget.
    cbn [map_get fst] in Hget. unfold papersAt.
    destruct (occurrences k (map venueOf papers)); [discriminate|].
    injection Hget as <- <-. repeat split; lia.
  - intros p Hp. apply (Permutation_in _ (Permutation_map name Hperm)).
    rewrite Hnames. apply Hkeys. right. now apply in_map.
  - rewrite <- (list_sum_perm (Permutation_map paperCount Hperm)).
    rewrite map_map. cbn [entry paperCount].
    unfold m, venueMapOf. rewrite venue_total. reflexivity.
Qed.

End VenueFacts.

(** ** Keywords *)

Module KeywordFacts.
Import DataValidation AuthorAnalysis DataValidationFacts MapFacts.
Import EdgeFacts GraphFacts NetworkFacts Keywords.

Lemma lower_word_char (c : ascii) :
  is_word (lower_char c) = true -> is_keyword_char (lower_char c) = true.
Proof.
  destruct c as [[] [] [] [] [] [] [] []]; vm_compute; auto.
Qed.

Lemma blank_punctuation_chars (text : str) (x : ascii) :
  In x (blank_punctuation (toLowerCase text)) ->
  is_keyword_char x = true \/ is_space x = true.
Proof.
  unfold blank_punctuation, toLowerCase. rewrite map_map, in_map_iff.
  intros (c & <- & _).
  destruct (is_word (lower_char c)) eqn:Hw; cbn [orb].
  - left. now apply lower_word_char.
  - destruct (is_space (lower_char c)) eqn:Hs; right; [assumption | reflexivity].
Qed.

Lemma replace_ws_runs_chars (r : str) (x : ascii) (s : str) : forall b,
  In x (replace_ws_runs r b s) -> In x r \/ (In x s /\ is_space x = false).
Proof.
  induction s as [|c t IH]; intros b H; [destruct H|]. simpl in H.
  destruct (is_space c) eqn:Ec.
  - apply in_app_or in H. destruct H as [H|H].
    + destruct b; [destruct H | now left].
    + destruct (IH _ H) as [H'|[H1 H2]]; [now left | right].
      split; [now right | assumption].
  - destruct H as [<-|H]; [right; split; [now left | assumption]|].
    destruct (IH _ H) as [H'|[H1 H2]]; [now left | right].
    split; [now right | assumption].
Qed.

Lemma dropWhile_In (f : ascii -> bool) (x : ascii) (s : str) :
  In x (dropWhile f s) -> In x s.
Proof.
  induction s as [|c r IH]; simpl; [tauto|].
  destruct (f c); [intros H; right; now apply IH | tauto].
Qed.

Lemma trim_In (x : ascii) (s : str) : In x (trim s) -> In x s.
Proof.
  unfold trim, trimEnd, trimStart. intros H.
  apply in_rev, dropWhile_In, in_rev, dropWhile_In in H. exact H.
Qed.

Lemma split_on_chars (c : ascii) (s : str) (w : str) (x : ascii) :
  In w (split_on c s) -> In x w -> In x s /\ x <> c.
Proof.
  revert w. induction s as [|y r IH]; intros w Hw Hx; simpl in Hw.
  - destruct Hw as [<-|[]]. destruct Hx.
  - destruct (ch_eqb y c) eqn:E.
    + destruct Hw as [<-|Hw]; [destruct Hx|].
      destruct (IH _ Hw Hx). split; [now right | assumption].
    + apply CsvLineFacts.ch_eqb_false in E.
      destruct (split_on c r) as [|h t] eqn:Es.
      * destruct Hw as [<-|[]]. destruct Hx as [<-|[]].
        split; [now left | assumption].
      * destruct Hw as [<-|Hw].
        { destruct Hx as [<-|Hx]; [split; [now left | assumption]|].
          destruct (IH h (or_introl eq_refl) Hx). split; [now right | assumption]. }
        destruct (IH w (or_intror Hw) Hx). split; [now right | assumption].
Qed.

Lemma preprocessText_words (text : str) (w : str) :
  In w (preprocessText text) ->
  3 <= length w
  /\ forallb is_keyword_char w = true
  /\ set_has STOP_WORDS w = false
  /\ forallb is_digit w = false.
Proof.
  unfold preprocessText. destruct (negb (truthy text)); [intros []|].
  intros H. apply filter_In in H. destruct H as [H Hd].
  apply filter_In in H. destruct H as [H Hl].
  apply andb_true_iff in Hl. destruct Hl as [Hlen Hstop].
  apply Nat.ltb_lt in Hlen. apply negb_true_iff in Hstop.
  split; [lia|]. split; [|split; [assumption|]].
  - apply forallb_forall. intros x Hx.
    destruct (split_on_chars _ _ _ x H Hx) as [Hin Hne].
    apply trim_In in Hin. apply replace_ws_runs_chars in Hin.
    destruct Hin as [[<-|[]]|[Hin Hns]]; [now destruct Hne|].
    apply (@blank_punctuation_chars text x) in Hin. destruct Hin; congruence.
  - apply negb_true_iff in Hd.
    assert (Hpos : (0 <? length w) = true) by (apply Nat.ltb_lt; lia).
    now rewrite Hpos in Hd.
Qed.

Lemma firstn_sorted (A : Type) (R : A -> A -> Prop) (l : list A) :
  forall n, StronglySorted R l -> StronglySorted R (firstn n l).
Proof.
  induction l as [|x l IH]; intros n Hs; [now destruct n|].
  destruct n as [|n]; [constructor|]. simpl.
  apply StronglySorted_inv in Hs. destruct Hs as [Hl Hx].
  constructor; [now apply IH|].
  apply Forall_forall. intros y Hy. rewrite Forall_forall in Hx.
  apply Hx. rewrite <- (firstn_skipn n l). apply in_or_app. now left.
Qed.

Lemma descending_map (A B : Type) (f : A -> nat) (g : B -> nat) (h : A -> B)
    (l : list A) :
  (forall x, In x l -> g (h x) = f x) ->
  descending f l -> descending g (map h l).
Proof.
  unfold descending. induction l as [|x l IH]; intros Hfg Hs; [constructor|].
  apply StronglySorted_inv in Hs. destruct Hs as [Hl Hx]. simpl.
  constructor.
  - apply IH; [|assumption]. intros y Hy. apply Hfg. now right.
  - apply Forall_forall. intros y Hy. apply in_map_iff in Hy.
    destruct Hy as (z & <- & Hz). rewrite Forall_forall in Hx.
    rewrite (Hfg x (or_introl eq_refl)), (Hfg z (or_intror Hz)).
    now apply Hx.
Qed.

Lemma NoDup_firstn (A : Type) (l : list A) (n : nat) :
  NoDup l -> NoDup (firstn n l).
Proof.
  intros H. rewrite <- (firstn_skipn n l) in H.
  now apply NoDup_app_remove_r in H.
Qed.

(** X25.  Every word that [preprocessText] returns has three characters or
    more, is made of lower-case letters, digits and underscores, is no
    stop word and is not a number.  [extractKeywords] returns at most
    [maxKeywords] of these words, each once and in descending order of the
    number of its occurrences among them, and it returns all of them when
    [maxKeywords] is not below the number of distinct words. *)
Theorem extractKeywords_spec (text : str) (maxKeywords : nat) :
  let words := preprocessText text in
  let keywords := extractKeywords text maxKeywords in
  Forall (fun w => 3 <= length w
                   /\ forallb is_keyword_char w = true
                   /\ set_has STOP_WORDS w = false
                   /\ forallb is_digit w = false) words
  /\ length keywords <= maxKeywords
  /\ NoDup keywords
  /\ (forall w, In w keywords -> In w words)
  /\ descending (fun w => occurrences w words) keywords
  /\ (length (wordFreq words) <= maxKeywords ->
      forall w, In w words -> In w keywords).
Proof.
  cbv zeta. split.
  { apply Forall_forall. intros w Hw. exact (@preprocessText_words text w Hw). }
  unfold extractKeywords. set (words := preprocessText text).
  destruct (@counts_fold words [] (NoDup_nil _) (Forall_nil _))
    as (Hnd & _ & Hkeys).
  cbv zeta in Hnd, Hkeys. fold (wordFreq words) in Hnd, Hkeys.
  set (m := wordFreq words) in *.
  set (sorted := stable_sort (fun a b => snd a <? snd b) m).
  pose proof (stable_sort_perm (fun a b => snd a <? snd b) m) as Hperm.
  fold sorted in Hperm.
  assert (Hnds : NoDup (map fst sorted)).
  { exact (Permutation_NoDup (Permutation_map fst Hperm) Hnd). }
  assert (Hfreq : forall e, In e sorted -> occurrences (fst e) words = snd e).
  { intros [k c] He. apply (Permutation_in _ (Permutation_sym Hperm)) in He.
    apply (@map_get_NoDup _ m k c Hnd) in He.
    unfold m, wordFreq in He. rewrite counts_get in He. cbn [map_get] in He.
    cbn [fst snd]. destruct (occurrences k words); [discriminate|].
    now injection He. }
  split; [|split; [|split; [|split]]].
  - rewrite length_map. apply firstn_le_length.
  - rewrite <- firstn_map. now apply NoDup_firstn.
  - intros w Hw. apply in_map_iff in Hw. destruct Hw as (e & <- & He).
    assert (Hin : In e sorted).
    { rewrite <- (firstn_skipn maxKeywords sorted). apply in_or_app. now left. }
    apply (Permutation_in _ (Permutation_sym Hperm)) in Hin.
    assert (Hk : In (fst e) (keys m)) by now apply in_map.
    apply Hkeys in Hk. destruct Hk as [[]|Hk]. exact Hk.
  - apply descending_map with (f := snd).
    + intros e He. apply Hfreq.
      rewrite <- (firstn_skipn maxKeywords sorted). apply in_or_app. now left.
    + apply firstn_sorted. apply stable_sort_descending.
  - intros Hlen w Hw.
    rewrite firstn_all2
      by (unfold sorted; now rewrite stable_sort_length).
    apply (Permutation_in _ (Permutation_map fst Hperm)).
    apply Hkeys. now right.
Qed.

End KeywordFacts.

(** ** Topic clusters *)

Module TopicClusterFacts.
Import DataValidation TextAnalysis AuthorAnalysis ResearchGapAnalysis.
Import DataValidationFacts MapFacts GraphFacts NetworkFacts TopicClusters.




Local Abbreviation listOf m k :=
  (match map_get m k with Some l => l | None => @nil PaperRecord end).









End TopicClusterFacts.

(** ** Emerging and stagnant topics *)

Module TrendFacts.
Import TextAnalysis ResearchGapAnalysis ResearchGapFacts.

Lemma filter_length_mono (A : Type) (f g : A -> bool) (l : list A) :
  (forall x, f x = true -> g x = true) ->
  length (filter f l) <= length (filter g l).
Proof.
  intros H. induction l as [|x l IH]; simpl; [lia|].
  destruct (f x) eqn:Ef.
  - rewrite (H x Ef). simpl. lia.
  - destruct (g x); simpl; lia.
Qed.

Lemma isRecent_mono (currentYear : Z) (p : PaperRecord) :
  isRecent currentYear 3 p = true -> isRecent currentYear 5 p = true.
Proof.
  unfold isRecent. destruct (publicationYear p) as [y|]; [|discriminate].
  rewrite !andb_true_iff, !Z.leb_le. intros [H1 H2]. split; [assumption | lia].
Qed.

Lemma recentRatio_mono (currentYear : Z) (topic : TopicCluster.t) (r3 r5 : Q) :
  recentRatio currentYear 3 topic = Some r3 ->
  recentRatio currentYear 5 topic = Some r5 ->
  (r3 <= r5)%Q.
Proof.
  unfold recentRatio.
  destruct (length (TopicCluster.papers topic)) as [|n] eqn:En; [discriminate|].
  intros [= <-] [= <-]. unfold Qdiv. apply Qmult_le_compat_r.
  - unfold Qof_nat. rewrite <- Zle_Qle. apply Nat2Z.inj_le.
    apply filter_length_mono. apply isRecent_mono.
  - apply Qlt_le_weak, Qinv_lt_0_compat. unfold Qof_nat.
    rewrite <- (Zlt_Qlt 0). lia.
Qed.

Lemma NoDup_map_inj (A B : Type) (f : A -> B) (l : list A) (a b : A) :
  NoDup (map f l) -> In a l -> In b l -> f a = f b -> a = b.
Proof.
  induction l as [|x l IH]; intros Hnd Ha Hb Hf; [destruct Ha|].
  cbn [map] in Hnd. apply NoDup_cons_iff in Hnd. destruct Hnd as [Hx Hnd].
  destruct Ha as [<-|Ha], Hb as [<-|Hb]; try reflexivity.
  - exfalso. apply Hx. rewrite Hf. now apply in_map.
  - exfalso. apply Hx. rewrite <- Hf. now apply in_map.
  - now apply IH.
Qed.

(** X27.  No topic is both emerging and stagnant: when the labels of the
    clusters are pairwise distinct, a label that [identifyEmergingTopics]
    returns is not returned by [identifyStagnantTopics], for the papers of
    the last three years are among those of the last five. *)
Theorem emerging_is_not_stagnant (topicClusters : list TopicCluster.t)
    (currentYear : Z) (label : str) :
  NoDup (map TopicCluster.label topicClusters) ->
  In label (identifyEmergingTopics topicClusters currentYear) ->
  ~ In label (identifyStagnantTopics topicClusters currentYear).
Proof.
  intros Hnd He Hs. unfold identifyEmergingTopics in He.
  unfold identifyStagnantTopics in Hs.
  apply in_map_iff in He, Hs.
  destruct He as (t & Hl & Ht). destruct Hs as (t' & Hl' & Ht').
  apply filter_In in Ht, Ht'. destruct Ht as [Hin H3]. destruct Ht' as [Hin' H5].
  assert (Heq : t' = t).
  { apply (NoDup_map_inj TopicCluster.label topicClusters); try assumption.
    congruence. }
  subst t'.
  destruct (recentRatio currentYear 3 t) as [r3|] eqn:E3; [|discriminate].
  destruct (recentRatio currentYear 5 t) as [r5|] eqn:E5; [|discriminate].
  pose proof (recentRatio_mono _ _ E3 E5) as Hle.
  apply Qgtb_lt in H3. apply andb_true_iff in H5. destruct H5 as [H5 _].
  unfold Qltb in H5. apply negb_true_iff in H5.
  assert (H5' : ~ (2 # 10 <= r5)%Q).
  { intros H. apply Qle_bool_iff in H. congruence. }
  apply H5'. apply Qle_trans with r3; [|assumption].
  apply Qlt_le_weak. apply Qle_lt_trans with (4 # 10)%Q; [|assumption].
  discriminate.
Qed.

Lemma emerging_is_not_stagnant_sample :
  In (L "Security") (identifyEmergingTopics recentCluster 2025)
  /\ ~ In (L "Security") (identifyStagnantTopics recentCluster 2025).
Proof.
  assert (Hnd : NoDup (map TopicCluster.label recentCluster)).
  { repeat constructor. intros []. }
  assert (He : In (L "Security") (identifyEmergingTopics recentCluster 2025)).
  { left. reflexivity. }
  split; [exact He|].
  exact (@emerging_is_not_stagnant recentCluster 2025 (L "Security") Hnd He).
Defined.

End TrendFacts.

(** ** Temporal gaps *)

Module TemporalFacts.
Import TextAnalysis ResearchGapAnalysis TemporalGaps.

Lemma year_get_set (m : list (Z * nat)) (y y' : Z) (c : nat) :
  year_get (year_set m y c) y' = if (y' =? y)%Z then Some c else year_get m y'.
Proof.
  induction m as [|[y0 c0] m IH]; simpl.
  - reflexivity.
  - destruct (Z.eqb_spec y y0) as [->|Hne]; simpl.
    + now destruct (y' =? y0)%Z.
    + rewrite IH. destruct (Z.eqb_spec y' y0) as [->|Hne'].
      * destruct (Z.eqb_spec y0 y); [congruence | reflexivity].
      * reflexivity.
Qed.

Lemma year_set_keys (m : list (Z * nat)) (y : Z) (c : nat) :
  map fst (year_set m y c)
  = if existsb (Z.eqb y) (map fst m) then map fst m else map fst m ++ [y].
Proof.
  induction m as [|[y0 c0] m IH]; simpl; [reflexivity|].
  destruct (y =? y0)%Z; simpl; [reflexivity|]. rewrite IH.
  now destruct (existsb (Z.eqb y) (map fst m)).
Qed.

Lemma year_set_In (m : list (Z * nat)) (y : Z) (c : nat) (e : Z * nat) :
  In e (year_set m y c) -> e = (y, c) \/ In e m.
Proof.
  induction m as [|[y0 c0] m IH]; simpl.
  - intros [<-|[]]. now left.
  - destruct (Z.eqb_spec y y0) as [->|Hne]; simpl.
    + intros [<-|H]; [now left | right; now right].
    + intros [<-|H]; [right; now left|].
      destruct (IH H); [now left | right; now right].
Qed.

Lemma year_get_In (m : list (Z * nat)) (y : Z) :
  In y (map fst m) -> exists c, year_get m y = Some c /\ In (y, c) m.
Proof.
  induction m as [|[y0 c0] m IH]; simpl; [intros []|].
  destruct (Z.eqb_spec y y0) as [->|Hne].
  - intros _. exists c0. split; [reflexivity | now left].
  - intros [H|H]; [congruence|]. destruct (IH H) as (c & Hc & Hin).
    exists c. split; [assumption | now right].
Qed.

(** What the [reduce] of [findTemporalGaps] maintains. *)
Lemma yearlyPapers_inv (papers : list PaperRecord) :
  NoDup (map fst (yearlyPapers papers))
  /\ Forall (fun e => 1 <= snd e) (yearlyPapers papers)
  /\ (forall y, In y (map fst (yearlyPapers papers))
                <-> In y (paperYears papers)).
Proof.
  unfold yearlyPapers, paperYears.
  induction papers as [|p ps IH] using rev_ind.
  - simpl. split; [constructor|]. split; [constructor | tauto].
  - rewrite fold_left_app, flat_map_app. cbn [fold_left flat_map].
    destruct IH as (Hnd & Hpos & Hkeys).
    set (m := fold_left _ ps []) in *.
    destruct (publicationYear p) as [y|]; [|rewrite !app_nil_r; auto].
    destruct (Z.eqb_spec y 0) as [->|Hy]; [rewrite !app_nil_r; auto|].
    rewrite app_nil_r. split; [|split].
    + rewrite year_set_keys. destruct (existsb (Z.eqb y) (map fst m)) eqn:E;
        [assumption|].
      apply NoDup_app; [assumption | repeat constructor; intros []|].
      intros a Ha [Hay|[]]. subst a.
      assert (existsb (Z.eqb y) (map fst m) = true); [|congruence].
      apply existsb_exists. exists y. split; [assumption | apply Z.eqb_refl].
    + apply Forall_forall. intros e He. apply year_set_In in He.
      destruct He as [->|He]; [simpl; lia|].
      rewrite Forall_forall in Hpos. now apply Hpos.
    + intros z. rewrite year_set_keys, in_app_iff.
      destruct (existsb (Z.eqb y) (map fst m)) eqn:E.
      * rewrite Hkeys. split; [tauto|]. intros [H|[<-|[]]]; [assumption|].
        apply existsb_exists in E. destruct E as (a & Ha & Heq).
        apply Z.eqb_eq in Heq. subst a. now apply Hkeys.
      * rewrite in_app_iff, Hkeys. simpl. tauto.
Qed.

Lemma yearsOf_In (m : list (Z * nat)) (y : Z) :
  In y (yearsOf m) <-> In y (map fst m).
Proof. unfold yearsOf, AuthorAnalysis.sortYears. apply stable_sort_In. Qed.

Lemma gapAt_spec (papers : list PaperRecord) (i : nat) (gap : YearRange) :
  In gap (gapAt (yearlyPapers papers) (yearsOf (yearlyPapers papers)) i) ->
  (5 < yr_gapSize gap)%Z
  /\ startYear gap = endYear gap
  /\ In (startYear gap) (paperYears papers)
  /\ (1 <= yr_actualPapers gap)%Z
  /\ yr_expectedPapers gap = (yr_actualPapers gap + yr_gapSize gap)%Z.
Proof.
  unfold gapAt.
  destruct (nth_error (yearsOf (yearlyPapers papers)) i) as [y|] eqn:Ey;
    [|intros []].
  cbv zeta.
  set (expected := Math_round _).
  destruct (Z.ltb_spec 5 (Z.max 0 (expected
              - Z.of_nat (countOf (yearlyPapers papers) y)))) as [Hgap|Hgap];
    [|intros []].
  intros [<-|[]].
  cbn [yr_gapSize startYear endYear yr_actualPapers yr_expectedPapers].
  destruct (yearlyPapers_inv papers) as (_ & Hpos & Hkeys).
  apply nth_error_In, yearsOf_In in Ey.
  destruct (year_get_In _ _ Ey) as (c & Hc & Hin).
  rewrite Forall_forall in Hpos. specialize (Hpos _ Hin). cbn [snd] in Hpos.
  unfold countOf in *. rewrite Hc in *.
  split; [assumption|]. split; [reflexivity|]. split; [now apply Hkeys|].
  split; lia.
Qed.

(** X28.  A range that [findTemporalGaps] reports is a single year in which
    some paper of the input appeared: its [actualPapers] is at least one,
    so a year without any paper is never reported; its [gapSize] exceeds 5
    and is [expectedPapers - actualPapers].  For every such range the
    score [gapSize / expectedPapers * 50] lies strictly between 0 and 50.
    When the papers have fewer than seven distinct years, no range is
    reported. *)
Theorem findTemporalGaps_spec (papers : list PaperRecord) :
  Forall (fun gap =>
            (5 < yr_gapSize gap)%Z
            /\ startYear gap = endYear gap
            /\ In (startYear gap) (paperYears papers)
            /\ (1 <= yr_actualPapers gap)%Z
            /\ yr_expectedPapers gap = (yr_actualPapers gap + yr_gapSize gap)%Z
            /\ (0 < temporalOpportunityScore gap)%Q
            /\ (temporalOpportunityScore gap < 50)%Q)
    (findTemporalGaps papers)
  /\ (forall years, length years < 7 ->
        (forall y, In y (paperYears papers) -> In y years) ->
        findTemporalGaps papers = []).
Proof.
  split.
  - apply Forall_forall. intros gap Hgap. unfold findTemporalGaps in Hgap.
    cbv zeta in Hgap. apply in_flat_map in Hgap. destruct Hgap as (i & _ & Hgap).
    destruct (gapAt_spec _ _ _ Hgap) as (H1 & H2 & H3 & H4 & H5).
    repeat (split; [assumption|]).
    unfold temporalOpportunityScore. rewrite H5.
    set (a := yr_actualPapers gap) in *. set (g := yr_gapSize gap) in *.
    assert (Hg : (0 < inject_Z g)%Q) by (rewrite <- (Zlt_Qlt 0); lia).
    assert (Hag : (0 < inject_Z (a + g))%Q) by (rewrite <- (Zlt_Qlt 0); lia).
    assert (Hlt : (inject_Z g < inject_Z (a + g))%Q) by (rewrite <- Zlt_Qlt; lia).
    split.
    + apply Qmult_lt_0_compat; [|reflexivity].
      apply Qlt_shift_div_l; [assumption|]. now rewrite Qmult_0_l.
    + setoid_replace (50 : Q) with (1 * 50)%Q at 2 by reflexivity.
      apply Qmult_lt_compat_r; [reflexivity|].
      apply Qlt_shift_div_r; [assumption|]. now rewrite Qmult_1_l.
  - intros years Hlen Hincl. unfold findTemporalGaps. cbv zeta.
    destruct (yearlyPapers_inv papers) as (Hnd & _ & Hkeys).
    assert (Hshort : length (yearsOf (yearlyPapers papers)) <= length years).
    { unfold yearsOf, AuthorAnalysis.sortYears. rewrite stable_sort_length.
      apply NoDup_incl_length; [assumption|].
      intros y Hy. apply Hincl. now apply Hkeys. }
    replace (length (yearsOf (yearlyPapers papers)) - 6) with 0 by lia.
    reflexivity.
Qed.

End TemporalFacts.

(** ** The positions of the topical gaps *)

Module TopicalGapOrder.
Import TextAnalysis ResearchGapAnalysis ResearchGapFacts.

Section Order.
Variable papers : list PaperRecord.
Variable topicClusters : list TopicCluster.t.
Variable currentYear : Z.



End Order.

End TopicalGapOrder.

(** ** Groups of duplicate authors *)

Module DuplicateFacts.
Import DataValidation AuthorAnalysis DataValidationFacts MapFacts ProfileFacts.

Lemma duplicates_inner_group (author : str) (others : list str) :
  forall similar processed rest,
    similar = author :: rest ->
    (forall v, In v rest ->
       v <> author
       /\ areAuthorNamesSimilar (cleanAuthorName author) (cleanAuthorName v)
          = true) ->
    exists rest',
      fst (fold_left (duplicates_inner author (cleanAuthorName author)) others
             (similar, processed)) = author :: rest'
      /\ forall v, In v rest' ->
           v <> author
           /\ areAuthorNamesSimilar (cleanAuthorName author) (cleanAuthorName v)
              = true.
Proof.
  induction others as [|o others IH]; intros similar processed rest Hs Hrest;
    cbn [fold_left].
  - exists rest. split; [exact Hs | exact Hrest].
  - unfold duplicates_inner at 2.
    destruct (str_eqb author o) eqn:Eo; cbn [orb]; [now apply (IH _ _ rest)|].
    destruct (set_has processed o); [now apply (IH _ _ rest)|].
    destruct (areAuthorNamesSimilar (cleanAuthorName author) (cleanAuthorName o))
      eqn:Es; [|now apply (IH _ _ rest)].
    apply (IH _ _ (rest ++ [o])); [now rewrite Hs|].
    intros v Hv. apply in_app_or in Hv. destruct Hv as [Hv|[<-|[]]];
      [now apply Hrest|].
    split; [|exact Es]. apply str_eqb_neq in Eo. congruence.
Qed.

Lemma duplicates_outer_groups (l names : list str) :
  forall duplicates processed,
    Forall duplicateGroup duplicates ->
    Forall duplicateGroup
      (fst (fold_left (duplicates_outer l) names (duplicates, processed))).
Proof.
  induction names as [|author names IH]; intros duplicates processed Hdup;
    cbn [fold_left]; [exact Hdup|].
  unfold duplicates_outer at 2.
  destruct (set_has processed author); [now apply IH|].
  destruct (@duplicates_inner_group author l [author] processed []
              eq_refl (fun v (H : In v []) => match H with end))
    as (rest & Hsim & Hrest).
  destruct (fold_left (duplicates_inner author (cleanAuthorName author)) l
              ([author], processed)) as [similar processed'].
  cbn [fst] in Hsim. apply IH.
  destruct (Nat.ltb_spec 1 (length similar)) as [Hlen|Hlen]; [|assumption].
  apply Forall_forall. intros e He. apply map_set_In in He.
  destruct He as [->|He]; [|rewrite Forall_forall in Hdup; now apply Hdup].
  exists author, rest. cbn [fst snd]. split; [assumption|].
  split; [|split; [reflexivity | assumption]].
  intros ->. rewrite Hsim in Hlen. simpl in Hlen. lia.
Qed.

(** X30.  Every group that [detectDuplicateAuthors] returns has two names
    or more, all of them names of the list it was given; it is filed under
    the clean name of its first name, and each further name is another
    name whose clean name is similar to that of the first. *)
Theorem detectDuplicateAuthors_groups (authors : list str) :
  Forall (fun e => duplicateGroup e
                   /\ 2 <= length (snd e)
                   /\ forall v, In v (snd e) -> In v authors)
    (detectDuplicateAuthors authors).
Proof.
  apply Forall_forall. intros e He.
  pose proof (@duplicates_outer_groups authors authors [] [] (Forall_nil _))
    as Hall.
  fold (detectDuplicateAuthors authors) in Hall.
  rewrite Forall_forall in Hall. pose proof (Hall e He) as Hg.
  split; [exact Hg|]. split.
  - destruct Hg as (leader & rest & Hs & Hne & _). rewrite Hs.
    destruct rest; [now destruct Hne | simpl; lia].
  - exact (detectDuplicateAuthors_variants authors e He).
Qed.

End DuplicateFacts.
